(** * Truth Social client: session, action execution, polling, outbox, token cipher

    A shallow embedding of the TypeScript sources of the client
    (base.ts, base-monitor.ts, search.ts, notifications.ts, post.ts and
    utils/encryption.ts) together with the properties of the session and
    action orchestration layer that the specification states about them,
    followed by utils/content.ts, environment.ts, the start and stop of the
    monitors, and further properties that the code shows.

    Conventions.
    - Asynchronous methods run to completion between suspension points; a
      method is a state transformer that either returns, throws a JavaScript
      error value, or is still running when its fuel is used up.
    - External collaborators (the browser transport, the language model, the
      login exchange) are oracles: functions of the number of earlier calls
      of the same kind, so that the same request may be answered differently
      at different times.
    - JavaScript truthiness of a string is non-emptiness.
    - Numbers are integers that the doubles of the runtime hold exactly;
      where the source rounds a double, where a timer changes the delay it
      is given, and where the call stack runs out, this is written out. *)

From stdpp Require Import gmap strings list pretty.
From Stdlib Require Import ZArith Lia Sorted.
From Stdlib Require Ascii String.

Open Scope Z_scope.

(** ** JavaScript values shared by all classes *)

(** [error.response] as the monitors inspect it: [status] and
    [data.error_code]. *)
Record ErrResponse := mkErrResponse {
  resp_status : Z;
  resp_error_code : option string
}.

(** A thrown value: [error.message] and [error.response], each possibly
    undefined. *)
Record JsError := mkJsError {
  err_message : option string;
  err_response : option ErrResponse
}.

(** [new Error(msg)]: a message and no [response] property. *)
Definition Error (msg : string) : JsError :=
  {| err_message := Some msg; err_response := None |}.

Inductive Outcome (A : Type) : Type :=
| Returned (a : A)
| Thrown (e : JsError)
| OutOfFuel.
Arguments Returned {A} a.
Arguments Thrown {A} e.
Arguments OutOfFuel {A}.

Definition truthy (s : string) : bool := negb (String.eqb s "").

Definition truthy_opt (o : option string) : bool :=
  match o with Some s => truthy s | None => false end.

(** Rounding to the nearest double, on numerators over a fixed power of
    two: [a] rounded to 53 significant bits, a tie going to the neighbour
    whose last bit is 0. Overflow is left to the caller, and the subnormal
    numbers do not come into it for a whole number or for a numerator over
    2^53. *)
Definition round53 (a : Z) : Z :=
  let m := Z.abs a in
  let bits := Z.log2 m + 1 in
  if bits <=? 53 then a
  else
    let shift := bits - 53 in
    let q := m / 2 ^ shift in
    let rest := m mod 2 ^ shift in
    let half := 2 ^ (shift - 1) in
    let q := if (half <? rest) || ((rest =? half) && Z.odd q)
             then q + 1 else q in
    Z.sgn a * (q * 2 ^ shift).

(** The delay, in milliseconds, that a timer of the runtime runs for the
    delay it is asked for: [setTimeout] and [setInterval] set a delay that is
    above 2^31 - 1 (Infinity included), below 1 or NaN to 1. *)
Definition timer_delay (ms : Z) : Z :=
  if (1 <=? ms) && (ms <=? 2147483647) then ms else 1.

(** ** A state-and-exception monad for method bodies *)

Definition M (S A : Type) : Type := S -> Outcome A * S.

Definition ret {S A} (a : A) : M S A := fun s => (Returned a, s).

Definition throw {S A} (e : JsError) : M S A := fun s => (Thrown e, s).

Definition bind {S A B} (m : M S A) (k : A -> M S B) : M S B :=
  fun s =>
    match m s with
    | (Returned a, s') => k a s'
    | (Thrown e, s') => (Thrown e, s')
    | (OutOfFuel, s') => (OutOfFuel, s')
    end.

(** [try { m } catch (e) { h e }] *)
Definition try_catch {S A} (m : M S A) (h : JsError -> M S A) : M S A :=
  fun s =>
    match m s with
    | (Thrown e, s') => h e s'
    | r => r
    end.

(** [try { m } finally { f }], for an [f] that neither throws nor returns. *)
Definition finally {S A} (m : M S A) (f : S -> S) : M S A :=
  fun s =>
    match m s with
    | (OutOfFuel, s') => (OutOfFuel, s')
    | (r, s') => (r, f s')
    end.

Definition get {S} : M S S := fun s => (Returned s, s).
Definition modify {S} (f : S -> S) : M S unit := fun s => (Returned tt, f s).

Declare Scope js_scope.
Delimit Scope js_scope with js.
Notation "x <- m ;; k" := (bind m (fun x => k))
  (at level 100, m at next level, right associativity) : js_scope.
Notation "m ;;; k" := (bind m (fun _ => k))
  (at level 100, right associativity) : js_scope.
Open Scope js_scope.

(** [for (const x of xs) body x] *)
Fixpoint for_of {S A} (xs : list A) (body : A -> M S unit) : M S unit :=
  match xs with
  | [] => ret tt
  | x :: rest => body x ;;; for_of rest body
  end.

(** A method keeps a relation between the state before and after; it never
    runs out of fuel; it always returns. *)
Definition preserves {S A} (R : relation S) (m : M S A) : Prop :=
  forall s, R s (snd (m s)).

Definition settles {S A} (m : M S A) : Prop :=
  forall s, fst (m s) <> OutOfFuel.

Definition returns {S A} (m : M S A) : Prop :=
  forall s, exists a, fst (m s) = Returned a.

(** ** ClientBase (base.ts): the shared session *)

Module Base.

(** A call of [makeAuthenticatedRequest(endpoint, method, params)]. *)
Record Request := mkRequest {
  endpoint : string;
  method : string;
  params : list (string * string)
}.

(** What [page.evaluate] hands back: the HTTP status and [data], the body
    parsed as JSON or, where it is not JSON, its text;
    [ok] is the fetch API's [Response.ok]. A fetch that fails inside the
    page comes back as status 0. [TransportThrows] covers [setupBrowser] or
    [page.evaluate] itself throwing. *)
Inductive FetchResult :=
| Response (status : Z) (data : string)
| TransportThrows (e : JsError).

Definition ok (status : Z) : bool := (200 <=? status) && (status <=? 299).

(** [login()] drives the browser through supplied cookies, the cached token
    and the password grant. Every [return] of it leaves a truthy
    [authToken]; a [throw] may leave behind a token it tried. *)
Inductive LoginResult :=
| LoginOk (token : string)
| LoginThrows (e : JsError) (left_behind : option string).

Record Env := mkEnv {
  TRUTHSOCIAL_USERNAME : string;
  (** an integer, as [parseInt] gives, of at most 2^53 in size *)
  TRUTHSOCIAL_RETRY_LIMIT : Z;
  (** [getCachedToken(username)] at its k-th call: the decrypted token, or
      null when absent or undecryptable *)
  cached_token : nat -> option string;
  (** the [verify_credentials] probe of [validateSession] at its k-th call *)
  probe_ok : nat -> string -> bool;
  (** [login()] at its k-th call *)
  login_result : nat -> LoginResult;
  (** the k-th authenticated fetch, for a request and a bearer token *)
  transport : nat -> Request -> string -> FetchResult;
  (** [JSON.stringify(response.data)] for the body of a response *)
  stringify : string -> string
}.

(** What the session does to the outside world, in program order;
    [EvSleep ms] is a wait on a timer that runs for [ms] milliseconds. *)
Inductive Event :=
| EvCacheRead
| EvProbe
| EvLogin
| EvSleep (ms : Z)
| EvFetch (req : Request).

(** The static fields of [ClientBase], the counts of collaborator calls made
    so far (the index of the next answer of each oracle) and the events so
    far, oldest first. *)
Record Session := mkSession {
  authToken : option string;
  clients : gset string;          (* keys of _truthSocialClients *)
  cache_reads : nat;
  probes : nat;
  logins : nat;
  fetches : nat;
  events : list Event
}.

Definition set_token (t : option string) (s : Session) : Session :=
  mkSession t (clients s) (cache_reads s) (probes s) (logins s) (fetches s)
            (events s).

Definition register (u : string) (s : Session) : Session :=
  mkSession (authToken s) ({[u]} ∪ clients s) (cache_reads s) (probes s)
            (logins s) (fetches s) (events s).

Definition emit (e : Event) (s : Session) : Session :=
  mkSession (authToken s) (clients s) (cache_reads s) (probes s) (logins s)
            (fetches s) (events s ++ [e]).

(** [await new Promise(resolve => setTimeout(resolve, ms))] *)
Definition sleep (ms : Z) : M Session unit :=
  modify (emit (EvSleep (timer_delay ms))).

(** The names of the properties of [Object.prototype]. The registry
    [_truthSocialClients] starts as the object literal [{}], so looking up
    one of these names in it finds the inherited property, a function or
    (for [__proto__]) the prototype itself, whether or not a client has been
    registered. *)
Definition Object_prototype : list string :=
  ["constructor"; "__defineGetter__"; "__defineSetter__"; "hasOwnProperty";
   "__lookupGetter__"; "__lookupSetter__"; "isPrototypeOf";
   "propertyIsEnumerable"; "toString"; "valueOf"; "__proto__";
   "toLocaleString"].

(** Truthiness of [ClientBase._truthSocialClients[username]]: an own key,
    which holds a client, or an inherited property. *)
Definition has_client (s : Session) (username : string) : bool :=
  bool_decide (username ∈ clients s)
  || bool_decide (username ∈ Object_prototype).

(** [Math.pow(2, k) * 1000] for an integer [k], cut to whole milliseconds as
    the timer cuts it. Where the product is beyond the doubles the source
    has Infinity; the timer runs that, like every delay above 2^31 - 1, as
    1 ms. *)
Definition backoff_delay (k : Z) : Z :=
  if 0 <=? k then 2 ^ k * 1000 else 1000 / 2 ^ (- k).

Section Methods.
Variable env : Env.

Definition getCachedToken : M Session (option string) :=
  fun s =>
    (Returned (cached_token env (cache_reads s)),
     emit EvCacheRead
       (mkSession (authToken s) (clients s) (S (cache_reads s)) (probes s)
                  (logins s) (fetches s) (events s))).

Definition validateSession : M Session bool :=
  fun s =>
    if truthy_opt (authToken s) then
      (Returned (probe_ok env (probes s) (default "" (authToken s))),
       emit EvProbe
         (mkSession (authToken s) (clients s) (cache_reads s) (S (probes s))
                    (logins s) (fetches s) (events s)))
    else (Returned false, s).

Definition login : M Session unit :=
  fun s =>
    let after tok :=
      emit EvLogin
        (mkSession tok (clients s) (cache_reads s) (probes s) (S (logins s))
                   (fetches s) (events s)) in
    match login_result env (logins s) with
    | LoginOk t =>
        if truthy t then (Returned tt, after (Some t))
        else (Thrown (Error "No auth token received from login response"),
              after (Some t))
    | LoginThrows e None => (Thrown e, after (authToken s))
    | LoginThrows e (Some t) => (Thrown e, after (Some t))
    end.

(** The [while (retries > 0)] loop of [init]. *)
Fixpoint init_loop (fuel : nat) (retries : Z) : M Session unit :=
  if 0 <? retries then
    match fuel with
    | O => fun s => (OutOfFuel, s)
    | S fuel' =>
        fun s =>
          match login s with
          | (Returned _, s1) =>
              if truthy_opt (authToken s1) then
                (Returned tt, register (TRUTHSOCIAL_USERNAME env) s1)
              else init_loop fuel' retries s1
          | (Thrown _, s1) =>
              let retries := retries - 1 in
              if retries =? 0 then
                (Thrown (Error "Truth Social login failed after maximum retries"), s1)
              else
                let delay :=
                  backoff_delay (TRUTHSOCIAL_RETRY_LIMIT env - retries) in
                (_ <- sleep delay ;; init_loop fuel' retries) s1
          | (OutOfFuel, s1) => (OutOfFuel, s1)
          end
    end
  else ret tt.

Definition init (fuel : nat) : M Session unit :=
  let retries := TRUTHSOCIAL_RETRY_LIMIT env in
  let username := TRUTHSOCIAL_USERNAME env in
  s <- get ;;
  if has_client s username then ret tt
  else
    cachedToken <- getCachedToken ;;
    adopted <-
      (if truthy_opt cachedToken then
         modify (set_token cachedToken) ;;;
         valid <- validateSession ;;
         if valid then modify (register username) ;;; ret true
         else ret false
       else ret false) ;;
    if (adopted : bool) then ret tt
    else init_loop fuel retries.

Definition request_failed (status : Z) (data : string) : JsError :=
  Error ("Request failed: " +:+ pretty status +:+ " " +:+ stringify env data).

Definition fetch (req : Request) : M Session FetchResult :=
  fun s =>
    (Returned (transport env (fetches s) req (default "" (authToken s))),
     emit (EvFetch req)
       (mkSession (authToken s) (clients s) (cache_reads s) (probes s)
                  (logins s) (S (fetches s)) (events s))).

(** [makeAuthenticatedRequest]; the recursive call on 401 consumes fuel. *)
Fixpoint makeAuthenticatedRequest (fuel : nat) (req : Request)
  : M Session string :=
  match fuel with
  | O => fun s => (OutOfFuel, s)
  | S fuel' =>
      s <- get ;;
      (if truthy_opt (authToken s) then ret tt
       else
         init fuel' ;;;
         s1 <- get ;;
         if truthy_opt (authToken s1) then ret tt
         else throw (Error "Not authenticated - failed to obtain auth token")) ;;;
      try_catch
        (response <- fetch req ;;
         match response with
         | TransportThrows e => throw e
         | Response status data =>
             if negb (ok status) then
               if status =? 401 then
                 login ;;;
                 makeAuthenticatedRequest fuel' req
               else throw (request_failed status data)
             else ret data
         end)
        (fun error => throw error)
  end.

End Methods.

(** *** Vocabulary for statements about the session *)

(** What [makeAuthenticatedRequest] makes of a response other than 401. *)
Definition settle (env : Env) (r : FetchResult) : Outcome string :=
  match r with
  | TransportThrows e => Thrown e
  | Response status data =>
      if ok status then Returned data
      else Thrown (request_failed env status data)
  end.

Definition is_401 (r : FetchResult) : bool :=
  match r with
  | Response status _ => status =? 401
  | TransportThrows _ => false
  end.

(** The events of a request that is answered 401 [k] times and then
    otherwise. *)
Fixpoint retry_events (req : Request) (k : nat) : list Event :=
  match k with
  | O => [EvFetch req]
  | S k' => EvFetch req :: EvLogin :: retry_events req k'
  end.

(** The k-th [login()] throws. *)
Definition login_fails (env : Env) (k : nat) : bool :=
  match login_result env k with
  | LoginOk t => negb (truthy t)
  | LoginThrows _ _ => true
  end.

(** [init] finds a cached token and the probe accepts it. *)
Definition cached_session_valid (env : Env) (s : Session) : bool :=
  truthy_opt (cached_token env (cache_reads s)) &&
  probe_ok env (probes s) (default "" (cached_token env (cache_reads s))).

(** The events of [init] before its login loop. *)
Definition cache_events (env : Env) (s : Session) : list Event :=
  if truthy_opt (cached_token env (cache_reads s))
  then [EvCacheRead; EvProbe] else [EvCacheRead].

(** The events of a login loop in which [n + 1] attempts remain and all
    fail. *)
Fixpoint backoff_events (limit : Z) (n : nat) : list Event :=
  match n with
  | O => [EvLogin]
  | S n' =>
      EvLogin :: EvSleep (timer_delay (backoff_delay (limit - Z.of_nat n)))
        :: backoff_events limit n'
  end.

(** *** Concrete sessions *)

(** [JSON.stringify] of the bodies used below: the empty object, which
    prints as it is, and texts that are not JSON, which are strings and
    print in double quotes (none of them needs an escape). *)
Definition stringify_body (data : string) : string :=
  if String.eqb data "{}" then data
  else String (Ascii.ascii_of_nat 34)
         (data +:+ String (Ascii.ascii_of_nat 34) EmptyString).

Definition a_request : Request := mkRequest "/v1/notifications" "GET" [].

Definition active_session : Session :=
  mkSession (Some "stale") ∅ 0 0 0 0 [].

Definition fresh_session : Session := mkSession None ∅ 0 0 0 0 [].

(** The platform answers 401 twice, then 200; every login succeeds. *)
Definition env_two_401 : Env := {|
  TRUTHSOCIAL_USERNAME := "agent";
  TRUTHSOCIAL_RETRY_LIMIT := 3;
  cached_token := fun _ => None;
  probe_ok := fun _ _ => false;
  login_result := fun _ => LoginOk "fresh";
  transport := fun k _ _ =>
    if (k <? 2)%nat then Response 401 "{}" else Response 200 "done";
  stringify := stringify_body
|}.

Definition tokens_two_401 (i : nat) : string :=
  match i with O => "stale" | S _ => "fresh" end.

(** No cached token, and the login exchange is refused every time. *)
Definition env_login_down : Env := {|
  TRUTHSOCIAL_USERNAME := "agent";
  TRUTHSOCIAL_RETRY_LIMIT := 3;
  cached_token := fun _ => None;
  probe_ok := fun _ _ => false;
  login_result := fun _ => LoginThrows (Error "Login failed: 403") None;
  transport := fun _ _ _ => Response 401 "{}";
  stringify := stringify_body
|}.

End Base.

(** ** Data exchanged with the platform (types.ts, notifications.ts) *)

Record Media := mkMedia {
  media_type : string;
  media_url : string
}.

Record TruthSocialPost := mkPost {
  post_id : string;
  post_content : string;
  media_attachments : list Media
}.

Record TruthSocialAccount := mkAccount {
  account_id : string;
  account_username : string
}.

Inductive NotificationType :=
| nt_mention | nt_favourite | nt_reblog | nt_follow
| nt_group_favourite | nt_group_reblog | nt_group_mention
| nt_poll | nt_poll_owned | nt_status.

Record TruthSocialNotification := mkNotification {
  notification_id : string;
  notification_type : NotificationType;
  notification_status : option TruthSocialPost;
  notification_account : TruthSocialAccount
}.

(** The decision of the action model; an absent flag is [false]. *)
Record TruthSocialActionResponse := mkActions {
  favourite : bool;
  reblog : bool;
  quote : bool;
  reply : bool;
  follow_back : bool
}.

(** The calls the monitors make through [makeAuthenticatedRequest]. *)
Inductive Call :=
| Favourite (id : string)                      (* POST /v1/statuses/:id/favourite *)
| Reblog (id : string)                         (* POST /v1/statuses/:id/reblog *)
| QuoteStatus (status quote_id : string)       (* POST /v1/statuses, quote_id *)
| ReplyStatus (status in_reply_to_id : string) (* POST /v1/statuses, in_reply_to_id *)
| Follow (account : string)                    (* POST /v1/accounts/:id/follow *)
| GetNotifications                             (* GET /v1/notifications *)
| LookupAccount (acct : string)                (* GET /v1/accounts/lookup *)
| AccountStatuses (user_id : string).          (* GET /v1/accounts/:id/statuses *)

Definition to_request (c : Call) : Base.Request :=
  match c with
  | Favourite id =>
      Base.mkRequest ("/v1/statuses/" +:+ id +:+ "/favourite") "POST" []
  | Reblog id =>
      Base.mkRequest ("/v1/statuses/" +:+ id +:+ "/reblog") "POST" []
  | QuoteStatus status id =>
      Base.mkRequest "/v1/statuses" "POST" [("status", status); ("quote_id", id)]
  | ReplyStatus status id =>
      Base.mkRequest "/v1/statuses" "POST"
                     [("status", status); ("in_reply_to_id", id)]
  | Follow account =>
      Base.mkRequest ("/v1/accounts/" +:+ account +:+ "/follow") "POST" []
  | GetNotifications =>
      Base.mkRequest "/v1/notifications" "GET"
        [("types", "follow,mention,reblog,favourite,group_favourite,group_reblog,group_mention,poll,poll_owned,status")]
  | LookupAccount acct =>
      Base.mkRequest "/v1/accounts/lookup" "GET" [("acct", acct)]
  | AccountStatuses user_id =>
      Base.mkRequest ("/v1/accounts/" +:+ user_id +:+ "/statuses") "GET"
        [("exclude_replies", "true"); ("only_replies", "false");
         ("with_muted", "true"); ("limit", "20")]
  end.

(** Parsed response bodies, as far as the monitors look into them. An array
    body is [JPosts] on the statuses endpoint and [JNotifications] on the
    notifications endpoint. *)
Inductive Json :=
| JNull                                          (* null, or another falsy body *)
| JAccount (id : string)                         (* an object with an [id] *)
| JPosts (posts : list TruthSocialPost)          (* an array of statuses *)
| JNotifications (ns : list TruthSocialNotification)
| JOther.                                        (* any other truthy body *)

(** ** String helpers of the JavaScript runtime *)

(** Code units that [String.prototype.trim] removes, below 256. *)
Definition is_space (a : Ascii.ascii) : bool :=
  let n := Ascii.N_of_ascii a in
  ((9 <=? n) && (n <=? 13) || (n =? 32) || (n =? 160))%N.

Fixpoint blank (s : string) : bool :=
  match s with
  | EmptyString => true
  | String a rest => is_space a && blank rest
  end.

(** [s.includes(sub)] *)
Fixpoint includes (s sub : string) : bool :=
  String.prefix sub s ||
  match s with
  | EmptyString => false
  | String _ rest => includes rest sub
  end.

(** [s.replace('@', '')]: drops the first at sign (code unit 64). *)
Fixpoint strip_at (s : string) : string :=
  match s with
  | EmptyString => EmptyString
  | String a rest =>
      if (Ascii.N_of_ascii a =? 64)%N then rest else String a (strip_at rest)
  end.

(** [a > b] on strings: code unit order. *)
Definition string_gt (a b : string) : bool := String.ltb b a.

(** ** BaseMonitorClient (base-monitor.ts) *)

Module Monitor.

(** What a monitor does to the outside world, in program order.
    [EvHandlePostActions] and [EvExecuteNotificationActions] mark the entry
    into the action executor for an item. *)
Inductive Event :=
| EvRequest (c : Call)
| EvGenerateContent (action : string) (post : string)
| EvDecide (item : string)
| EvDescribeImage (url : string)
| EvCreateMemory (memoryId : string)
| EvHandlePostActions (post : string)
| EvExecuteNotificationActions (notification : string).

(** Configuration and collaborators. Each oracle is indexed by the number of
    earlier calls of its kind.
    - [request]: the result of [this.makeAuthenticatedRequest], which
      returns the parsed body, throws, or never settles;
    - [generated]: the result of [this.generateContent], whose every
      implementation catches all errors and returns the text or null;
    - [decided]: [composeState], [composeContext] and
      [generateTweetActions], which may throw;
    - [processed]: what [processContent] makes of a non-blank text (cleaned
      or summarised, with its [isSummarized] flag); it never throws. *)
Record Env := mkEnv {
  agentId : string;
  TRUTHSOCIAL_TARGET_USERS : list string;
  TRUTHSOCIAL_PROCESS_IMAGES : bool;
  request : nat -> Call -> Outcome Json;
  generated : nat -> string -> TruthSocialPost -> option string;
  decided : nat -> string -> Outcome TruthSocialActionResponse;
  processed : nat -> string -> string * bool
}.

(** The fields of a monitor instance, the message store of the runtime (the
    ids under which memories exist), the oracle indices and the events so
    far, oldest first. *)
Record State := mkState {
  isProcessing : bool;
  processedItems : gset string;
  lastCheckedPosts : gmap string string;
  actedOnPosts : gset string;
  lastCheckedNotificationId : option string;
  memories : gset string;
  requests : nat;
  generations : nat;
  decisions : nat;
  contents : nat;
  trace : list Event
}.

Definition set_isProcessing (b : bool) (s : State) : State :=
  mkState b (processedItems s) (lastCheckedPosts s) (actedOnPosts s)
          (lastCheckedNotificationId s) (memories s) (requests s)
          (generations s) (decisions s) (contents s) (trace s).

Definition add_processed (id : string) (s : State) : State :=
  mkState (isProcessing s) ({[id]} ∪ processedItems s) (lastCheckedPosts s)
          (actedOnPosts s) (lastCheckedNotificationId s) (memories s)
          (requests s) (generations s) (decisions s) (contents s) (trace s).

Definition set_lastChecked (user id : string) (s : State) : State :=
  mkState (isProcessing s) (processedItems s) (<[user := id]> (lastCheckedPosts s))
          (actedOnPosts s) (lastCheckedNotificationId s) (memories s)
          (requests s) (generations s) (decisions s) (contents s) (trace s).

Definition add_actedOn (id : string) (s : State) : State :=
  mkState (isProcessing s) (processedItems s) (lastCheckedPosts s)
          ({[id]} ∪ actedOnPosts s) (lastCheckedNotificationId s) (memories s)
          (requests s) (generations s) (decisions s) (contents s) (trace s).

Definition set_lastNotification (id : string) (s : State) : State :=
  mkState (isProcessing s) (processedItems s) (lastCheckedPosts s)
          (actedOnPosts s) (Some id) (memories s) (requests s) (generations s)
          (decisions s) (contents s) (trace s).

Definition add_memory (memoryId : string) (s : State) : State :=
  mkState (isProcessing s) (processedItems s) (lastCheckedPosts s)
          (actedOnPosts s) (lastCheckedNotificationId s)
          ({[memoryId]} ∪ memories s) (requests s) (generations s)
          (decisions s) (contents s) (trace s).

Definition emit (e : Event) (s : State) : State :=
  mkState (isProcessing s) (processedItems s) (lastCheckedPosts s)
          (actedOnPosts s) (lastCheckedNotificationId s) (memories s)
          (requests s) (generations s) (decisions s) (contents s)
          (trace s ++ [e]).

Definition next_request (s : State) : State :=
  mkState (isProcessing s) (processedItems s) (lastCheckedPosts s)
          (actedOnPosts s) (lastCheckedNotificationId s) (memories s)
          (S (requests s)) (generations s) (decisions s) (contents s) (trace s).

Definition next_generation (s : State) : State :=
  mkState (isProcessing s) (processedItems s) (lastCheckedPosts s)
          (actedOnPosts s) (lastCheckedNotificationId s) (memories s)
          (requests s) (S (generations s)) (decisions s) (contents s) (trace s).

Definition next_decision (s : State) : State :=
  mkState (isProcessing s) (processedItems s) (lastCheckedPosts s)
          (actedOnPosts s) (lastCheckedNotificationId s) (memories s)
          (requests s) (generations s) (S (decisions s)) (contents s) (trace s).

Definition next_content (s : State) : State :=
  mkState (isProcessing s) (processedItems s) (lastCheckedPosts s)
          (actedOnPosts s) (lastCheckedNotificationId s) (memories s)
          (requests s) (generations s) (decisions s) (S (contents s)) (trace s).

(** The thrown-error classifier of the monitors. *)
Definition isGroupError (error : JsError) : bool :=
  match err_response error with
  | Some r =>
      (resp_status r =? 404) &&
      (match resp_error_code r with
       | Some c => String.eqb c "GROUP_NOT_FOUND"
       | None => false
       end
       || match err_message error with
          | Some m => includes m "GROUP_NOT_FOUND"
          | None => false
          end
       || match err_message error with
          | Some m => includes m "You cannot post to this group"
          | None => false
          end)
  | None => false
  end.

(** The object literal [{}]. *)
Definition empty_object : JsError :=
  {| err_message := None; err_response := None |}.

Section Methods.
Variable env : Env.

Definition makeAuthenticatedRequest (c : Call) : M State Json :=
  fun s => (request env (requests s) c, emit (EvRequest c) (next_request s)).

Definition generateContent (post : TruthSocialPost) (action : string)
  : M State (option string) :=
  fun s =>
    (Returned (generated env (generations s) action post),
     emit (EvGenerateContent action (post_id post)) (next_generation s)).

(** [composeState], [composeContext], [generateTweetActions] for an item. *)
Definition generateTweetActions (item : string)
  : M State TruthSocialActionResponse :=
  fun s => (decided env (decisions s) item, emit (EvDecide item) (next_decision s)).

(** utils/content.ts *)
Definition processContent (content : string) : M State (string * bool) :=
  if blank content then ret (EmptyString, false)
  else fun s => (Returned (processed env (contents s) content), next_content s).

(** [stringToUuid(id + "-" + agentId)]; the hash is taken to be injective
    and left out. *)
Definition memoryId (id : string) : string := id +:+ "-" +:+ agentId env.

Definition getMemoryById (mid : string) : M State bool :=
  s <- get ;; ret (bool_decide (mid ∈ memories s)).

Definition createMemory (mid : string) : M State unit :=
  modify (fun s => emit (EvCreateMemory mid) (add_memory mid s)).

Definition storeInMemory (id content : string) : M State unit :=
  if blank content then ret tt
  else
    pc <- processContent content ;;
    if blank (fst pc) then ret tt
    else
      createMemory (memoryId id) ;;;
      modify (add_processed id).

Definition handleFavourite (post : TruthSocialPost) : M State bool :=
  try_catch
    (makeAuthenticatedRequest (Favourite (post_id post)) ;;; ret true)
    (fun error => ret false).

Definition handleReblog (post : TruthSocialPost) : M State bool :=
  try_catch
    (makeAuthenticatedRequest (Reblog (post_id post)) ;;; ret true)
    (fun error => ret false).

Definition handleQuote (post : TruthSocialPost) : M State (option string) :=
  try_catch
    (quoteContent <- generateContent post "QUOTE" ;;
     if truthy_opt quoteContent then
       makeAuthenticatedRequest
         (QuoteStatus (default "" quoteContent) (post_id post)) ;;;
       ret quoteContent
     else ret None)
    (fun error => ret None).

Definition handleReply (post : TruthSocialPost) : M State (option string) :=
  try_catch
    (replyContent <- generateContent post "REPLY" ;;
     if truthy_opt replyContent then
       makeAuthenticatedRequest
         (ReplyStatus (default "" replyContent) (post_id post)) ;;;
       ret replyContent
     else ret None)
    (fun error => ret None).

(** [BaseMonitorClient.handlePostActions]; the local variables
    [executedActions] and [isGroupPost] are threaded through. *)
Definition handlePostActions (post : TruthSocialPost)
    (truthSocialResponse : TruthSocialActionResponse) : M State (list string) :=
  modify (emit (EvHandlePostActions (post_id post))) ;;;
  storeInMemory (post_id post) (post_content post) ;;;
  st1 <-
    (if favourite truthSocialResponse then
       success <- handleFavourite post ;;
       if (success : bool) then ret (["FAVOURITE"], false)
       else if isGroupError empty_object then ret ([], true)
       else ret ([], false)
     else ret ([], false)) ;;
  st2 <-
    (if reblog truthSocialResponse && negb (snd st1) then
       success <- handleReblog post ;;
       if (success : bool) then ret (fst st1 ++ ["REBLOG"], snd st1)
       else if isGroupError empty_object then ret (fst st1, true)
       else ret st1
     else ret st1) ;;
  if (snd st2 : bool) then ret (fst st2)
  else
    st3 <-
      (if quote truthSocialResponse then
         quoteContent <- handleQuote post ;;
         if truthy_opt quoteContent then
           storeInMemory (post_id post +:+ "-quote") (default "" quoteContent) ;;;
           ret (fst st2 ++ ["QUOTE"])
         else ret (fst st2)
       else ret (fst st2)) ;;
    if reply truthSocialResponse then
      replyContent <- handleReply post ;;
      if truthy_opt replyContent then
        storeInMemory (post_id post +:+ "-reply") (default "" replyContent) ;;;
        ret (st3 ++ ["REPLY"])
      else ret st3
    else ret st3.

(** [processMediaAttachments]: one description request per image; failures
    are caught inside. *)
Definition processMediaAttachments (mediaList : list Media) : M State unit :=
  for_of mediaList (fun media =>
    if String.eqb (media_type media) "image"
    then modify (emit (EvDescribeImage (media_url media)))
    else ret tt).

End Methods.
End Monitor.

(** ** ClientBase.handlePostActions (base.ts) *)

Module BaseActions.
Import Monitor.

Section Methods.
Variable env : Env.

Definition handlePostActions (post : TruthSocialPost)
    (truthSocialResponse : TruthSocialActionResponse) : M State (list string) :=
  modify (emit (EvHandlePostActions (post_id post))) ;;;
  st1 <-
    (if favourite truthSocialResponse then
       try_catch
         (makeAuthenticatedRequest env (Favourite (post_id post)) ;;;
          ret (["FAVOURITE"], false))
         (fun error => ret ([], isGroupError error))
     else ret ([], false)) ;;
  st2 <-
    (if reblog truthSocialResponse then
       try_catch
         (makeAuthenticatedRequest env (Reblog (post_id post)) ;;;
          ret (fst st1 ++ ["REBLOG"], snd st1))
         (fun error => ret (fst st1, snd st1 || isGroupError error))
     else ret st1) ;;
  if (snd st2 : bool) then ret (fst st2)
  else
    st3 <-
      (if quote truthSocialResponse then
         try_catch
           (quoteContent <- generateContent env post "QUOTE" ;;
            if truthy_opt quoteContent then
              makeAuthenticatedRequest env
                (QuoteStatus (default "" quoteContent) (post_id post)) ;;;
              ret (fst st2 ++ ["QUOTE"])
            else ret (fst st2))
           (fun error => ret (fst st2))
       else ret (fst st2)) ;;
    if reply truthSocialResponse then
      try_catch
        (replyContent <- generateContent env post "REPLY" ;;
         if truthy_opt replyContent then
           makeAuthenticatedRequest env
             (ReplyStatus (default "" replyContent) (post_id post)) ;;;
           ret (st3 ++ ["REPLY"])
         else ret st3)
        (fun error => ret st3)
    else ret st3.

End Methods.
End BaseActions.

(** ** SearchClient (search.ts) *)

Module Search.
Import Monitor.

Section Methods.
Variable env : Env.

Definition getUserTimeline (username : string) : M State (list TruthSocialPost) :=
  try_catch
    (user <- makeAuthenticatedRequest env (LookupAccount (strip_at username)) ;;
     match user with
     | JNull => ret []
     | JAccount id =>
         if truthy id then
           response <- makeAuthenticatedRequest env (AccountStatuses id) ;;
           match response with
           | JPosts posts => ret posts
           | _ => ret []
           end
         else ret []
     | _ => ret []
     end)
    (fun error => ret []).

Definition handlePostActions (post : TruthSocialPost)
    (truthSocialResponse : TruthSocialActionResponse) : M State (list string) :=
  modify (emit (EvHandlePostActions (post_id post))) ;;;
  st1 <-
    (if favourite truthSocialResponse then
       try_catch
         (makeAuthenticatedRequest env (Favourite (post_id post)) ;;;
          ret (["FAVOURITE"], false))
         (fun error => ret ([], isGroupError error))
     else ret ([], false)) ;;
  st2 <-
    (if reblog truthSocialResponse && negb (snd st1) then
       try_catch
         (makeAuthenticatedRequest env (Reblog (post_id post)) ;;;
          ret (fst st1 ++ ["REBLOG"], snd st1))
         (fun error => ret (fst st1, snd st1 || isGroupError error))
     else ret st1) ;;
  if (snd st2 : bool) then ret (fst st2)
  else
    st3 <-
      (if quote truthSocialResponse then
         try_catch
           (quoteContent <- generateContent env post "QUOTE" ;;
            if truthy_opt quoteContent then
              makeAuthenticatedRequest env
                (QuoteStatus (default "" quoteContent) (post_id post)) ;;;
              ret (fst st2 ++ ["QUOTE"])
            else ret (fst st2))
           (fun error => ret (fst st2))
       else ret (fst st2)) ;;
    if reply truthSocialResponse then
      try_catch
        (replyContent <- generateContent env post "REPLY" ;;
         if truthy_opt replyContent then
           makeAuthenticatedRequest env
             (ReplyStatus (default "" replyContent) (post_id post)) ;;;
           ret (st3 ++ ["REPLY"])
         else ret st3)
        (fun error => ret st3)
    else ret st3.

Definition processPost (post : TruthSocialPost) (username : string)
    (shouldTakeActions : bool) : M State unit :=
  try_catch
    (existingMemory <- getMemoryById (memoryId env (post_id post)) ;;
     if (existingMemory : bool) then modify (add_processed (post_id post))
     else
       s <- get ;;
       (if shouldTakeActions && negb (bool_decide (post_id post ∈ actedOnPosts s))
        then
          (if TRUTHSOCIAL_PROCESS_IMAGES env
           then processMediaAttachments (media_attachments post)
           else ret tt) ;;;
          actionResponse <- generateTweetActions env (post_id post) ;;
          executedActions <- handlePostActions post actionResponse ;;
          match executedActions with
          | [] => ret tt
          | _ :: _ => modify (add_actedOn (post_id post))
          end
        else ret tt) ;;;
       storeInMemory env (post_id post) (post_content post))
    (fun error => ret tt).

(** The body of the [for (const username of targetUsers)] loop. *)
Definition checkUser (username : string) : M State unit :=
  try_catch
    (s <- get ;;
     let lastKnownPostId := lastCheckedPosts s !! username in
     posts <- getUserTimeline username ;;
     match posts with
     | [] => ret tt
     | first :: _ =>
         let isFirstFetch := negb (truthy_opt lastKnownPostId) in
         (if isFirstFetch then
            for_of posts (fun post => processPost post username false)
          else
            for_of posts (fun post =>
              let isNewPost :=
                string_gt (post_id post) (default "" lastKnownPostId) in
              processPost post username isNewPost)) ;;;
         modify (set_lastChecked username (post_id first))
     end)
    (fun error => ret tt).

Definition checkItems : M State unit :=
  s <- get ;;
  if isProcessing s then ret tt
  else
    match TRUTHSOCIAL_TARGET_USERS env with
    | [] => ret tt
    | targetUsers =>
        finally
          (try_catch
             (modify (set_isProcessing true) ;;;
              for_of targetUsers checkUser)
             (fun error => ret tt))
          (set_isProcessing false)
    end.

End Methods.
End Search.

(** ** NotificationsClient (notifications.ts) *)

Module Notifications.
Import Monitor.

Section Methods.
Variable env : Env.

Definition fetchNotifications : M State Json :=
  try_catch
    (response <- makeAuthenticatedRequest env GetNotifications ;;
     match response with
     | JNull => ret (JNotifications [])
     | r => ret r
     end)
    (fun error => ret (JNotifications [])).

Definition formatNotificationForLLM (notification : TruthSocialNotification)
  : M State unit :=
  match notification_status notification with
  | Some status => processContent env (post_content status) ;;; ret tt
  | None => ret tt
  end.

Definition executeNotificationActions
    (notification : TruthSocialNotification)
    (actionResponse : TruthSocialActionResponse) : M State (list string) :=
  modify (emit (EvExecuteNotificationActions (notification_id notification))) ;;;
  executed1 <-
    (match notification_type notification with
     | nt_follow =>
         if follow_back actionResponse then
           try_catch
             (makeAuthenticatedRequest env
                (Follow (account_id (notification_account notification))) ;;;
              ret ["FOLLOW_BACK"])
             (fun error => ret [])
         else ret []
     | _ => ret []
     end) ;;
  try_catch
    (match notification_status notification with
     | Some status =>
         postActions <- Monitor.handlePostActions env status actionResponse ;;
         ret (executed1 ++ postActions)
     | None => ret executed1
     end)
    (fun error => ret executed1).

Definition storeNotificationMemory (notification : TruthSocialNotification)
  : M State unit :=
  storeInMemory env (notification_id notification)
    (match notification_status notification with
     | Some status => post_content status
     | None => EmptyString
     end).

Definition handleNotification (notification : TruthSocialNotification)
  : M State unit :=
  formatNotificationForLLM notification ;;;
  actionResponse <- generateTweetActions env (notification_id notification) ;;
  executeNotificationActions notification actionResponse ;;;
  storeNotificationMemory notification.

(** The body of the [for (const notification of notifications.reverse())]
    loop. *)
Definition checkNotification (notification : TruthSocialNotification)
  : M State unit :=
  try_catch
    (s <- get ;;
     if bool_decide (notification_id notification ∈ processedItems s) then ret tt
     else
       existingMemory <- getMemoryById (memoryId env (notification_id notification)) ;;
       if (existingMemory : bool) then
         modify (add_processed (notification_id notification))
       else
         handleNotification notification ;;;
         modify (set_lastNotification (notification_id notification)) ;;;
         modify (add_processed (notification_id notification)))
    (fun error => ret tt).

Definition checkItems : M State unit :=
  s <- get ;;
  if isProcessing s then ret tt
  else
    finally
      (try_catch
         (modify (set_isProcessing true) ;;;
          notifications <- fetchNotifications ;;
          match notifications with
          | JNotifications ns => for_of (rev ns) checkNotification
          | _ => throw (Error "notifications.reverse is not a function")
          end)
         (fun error => ret tt))
      (set_isProcessing false).

End Methods.
End Notifications.

(** ** PostClient (post.ts): the outbox and the posting timer *)

Module Post.

Record TruthSocialPostOptions := mkOptions {
  status : string;
  in_reply_to_id : option string;
  quote_id : option string;
  media_ids : list string;
  visibility : option string
}.

Inductive Event :=
| EvCreatePost (options : TruthSocialPostOptions)
| EvSetInterval (period : Z)            (* a timer armed by setInterval *)
| EvNextPostLogged (delay : Z).         (* "Next post scheduled for" now + delay *)

(** - [created]: the result of [this.createPost] at its k-th call;
    - [drafted]: the cleaned text that the generation pipeline of
      [generateAndQueuePost] yields at its k-th run, or the error it throws;
    - [random]: the k-th result of [Math.random()], as the numerator of a
      fraction over [2^53]. *)
Record Env := mkEnv {
  POST_IMMEDIATELY : bool;
  POST_INTERVAL_MIN : Z;
  POST_INTERVAL_MAX : Z;
  created : nat -> TruthSocialPostOptions -> Outcome unit;
  drafted : nat -> Outcome string;
  random : nat -> Z
}.

Record State := mkState {
  isPosting : bool;
  postQueue : list TruthSocialPostOptions;
  postInterval : option Z;          (* the period of the armed interval timer *)
  creations : nat;
  drafts : nat;
  draws : nat;
  trace : list Event
}.

Definition set_isPosting (b : bool) (s : State) : State :=
  mkState b (postQueue s) (postInterval s) (creations s) (drafts s) (draws s)
          (trace s).

Definition set_postQueue (q : list TruthSocialPostOptions) (s : State) : State :=
  mkState (isPosting s) q (postInterval s) (creations s) (drafts s) (draws s)
          (trace s).

Definition emit (e : Event) (s : State) : State :=
  mkState (isPosting s) (postQueue s) (postInterval s) (creations s) (drafts s)
          (draws s) (trace s ++ [e]).

Definition two53 : Z := 2 ^ 53.

Section Methods.
Variable env : Env.

Definition createPost (options : TruthSocialPostOptions) : M State unit :=
  fun s =>
    (created env (creations s) options,
     emit (EvCreatePost options)
       (mkState (isPosting s) (postQueue s) (postInterval s) (S (creations s))
                (drafts s) (draws s) (trace s))).

(** [Math.random()]: a fraction in [0, 1), returned as its numerator. *)
Definition Math_random : M State Z :=
  fun s =>
    (Returned (random env (draws s) mod two53),
     mkState (isPosting s) (postQueue s) (postInterval s) (creations s)
             (drafts s) (S (draws s)) (trace s)).

(** [Math.floor(Math.random() * (max - min + 1) + min)] in the doubles, for
    integers [min] and [max] below 2^53 in size and apart: the product and
    the sum are each rounded to the nearest double. Both are kept as
    numerators over 2^53. *)
Definition getRandomInterval (min max : Z) : M State Z :=
  r <- Math_random ;;
  let product := round53 (r * (max - min + 1)) in
  let sum := round53 (product + min * two53) in
  ret (sum / two53).

Definition queuePost (post : TruthSocialPostOptions) : M State unit :=
  modify (fun s => set_postQueue (postQueue s ++ [post]) s).

Definition generateAndQueuePost : M State unit :=
  try_catch
    (cleanedPost <-
       (fun s =>
          (drafted env (drafts s),
           mkState (isPosting s) (postQueue s) (postInterval s) (creations s)
                   (S (drafts s)) (draws s) (trace s))) ;;
     queuePost (mkOptions cleanedPost None None [] (Some "public")))
    (fun error => ret tt).

Definition processNextPost : M State unit :=
  s <- get ;;
  if negb (isPosting s) || bool_decide (postQueue s = []) then ret tt
  else
    match postQueue s with
    | [] => ret tt
    | post :: rest =>
        modify (set_postQueue rest) ;;;
        try_catch
          (createPost post)
          (fun error => modify (fun s => set_postQueue (post :: postQueue s) s))
    end.

Definition minInterval : Z :=
  (if POST_INTERVAL_MIN env =? 0 then 90 else POST_INTERVAL_MIN env) * 60 * 1000.

Definition maxInterval : Z :=
  (if POST_INTERVAL_MAX env =? 0 then 180 else POST_INTERVAL_MAX env) * 60 * 1000.

(** The callback handed to [setInterval]. *)
Definition onPostInterval : M State unit :=
  generateAndQueuePost ;;;
  processNextPost ;;;
  nextInterval <- getRandomInterval minInterval maxInterval ;;
  modify (emit (EvNextPostLogged nextInterval)).

Definition startPostingLoop : M State unit :=
  s <- get ;;
  if isPosting s then ret tt
  else
    modify (set_isPosting true) ;;;
    (if POST_IMMEDIATELY env then
       try_catch
         (generateAndQueuePost ;;;
          s1 <- get ;;
          match postQueue s1 with
          | post :: _ =>
              createPost post ;;;
              modify (fun s => set_postQueue (tail (postQueue s)) s)
          | [] => ret tt
          end)
         (fun error => ret tt)
     else ret tt) ;;;
    if (0 <? minInterval) && (0 <? maxInterval) then
      interval <- getRandomInterval minInterval maxInterval ;;
      modify (fun s =>
        emit (EvSetInterval (timer_delay interval))
          (mkState (isPosting s) (postQueue s) (Some (timer_delay interval))
                   (creations s) (drafts s) (draws s) (trace s)))
    else ret tt.

(** [n] firings of the interval timer, one after the other. *)
Fixpoint firings (n : nat) : M State unit :=
  match n with
  | O => ret tt
  | S n' => onPostInterval ;;; firings n'
  end.

End Methods.

(** The time, counted from arming, at which an interval timer of the given
    period fires for the [n]-th time ([n] from 1). *)
Definition firing_time (period : Z) (n : nat) : Z := Z.of_nat n * period.

End Post.

(** ** EncryptionService (utils/encryption.ts) *)

Module Encryption.

(** A JavaScript string: its UTF-16 code units. *)
Definition JsString := list Z.

(** A [Buffer]. *)
Definition Buffer := list Byte.byte.

Definition byte_of_Z (z : Z) : Byte.byte :=
  match Byte.of_N (Z.to_N z) with
  | Some b => b
  | None => Byte.x00
  end.

Definition Z_of_byte (b : Byte.byte) : Z := Z.of_N (Byte.to_N b).

Definition is_high (c : Z) : bool := (0xD800 <=? c) && (c <=? 0xDBFF).
Definition is_low (c : Z) : bool := (0xDC00 <=? c) && (c <=? 0xDFFF).

(** Code units in range and every surrogate paired. *)
Fixpoint well_formed (s : JsString) : bool :=
  match s with
  | [] => true
  | c :: rest =>
      if is_high c then
        match rest with
        | d :: rest' => is_low d && well_formed rest'
        | [] => false
        end
      else (0 <=? c) && (c <=? 0xFFFF) && negb (is_low c) && well_formed rest
  end.

Definition replacement : Buffer := [Byte.xef; Byte.xbf; Byte.xbd].

(** String to bytes under the ['utf8'] encoding: a surrogate pair becomes one
    four-byte sequence, an unpaired surrogate becomes U+FFFD. *)
Fixpoint utf8_encode (s : JsString) : Buffer :=
  match s with
  | [] => []
  | c :: rest =>
      if c <? 0x80 then byte_of_Z c :: utf8_encode rest
      else if c <? 0x800 then
        byte_of_Z (0xC0 + c / 64) :: byte_of_Z (0x80 + c mod 64)
          :: utf8_encode rest
      else if is_high c then
        match rest with
        | d :: rest' =>
            if is_low d then
              let cp := 0x10000 + (c - 0xD800) * 1024 + (d - 0xDC00) in
              byte_of_Z (0xF0 + cp / 262144)
                :: byte_of_Z (0x80 + (cp / 4096) mod 64)
                :: byte_of_Z (0x80 + (cp / 64) mod 64)
                :: byte_of_Z (0x80 + cp mod 64)
                :: utf8_encode rest'
            else replacement ++ utf8_encode rest
        | [] => replacement
        end
      else if is_low c then replacement ++ utf8_encode rest
      else
        byte_of_Z (0xE0 + c / 4096) :: byte_of_Z (0x80 + (c / 64) mod 64)
          :: byte_of_Z (0x80 + c mod 64) :: utf8_encode rest
  end.

Definition continuation (x : Z) : bool := (0x80 <=? x) && (x <? 0xC0).

(** The bounds of the second byte of a sequence, for its first byte: the
    first bytes E0, ED, F0 and F4 narrow them, which rules out over-long
    forms, surrogates and code points above U+10FFFF. *)
Definition second_lower (x0 : Z) : Z :=
  if x0 =? 0xE0 then 0xA0 else if x0 =? 0xF0 then 0x90 else 0x80.

Definition second_upper (x0 : Z) : Z :=
  if x0 =? 0xED then 0x9F else if x0 =? 0xF4 then 0x8F else 0xBF.

Definition second_ok (x0 x1 : Z) : bool :=
  (second_lower x0 <=? x1) && (x1 <=? second_upper x0).

(** Bytes to string under ['utf8']. A byte that cannot start a sequence
    yields U+FFFD. A sequence that is cut short, by a byte that cannot
    continue it or by the end of the input, yields one U+FFFD for the bytes
    read so far, and decoding resumes at the byte that cut it short. *)
Fixpoint utf8_decode (bs : Buffer) : JsString :=
  match bs with
  | [] => []
  | b0 :: r0 =>
      let x0 := Z_of_byte b0 in
      if x0 <? 0x80 then x0 :: utf8_decode r0
      else if (0xC2 <=? x0) && (x0 <? 0xE0) then
        match r0 with
        | b1 :: r1 =>
            let x1 := Z_of_byte b1 in
            if continuation x1
            then ((x0 - 0xC0) * 64 + (x1 - 0x80)) :: utf8_decode r1
            else 0xFFFD :: utf8_decode r0
        | [] => [0xFFFD]
        end
      else if (0xE0 <=? x0) && (x0 <? 0xF0) then
        match r0 with
        | b1 :: r1 =>
            let x1 := Z_of_byte b1 in
            if second_ok x0 x1 then
              match r1 with
              | b2 :: r2 =>
                  let x2 := Z_of_byte b2 in
                  if continuation x2
                  then ((x0 - 0xE0) * 4096 + (x1 - 0x80) * 64 + (x2 - 0x80))
                         :: utf8_decode r2
                  else 0xFFFD :: utf8_decode r1
              | [] => [0xFFFD]
              end
            else 0xFFFD :: utf8_decode r0
        | [] => [0xFFFD]
        end
      else if (0xF0 <=? x0) && (x0 <? 0xF5) then
        match r0 with
        | b1 :: r1 =>
            let x1 := Z_of_byte b1 in
            if second_ok x0 x1 then
              match r1 with
              | b2 :: r2 =>
                  let x2 := Z_of_byte b2 in
                  if continuation x2 then
                    match r2 with
                    | b3 :: r3 =>
                        let x3 := Z_of_byte b3 in
                        if continuation x3 then
                          let cp := (x0 - 0xF0) * 262144 + (x1 - 0x80) * 4096
                                    + (x2 - 0x80) * 64 + (x3 - 0x80) in
                          (0xD800 + (cp - 0x10000) / 1024)
                            :: (0xDC00 + (cp - 0x10000) mod 1024)
                            :: utf8_decode r3
                        else 0xFFFD :: utf8_decode r2
                    | [] => [0xFFFD]
                    end
                  else 0xFFFD :: utf8_decode r1
              | [] => [0xFFFD]
              end
            else 0xFFFD :: utf8_decode r0
        | [] => [0xFFFD]
        end
      else 0xFFFD :: utf8_decode r0
  end.

(** The code unit of a lower-case hexadecimal digit. *)
Definition hex_digit (n : Z) : Z := if n <? 10 then 48 + n else 87 + n.

Definition unhex (c : Z) : option Z :=
  if (48 <=? c) && (c <=? 57) then Some (c - 48)
  else if (97 <=? c) && (c <=? 102) then Some (c - 87)
  else if (65 <=? c) && (c <=? 70) then Some (c - 55)
  else None.

(** [buf.toString('hex')] *)
Fixpoint to_hex (buf : Buffer) : JsString :=
  match buf with
  | [] => []
  | b :: rest =>
      hex_digit (Z_of_byte b / 16) :: hex_digit (Z_of_byte b mod 16)
        :: to_hex rest
  end.

(** [Buffer.from(s, 'hex')]: decoding stops at the first pair that is not
    two hexadecimal digits. *)
Fixpoint from_hex (s : JsString) : Buffer :=
  match s with
  | h :: l :: rest =>
      match unhex h, unhex l with
      | Some a, Some b => byte_of_Z (16 * a + b) :: from_hex rest
      | _, _ => []
      end
  | _ => []
  end.

Definition colon : Z := 58.

(** [s.split(':')] *)
Fixpoint split (s : JsString) : list JsString :=
  match s with
  | [] => [[]]
  | c :: rest =>
      if c =? colon then [] :: split rest
      else
        match split rest with
        | field :: fields => (c :: field) :: fields
        | [] => [[c]]
        end
  end.

(** The [aes-256-gcm] cipher of the runtime's crypto module: [seal] gives the
    ciphertext and the authentication tag, [open] gives the plaintext back
    or fails (the decipher throws). *)
Class AesGcm := {
  seal : Buffer -> Buffer -> Buffer -> Buffer * Buffer;
  open : Buffer -> Buffer -> Buffer -> Buffer -> option Buffer;
  open_seal : forall key iv plaintext,
    open key iv (snd (seal key iv plaintext)) (fst (seal key iv plaintext))
    = Some plaintext
}.

Section Methods.
Context {cipher : AesGcm}.

(** [encrypt(text)], with the result of [randomBytes(16)] as [iv]. *)
Definition encrypt (encryptionKey : option Buffer) (iv : Buffer)
    (text : JsString) : Outcome JsString :=
  match encryptionKey with
  | None => Thrown (Error "Encryption service not initialized")
  | Some key =>
      let sealed := seal key iv (utf8_encode text) in
      let encrypted := to_hex (fst sealed) in
      let authTag := snd sealed in
      Returned (to_hex iv ++ [colon] ++ to_hex authTag ++ [colon] ++ encrypted)
  end.

Definition decrypt (encryptionKey : option Buffer) (encryptedData : JsString)
  : Outcome JsString :=
  match encryptionKey with
  | None => Thrown (Error "Encryption service not initialized")
  | Some key =>
      match split encryptedData with
      | ivHex :: authTagHex :: encryptedText :: _ =>
          let iv := from_hex ivHex in
          let authTag := from_hex authTagHex in
          match open key iv authTag (from_hex encryptedText) with
          | Some decrypted => Returned (utf8_decode decrypted)
          | None =>
              Thrown (Error "Unsupported state or unable to authenticate data")
          end
      | _ =>
          Thrown (Error "The first argument must be of type string")
      end
  end.

End Methods.

(** A stand-in cipher for running the service: the ciphertext is the
    plaintext reversed, the tag is the nonce, and opening does not look at
    the tag. *)
Definition toy_cipher : AesGcm := {|
  seal key iv plaintext := (rev plaintext, iv);
  open key iv tag ciphertext := Some (rev ciphertext);
  open_seal key iv plaintext := f_equal Some (rev_involutive plaintext)
|}.

(** A key, a nonce, and a text with a two-byte, a three-byte and a
    four-byte character. *)
Definition a_key : Buffer := repeat Byte.x2a 32.
Definition an_iv : Buffer := repeat Byte.x07 16.
Definition a_token : JsString := [116; 111; 107; 233; 0x20AC; 0xD83D; 0xDE00].

End Encryption.

(** ** Vocabulary for statements about the monitors *)

Module Order.
Import Monitor.

(** The place in the executor's order of the action that an event attempts:
    follow-back, favourite, reblog, quote, reply. Generating the text of a
    quote or a reply counts as attempting it. *)
Definition action_rank (e : Event) : option nat :=
  match e with
  | EvRequest (Follow _) => Some 0%nat
  | EvRequest (Favourite _) => Some 1%nat
  | EvRequest (Reblog _) => Some 2%nat
  | EvRequest (QuoteStatus _ _) => Some 3%nat
  | EvRequest (ReplyStatus _ _) => Some 4%nat
  | EvGenerateContent action _ =>
      if String.eqb action "QUOTE" then Some 3%nat
      else if String.eqb action "REPLY" then Some 4%nat
      else None
  | _ => None
  end.

Definition attempts (tr : list Event) : list nat := omap action_rank tr.

(** Since [base], the attempts are in order and none is beyond place [k]. *)
Definition ordered_upto (base : list Event) (k : nat) (s : State) : Prop :=
  exists new, trace s = base ++ new
    /\ Sorted le (attempts new) /\ Forall (fun r => (r <= k)%nat) (attempts new).

Definition hoare {A} (P : State -> Prop) (m : M State A) (Q : State -> Prop) :=
  forall s, P s -> Q (snd (m s)).

End Order.

Module Ledger.
Import Monitor.

(** The notifications for which the action executor was entered, in order. *)
Definition executed (tr : list Event) : list string :=
  omap (fun e => match e with
                 | EvExecuteNotificationActions n => Some n
                 | _ => None
                 end) tr.

(** From [s] to [s'] the processing flag and the watermarks are unchanged,
    and the processed set and the message store have only grown, by ids in
    [T]. *)
Definition bounded (env : Env) (T : gset string) (s s' : State) : Prop :=
  isProcessing s' = isProcessing s /\
  lastCheckedPosts s' = lastCheckedPosts s /\
  processedItems s ⊆ processedItems s' /\
  processedItems s' ⊆ processedItems s ∪ T /\
  memories s ⊆ memories s' /\
  memories s' ⊆ memories s ∪ set_map (memoryId env) T.

Definition no_exec (s s' : State) : Prop :=
  executed (trace s') = executed (trace s).

(** Every request settles. *)
Definition answering (env : Env) : Prop :=
  forall k c, request env k c <> OutOfFuel.

(** Every action decision is delivered. *)
Definition deciding (env : Env) : Prop :=
  forall k item, exists a, decided env k item = Returned a.

(** Every request and every action decision settles. *)
Definition settling (env : Env) : Prop :=
  answering env /\ (forall k item, decided env k item <> OutOfFuel).

Definition ids_of (posts : list TruthSocialPost) : gset string :=
  list_to_set (post_id <$> posts).

Definition is_creation (e : Event) : bool :=
  match e with EvCreateMemory _ => true | _ => false end.

(** From [s] to [s'] nothing happened but memories being created. *)
Definition stored_only (s s' : State) : Prop :=
  (exists l, trace s' = trace s ++ l
             /\ Forall (fun e => is_creation e = true) l) /\
  memories s ⊆ memories s' /\
  lastCheckedPosts s' = lastCheckedPosts s /\
  isProcessing s' = isProcessing s.


(** The ids under which handling a notification may record something. *)
Definition touched (n : TruthSocialNotification) : gset string :=
  {[notification_id n]} ∪
  match notification_status n with
  | Some p => {[post_id p; post_id p +:+ "-quote"; post_id p +:+ "-reply"]}
  | None => ∅
  end.

(** No notification has the id of something recorded for an earlier one. *)
Fixpoint apart (ns : list TruthSocialNotification) : Prop :=
  match ns with
  | [] => True
  | n :: rest =>
      (forall m, m ∈ rest -> notification_id m ∉ touched n) /\ apart rest
  end.

(** Neither in the processed set nor in the message store. *)
Definition unseen (env : Env) (s : State) (n : TruthSocialNotification)
  : Prop :=
  (notification_id n ∉ processedItems s) /\
  (memoryId env (notification_id n) ∉ memories s).

End Ledger.

(** ** Concrete items and environments *)

Module Examples.
Import Monitor.

(** A 404 whose body carries the group-not-found code. *)
Definition group_error : JsError :=
  {| err_message := Some "Record not found";
     err_response := Some (mkErrResponse 404 (Some "GROUP_NOT_FOUND")) |}.

Definition all_actions : TruthSocialActionResponse :=
  mkActions true true true true true.

Definition a_post : TruthSocialPost := mkPost "109" "hello" [].

Definition idle : State := mkState false ∅ ∅ ∅ None ∅ 0 0 0 0 [].

(** Every request succeeds except the reblog, which is refused as
    group-restricted; text generation always yields a text. *)
Definition env_group : Env := {|
  agentId := "agent";
  TRUTHSOCIAL_TARGET_USERS := ["alice"];
  TRUTHSOCIAL_PROCESS_IMAGES := false;
  request := fun _ c =>
    match c with
    | Reblog _ => Thrown group_error
    | _ => Returned JOther
    end;
  generated := fun _ action _ => Some ("my " +:+ action);
  decided := fun _ _ => Returned all_actions;
  processed := fun _ content => (content, false)
|}.

(** Every request succeeds. *)
Definition env_calm : Env := {|
  agentId := "agent";
  TRUTHSOCIAL_TARGET_USERS := ["alice"];
  TRUTHSOCIAL_PROCESS_IMAGES := false;
  request := fun _ _ => Returned JOther;
  generated := fun _ action _ => Some ("my " +:+ action);
  decided := fun _ _ => Returned all_actions;
  processed := fun _ content => (content, false)
|}.

(** A follow notification that carries a status. *)
Definition a_follow : TruthSocialNotification :=
  mkNotification "n7" nt_follow (Some a_post) (mkAccount "acct9" "bob").

(** The account lookup succeeds and the timeline is [posts]. *)
Definition env_timeline (posts : list TruthSocialPost) : Env := {|
  agentId := "agent";
  TRUTHSOCIAL_TARGET_USERS := ["alice"];
  TRUTHSOCIAL_PROCESS_IMAGES := false;
  request := fun _ c =>
    match c with
    | LookupAccount _ => Returned (JAccount "42")
    | AccountStatuses _ => Returned (JPosts posts)
    | _ => Returned JOther
    end;
  generated := fun _ action _ => Some ("my " +:+ action);
  decided := fun _ _ => Returned all_actions;
  processed := fun _ content => (content, false)
|}.

(** alice has been polled before; her watermark is "5". *)
Definition watched : State :=
  mkState false ∅ {["alice" := "5"]} ∅ None ∅ 0 0 0 0 [].

Definition mention (id status_id : string) : TruthSocialNotification :=
  mkNotification id nt_mention (Some (mkPost status_id "hi" []))
                 (mkAccount "acct9" "bob").

Definition three_mentions : list TruthSocialNotification :=
  [mention "n3" "103"; mention "n2" "102"; mention "n1" "101"].

(** The notification feed holds three mentions, newest first. *)
Definition env_mentions : Env := {|
  agentId := "agent";
  TRUTHSOCIAL_TARGET_USERS := ["alice"];
  TRUTHSOCIAL_PROCESS_IMAGES := false;
  request := fun _ c =>
    match c with
    | GetNotifications => Returned (JNotifications three_mentions)
    | _ => Returned JOther
    end;
  generated := fun _ action _ => Some ("my " +:+ action);
  decided := fun _ _ => Returned all_actions;
  processed := fun _ content => (content, false)
|}.

(** The same feed, but composing the decision for "n2" throws. *)
Definition env_mentions_moody : Env := {|
  agentId := "agent";
  TRUTHSOCIAL_TARGET_USERS := ["alice"];
  TRUTHSOCIAL_PROCESS_IMAGES := false;
  request := fun _ c =>
    match c with
    | GetNotifications => Returned (JNotifications three_mentions)
    | _ => Returned JOther
    end;
  generated := fun _ action _ => Some ("my " +:+ action);
  decided := fun _ item =>
    if String.eqb item "n2" then Thrown (Error "database is locked")
    else Returned all_actions;
  processed := fun _ content => (content, false)
|}.

End Examples.

Module PostExamples.
Import Post.

Definition a_status : TruthSocialPostOptions :=
  mkOptions "first" None None [] (Some "public").

Definition another_status : TruthSocialPostOptions :=
  mkOptions "second" None None [] (Some "public").

(** Posting fails; the random source yields 0, 1/8, 2/8, ... *)
Definition env_post_down : Env := {|
  POST_IMMEDIATELY := false;
  POST_INTERVAL_MIN := 90;
  POST_INTERVAL_MAX := 180;
  created := fun _ _ => Thrown (Error "Request failed: 503");
  drafted := fun _ => Returned "fresh";
  random := fun k => Z.of_nat k * 2 ^ 50
|}.

(** The random source yields the double just below 1. *)
Definition env_top_draw : Env := {|
  POST_IMMEDIATELY := false;
  POST_INTERVAL_MIN := 90;
  POST_INTERVAL_MAX := 180;
  created := fun _ _ => Returned tt;
  drafted := fun _ => Returned "fresh";
  random := fun _ => 2 ^ 53 - 1
|}.

Definition posting (q : list TruthSocialPostOptions) : State :=
  mkState true q None 0 0 0 [].

Definition stopped : State := mkState false [] None 0 0 0 [].

Definition is_timer (e : Event) : bool :=
  match e with EvSetInterval _ => true | _ => false end.

End PostExamples.

(** ** Vocabulary and examples for further statements about the session *)

Module Session.
Import Base.

(** [ClientBase.cleanup()]; [browser] tells whether the static browser is
    set. The registry of clients is left as it is. *)
Definition cleanup (browser : bool) : M Session unit :=
  if browser then modify (set_token None) else ret tt.

(** The wait after the [j]-th failed login of [init], in milliseconds:
    [2^j] seconds up to the 21st; from the 22nd on [2^j * 1000] is above
    2^31 - 1 and the timer runs for 1 ms. *)
Definition wait_after (j : nat) : Z :=
  if (j <=? 21)%nat then 2 ^ Z.of_nat j * 1000 else 1.

(** The events of [n + 1] failing logins, the first of them being the
    [j]-th attempt: a login, and after each but the last a wait. *)
Fixpoint failed_attempts (j n : nat) : list Event :=
  match n with
  | O => [EvLogin]
  | S n' => EvLogin :: EvSleep (wait_after j) :: failed_attempts (S j) n'
  end.

(** Neither the transport nor the login exchange throws a value that has a
    [response] property. *)
Definition plain_failures (env : Env) : Prop :=
  (forall k req tok e,
     transport env k req tok = TransportThrows e -> err_response e = None) /\
  (forall k e t,
     login_result env k = LoginThrows e t -> err_response e = None).

(** No cached token, and the login exchange is refused every time. *)
Definition env_refused (limit : Z) : Env := {|
  TRUTHSOCIAL_USERNAME := "agent";
  TRUTHSOCIAL_RETRY_LIMIT := limit;
  cached_token := fun _ => None;
  probe_ok := fun _ _ => false;
  login_result := fun _ => LoginThrows (Error "Login failed: 403") None;
  transport := fun _ _ _ => Response 401 "{}";
  stringify := stringify_body
|}.

(** Every answer is 401 and every login succeeds. *)
Definition env_always_401 : Env := {|
  TRUTHSOCIAL_USERNAME := "agent";
  TRUTHSOCIAL_RETRY_LIMIT := 3;
  cached_token := fun _ => None;
  probe_ok := fun _ _ => false;
  login_result := fun _ => LoginOk "fresh";
  transport := fun _ _ _ => Response 401 "{}";
  stringify := stringify_body
|}.

(** Every answer is a 404 whose body names the group error. *)
Definition env_group_404 : Env := {|
  TRUTHSOCIAL_USERNAME := "agent";
  TRUTHSOCIAL_RETRY_LIMIT := 3;
  cached_token := fun _ => None;
  probe_ok := fun _ _ => false;
  login_result := fun _ => LoginOk "fresh";
  transport := fun _ _ _ => Response 404 "GROUP_NOT_FOUND";
  stringify := stringify_body
|}.

(** The user is called "constructor"; every login would succeed. *)
Definition env_constructor : Env := {|
  TRUTHSOCIAL_USERNAME := "constructor";
  TRUTHSOCIAL_RETRY_LIMIT := 3;
  cached_token := fun _ => None;
  probe_ok := fun _ _ => false;
  login_result := fun _ => LoginOk "fresh";
  transport := fun _ _ _ => Response 200 "{}";
  stringify := stringify_body
|}.

(** The client "agent" has been initialised and holds a token. *)
Definition registered : Session :=
  mkSession (Some "token") {["agent"]} 0 0 0 0 [].

End Session.

(** ** Vocabulary for the reach of the action executor *)

Module Guard.
Import Monitor.

(** The posts for which the action executor was entered, in order. *)
Definition handled (tr : list Event) : list string :=
  omap (fun e => match e with
                 | EvHandlePostActions p => Some p
                 | _ => None
                 end) tr.

(** From [s] to [s'] the executor was not entered, and the acted-on set and
    the message store are as they were. *)
Definition quiet (s s' : State) : Prop :=
  actedOnPosts s' = actedOnPosts s /\
  memories s' = memories s /\
  exists new, trace s' = trace s ++ new /\ handled new = [].

(** From [s] to [s'] the acted-on set and the message store have only
    grown, and the executor was entered only for posts that satisfy [P] and
    were neither acted on nor stored at [s]. *)
Definition guarded (env : Env) (P : string -> Prop) (s s' : State) : Prop :=
  actedOnPosts s ⊆ actedOnPosts s' /\
  memories s ⊆ memories s' /\
  exists new, trace s' = trace s ++ new /\
    Forall (fun id => P id /\ (id ∉ actedOnPosts s)
                      /\ (memoryId env id ∉ memories s)) (handled new).

(** The post is above the watermark that [s] holds for the user. *)
Definition above_watermark (s : State) (u id : string) : Prop :=
  exists last, lastCheckedPosts s !! u = Some last /\ truthy last = true
               /\ string_gt id last = true.

(** No error that a request throws has a [response] property. The errors
    of [ClientBase.makeAuthenticatedRequest] are of this kind. *)
Definition plain_requests (env : Env) : Prop :=
  forall k c e, request env k c = Thrown e -> err_response e = None.

(** Every request succeeds except the reblog, which the platform answers
    with a 404 whose body names the group error; the error is the one
    that [ClientBase.makeAuthenticatedRequest] builds for that answer. *)
Definition env_reblog_refused : Env := {|
  agentId := "agent";
  TRUTHSOCIAL_TARGET_USERS := ["alice"];
  TRUTHSOCIAL_PROCESS_IMAGES := false;
  request := fun _ c =>
    match c with
    | Reblog _ =>
        Thrown (Base.request_failed Session.env_group_404 404 "GROUP_NOT_FOUND")
    | _ => Returned JOther
    end;
  generated := fun _ action _ => Some ("my " +:+ action);
  decided := fun _ _ => Returned Examples.all_actions;
  processed := fun _ content => (content, false)
|}.

End Guard.

Module Store.
Import Monitor.

(** The message store is as it was. *)
Definition store_kept (s s' : State) : Prop := memories s' = memories s.

(** A follow notification without a status. *)
Definition bare_follow : TruthSocialNotification :=
  mkNotification "f1" nt_follow None (mkAccount "acct9" "bob").

End Store.

(** ** Vocabulary for the outbox *)

Module Outbox.
Import Post.

(** The entry that [generateAndQueuePost] queues for a cleaned text. *)
Definition drafted_entry (text : string) : TruthSocialPostOptions :=
  mkOptions text None None [] (Some "public").

(** The posts handed to [createPost], in order. *)
Definition attempted (tr : list Event) : list TruthSocialPostOptions :=
  omap (fun e => match e with EvCreatePost o => Some o | _ => None end) tr.

(** Posting at once is configured; posting fails. *)
Definition env_post_now : Env := {|
  POST_IMMEDIATELY := true;
  POST_INTERVAL_MIN := 90;
  POST_INTERVAL_MAX := 180;
  created := fun _ _ => Thrown (Error "Request failed: 503");
  drafted := fun _ => Returned "fresh";
  random := fun k => Z.of_nat k * 2 ^ 50
|}.

End Outbox.

(** ** Vocabulary for strings and stored tokens *)

Module Strings.
Import Encryption.

(** Every element is a UTF-16 code unit. *)
Definition code_units (s : JsString) : Prop :=
  Forall (fun c => 0 <= c <= 0xFFFF) s.

(** [String.prototype.toWellFormed]: each unpaired surrogate becomes
    U+FFFD. *)
Fixpoint toWellFormed (s : JsString) : JsString :=
  match s with
  | [] => []
  | c :: rest =>
      if is_high c then
        match rest with
        | d :: rest' =>
            if is_low d then c :: d :: toWellFormed rest'
            else 0xFFFD :: toWellFormed rest
        | [] => [0xFFFD]
        end
      else if is_low c then 0xFFFD :: toWellFormed rest
      else c :: toWellFormed rest
  end.

(** The number of colons in a string. *)
Fixpoint colons (s : JsString) : nat :=
  match s with
  | [] => O
  | c :: rest => if c =? colon then S (colons rest) else colons rest
  end.

Definition lower_hex (c : Z) : Prop := 48 <= c <= 57 \/ 97 <= c <= 102.

(** A stored value of three fields, [00:00:ff], and one of two, [00:00]. *)
Definition a_stored_value : JsString := [48; 48; 58; 48; 48; 58; 102; 102].
Definition a_short_value : JsString := [48; 48; 58; 48; 48].

End Strings.

(** ** Content processing (utils/content.ts) *)

Module Content.
Import Encryption.

(** The code units of an ASCII literal. *)
Definition str (s : string) : JsString :=
  (fun a => Z.of_N (Ascii.N_of_ascii a)) <$> String.list_ascii_of_string s.

(** The class [\s] of regular expressions, which is also what
    [String.prototype.trim] removes. *)
Definition is_ws (c : Z) : bool :=
  ((9 <=? c) && (c <=? 13)) || (c =? 0x20) || (c =? 0xA0) || (c =? 0x1680)
  || ((0x2000 <=? c) && (c <=? 0x200A)) || (c =? 0x2028) || (c =? 0x2029)
  || (c =? 0x202F) || (c =? 0x205F) || (c =? 0x3000) || (c =? 0xFEFF).

(** The class [[.,!?]]. *)
Definition is_punct (c : Z) : bool :=
  (c =? 46) || (c =? 44) || (c =? 33) || (c =? 63).

Definition is_digit (c : Z) : bool := (48 <=? c) && (c <=? 57).

Definition is_hex_digit (c : Z) : bool :=
  is_digit c || ((97 <=? c) && (c <=? 102)) || ((65 <=? c) && (c <=? 70)).

Definition digit_value (c : Z) : Z :=
  if is_digit c then c - 48
  else if (97 <=? c) && (c <=? 102) then c - 87
  else c - 55.

Fixpoint starts_with (p s : JsString) : bool :=
  match p, s with
  | [] , _ => true
  | a :: p', b :: s' => (a =? b) && starts_with p' s'
  | _ :: _, [] => false
  end.

(** The longest prefix whose code units are all in the class. *)
Fixpoint span (class : Z -> bool) (s : JsString) : JsString :=
  match s with
  | c :: rest => if class c then c :: span class rest else []
  | [] => []
  end.

(** [s.replace(/re/g, ...)] for a pattern that matches no empty string.
    [match_at s] says whether the pattern matches at the start of [s], and
    then gives the replacement and the number of code units matched;
    scanning resumes after the match, and [skip] counts the code units of
    the current match that are still to be passed over. *)
Fixpoint replace_from (match_at : JsString -> option (JsString * nat))
    (skip : nat) (s : JsString) : JsString :=
  match s with
  | [] => []
  | c :: rest =>
      match skip with
      | S k => replace_from match_at k rest
      | O =>
          match match_at s with
          | Some (out, n) => out ++ replace_from match_at (pred n) rest
          | None => c :: replace_from match_at O rest
          end
      end
  end.

Definition replace_all (match_at : JsString -> option (JsString * nat))
    (s : JsString) : JsString :=
  replace_from match_at O s.

(** A literal pattern. *)
Definition literal (p out : JsString) (s : JsString)
  : option (JsString * nat) :=
  if starts_with p s then Some (out, length p) else None.

(** [/<br\s*\/?>/] *)
Definition line_break (s : JsString) : option (JsString * nat) :=
  if starts_with (str "<br") s then
    let spaces := span is_ws (drop 3 s) in
    let after := drop (3 + length spaces) s in
    match after with
    | c :: after' =>
        if c =? 62 then Some ([10], (3 + length spaces + 1)%nat)
        else if c =? 47 then
          match after' with
          | d :: _ =>
              if d =? 62 then Some ([10], (3 + length spaces + 2)%nat)
              else None
          | [] => None
          end
        else None
    | [] => None
    end
  else None.

(** [parseInt(digits, radix)] on a non-empty run of digits of that radix. *)
Definition parse_digits (radix : Z) (digits : JsString) : Z :=
  foldl (fun acc c => acc * radix + digit_value c) 0 digits.

(** [String.fromCodePoint(n)] for an integer [n >= 0]. *)
Definition fromCodePoint (n : Z) : Outcome JsString :=
  if n <=? 0xFFFF then Returned [n]
  else if n <=? 0x10FFFF then
    Returned [0xD800 + (n - 0x10000) / 1024; 0xDC00 + (n - 0x10000) mod 1024]
  else Thrown (Error "Invalid code point").

(** [/&#x([0-9a-fA-F]+);/] and [/&#(\d+);/]: the digits and the length of
    the match. *)
Definition numeric_entity (prefix : JsString) (class : Z -> bool)
    (s : JsString) : option (JsString * nat) :=
  if starts_with prefix s then
    let digits := span class (drop (length prefix) s) in
    match digits, drop (length prefix + length digits) s with
    | _ :: _, c :: _ =>
        if c =? 59
        then Some (digits, (length prefix + length digits + 1)%nat)
        else None
    | _, _ => None
    end
  else None.

(** [s.replace(/&#...;/g, (match, digits) => String.fromCodePoint(parseInt(digits, radix)))];
    an exception of the callback ends the replacement. *)
Fixpoint decode_from (prefix : JsString) (class : Z -> bool) (radix : Z)
    (skip : nat) (s : JsString) : Outcome JsString :=
  match s with
  | [] => Returned []
  | c :: rest =>
      match skip with
      | S k => decode_from prefix class radix k rest
      | O =>
          match numeric_entity prefix class s with
          | Some (digits, n) =>
              match fromCodePoint (parse_digits radix digits) with
              | Returned out =>
                  match decode_from prefix class radix (pred n) rest with
                  | Returned tail => Returned (out ++ tail)
                  | failure => failure
                  end
              | failure => failure
              end
          | None =>
              match decode_from prefix class radix O rest with
              | Returned tail => Returned (c :: tail)
              | failure => failure
              end
          end
      end
  end.

Definition decode_entities (prefix : JsString) (class : Z -> bool)
    (radix : Z) (s : JsString) : Outcome JsString :=
  decode_from prefix class radix O s.

(** [/<[^>]*>/] *)
Definition tag (s : JsString) : option (JsString * nat) :=
  match s with
  | c :: rest =>
      if c =? 60 then
        let inside := span (fun c => negb (c =? 62)) rest in
        match drop (length inside) rest with
        | _ :: _ => Some ([], (length inside + 2)%nat)
        | [] => None
        end
      else None
  | [] => None
  end.

(** [/\s+/] with the replacement [' ']. *)
Definition spaces (s : JsString) : option (JsString * nat) :=
  match span is_ws s with
  | [] => None
  | run => Some ([32], length run)
  end.

(** The position after the last line feed of a run, if it has one. *)
Fixpoint after_last_newline (run : JsString) : option nat :=
  match run with
  | [] => None
  | c :: rest =>
      match after_last_newline rest with
      | Some n => Some (S n)
      | None => if c =? 10 then Some 1%nat else None
      end
  end.

Fixpoint newlines (run : JsString) : nat :=
  match run with
  | [] => O
  | c :: rest => if c =? 10 then S (newlines rest) else newlines rest
  end.

(** [/\n\s*\n\s*\n/] with the replacement ['\n\n']: a line feed followed by
    white space that holds two more line feeds, up to the last of them. *)
Definition blank_lines (s : JsString) : option (JsString * nat) :=
  match s with
  | c :: rest =>
      if c =? 10 then
        let run := span is_ws rest in
        if (2 <=? newlines run)%nat then
          match after_last_newline run with
          | Some n => Some ([10; 10], S n)
          | None => None
          end
        else None
      else None
  | [] => None
  end.

(** [/\s+([.,!?])/] with the replacement ['$1']. *)
Definition space_before_punct (s : JsString) : option (JsString * nat) :=
  match span is_ws s with
  | [] => None
  | run =>
      match drop (length run) s with
      | p :: _ => if is_punct p then Some ([p], S (length run)) else None
      | [] => None
      end
  end.

(** [/([.,!?])([^\s])/] with the replacement ['$1 $2']. *)
Definition punct_before_text (s : JsString) : option (JsString * nat) :=
  match s with
  | p :: c :: _ =>
      if is_punct p && negb (is_ws c) then Some ([p; 32; c], 2%nat) else None
  | _ => None
  end.

Fixpoint trim_start (s : JsString) : JsString :=
  match s with
  | c :: rest => if is_ws c then trim_start rest else s
  | [] => []
  end.

Fixpoint trim_end (s : JsString) : JsString :=
  match s with
  | [] => []
  | c :: rest =>
      match trim_end rest with
      | [] => if is_ws c then [] else [c]
      | kept => c :: kept
      end
  end.

(** [s.trim()] *)
Definition trim (s : JsString) : JsString := trim_end (trim_start s).

(** [!s?.trim()] for a string [s] *)
Definition blank (s : JsString) : bool :=
  match trim s with [] => true | _ => false end.

(** The replacements of [cleanPostContent] before the numeric entities. *)
Definition unescape (content : JsString) : JsString :=
  let s := replace_all (literal (str "<p>") []) content in
  let s := replace_all (literal (str "</p>") [10; 10]) s in
  let s := replace_all line_break s in
  let s := replace_all (literal (str "&amp;") (str "&")) s in
  let s := replace_all (literal (str "&lt;") (str "<")) s in
  let s := replace_all (literal (str "&gt;") (str ">")) s in
  let s := replace_all (literal (str "&quot;") [34]) s in
  let s := replace_all (literal (str "&#39;") (str "'")) s in
  let s := replace_all (literal (str "&nbsp;") (str " ")) s in
  let s := replace_all (literal (str "&mdash;") [0x2014]) s in
  let s := replace_all (literal (str "&ndash;") [0x2013]) s in
  replace_all (literal (str "&hellip;") (str "...")) s.

(** The replacements after them, and the trim. *)
Definition tidy_up (s : JsString) : JsString :=
  let s := replace_all tag s in
  let s := replace_all spaces s in
  let s := replace_all blank_lines s in
  let s := replace_all space_before_punct s in
  let s := replace_all punct_before_text s in
  trim s.

Definition cleanPostContent (content : JsString) : Outcome JsString :=
  match decode_entities (str "&#x") is_hex_digit 16 (unescape content) with
  | Returned s =>
      match decode_entities (str "&#") is_digit 10 s with
      | Returned s => Returned (tidy_up s)
      | failure => failure
      end
  | failure => failure
  end.

Definition MAX_POST_LENGTH : nat := 500.

(** [summarizeContent], given what [runtime.composeState] and
    [generateText] do when called. *)
Definition summarizeContent (composed : Outcome unit)
    (generated : Outcome JsString) (content : JsString)
  : Outcome (option JsString) :=
  if blank content then Returned None
  else
    match composed with
    | Thrown e => Thrown e
    | OutOfFuel => OutOfFuel
    | Returned _ =>
        match generated with
        | OutOfFuel => OutOfFuel
        | Thrown _ => Returned (Some content)
        | Returned summary =>
            if blank summary then Returned (Some content)
            else
              match cleanPostContent summary with
              | Returned cleanedSummary =>
                  if blank cleanedSummary then Returned (Some content)
                  else Returned (Some cleanedSummary)
              | Thrown _ => Returned (Some content)
              | OutOfFuel => OutOfFuel
              end
        end
    end.

(** [processContent]: the processed content and the [isSummarized] flag. *)
Definition processContent (composed : Outcome unit)
    (generated : Outcome JsString) (content : JsString)
  : Outcome (JsString * bool) :=
  if blank content then Returned ([], false)
  else
    match cleanPostContent content with
    | OutOfFuel => OutOfFuel
    | Thrown _ => Returned ([], false)
    | Returned cleanedContent =>
        if blank cleanedContent then Returned ([], false)
        else if (MAX_POST_LENGTH <? length cleanedContent)%nat then
          match summarizeContent composed generated cleanedContent with
          | OutOfFuel => OutOfFuel
          | Thrown _ => Returned ([], false)
          | Returned None => Returned (cleanedContent, false)
          | Returned (Some summary) =>
              if blank summary then Returned (cleanedContent, false)
              else Returned (summary, true)
          end
        else Returned (cleanedContent, false)
    end.

End Content.

Module Tidy.
Import Encryption Content.

(** White space occurs in [s] only as single spaces (U+0020), each followed
    by another code unit or by the end; [lead] says whether a space may come
    first. *)
Fixpoint single_spaced (lead : bool) (s : JsString) : bool :=
  match s with
  | [] => true
  | c :: rest =>
      if is_ws c then (c =? 32) && lead && single_spaced false rest
      else single_spaced true rest
  end.

Definition head_ws (s : JsString) : bool :=
  match s with c :: _ => is_ws c | [] => false end.

(** A paragraph in markup, and a plain text of 501 letters. *)
Definition a_paragraph : JsString :=
  str "<p>Hello   world !</p><p>Bye</p>".

Definition a_long_text : JsString := repeat 97 501.

End Tidy.

(** ** Starting and stopping the monitors (base-monitor.ts, search.ts,
       notifications.ts, index.ts) *)

Module Lifecycle.
Import Monitor.

Inductive ClientType := notifications | search.

(** A monitor instance: the fields of [State] and [checkInterval], the
    period of the armed check timer or null. *)
Record Client := mkClient {
  fields : State;
  checkInterval : option Z
}.

(** [TruthSocialClient]: its two monitors. *)
Record Manager := mkManager {
  searchClient : Client;
  notificationsClient : Client
}.

Definition on_fields {A} (m : M State A) : M Client A :=
  fun c =>
    (fst (m (fields c)), mkClient (snd (m (fields c))) (checkInterval c)).

Definition on_searchClient {A} (m : M Client A) : M Manager A :=
  fun t =>
    (fst (m (searchClient t)),
     mkManager (snd (m (searchClient t))) (notificationsClient t)).

Definition on_notificationsClient {A} (m : M Client A) : M Manager A :=
  fun t =>
    (fst (m (notificationsClient t)),
     mkManager (searchClient t) (snd (m (notificationsClient t)))).

Definition set_checkInterval (v : option Z) (c : Client) : Client :=
  mkClient (fields c) v.

(** [this.processedItems.clear()] *)
Definition clear_processedItems (c : Client) : Client :=
  mkClient
    (mkState (isProcessing (fields c)) ∅ (lastCheckedPosts (fields c))
       (actedOnPosts (fields c)) (lastCheckedNotificationId (fields c))
       (memories (fields c)) (requests (fields c)) (generations (fields c))
       (decisions (fields c)) (contents (fields c)) (trace (fields c)))
    (checkInterval c).

(** What the [cleanup] of the subclass clears after [super.cleanup()]:
    the watermarks and the acted-on set, or the last notification id. *)
Definition clear_own (clientType : ClientType) (c : Client) : Client :=
  match clientType with
  | search =>
      mkClient
        (mkState (isProcessing (fields c)) (processedItems (fields c)) ∅ ∅
           (lastCheckedNotificationId (fields c)) (memories (fields c))
           (requests (fields c)) (generations (fields c))
           (decisions (fields c)) (contents (fields c)) (trace (fields c)))
        (checkInterval c)
  | notifications =>
      mkClient
        (mkState (isProcessing (fields c)) (processedItems (fields c))
           (lastCheckedPosts (fields c)) (actedOnPosts (fields c)) None
           (memories (fields c)) (requests (fields c)) (generations (fields c))
           (decisions (fields c)) (contents (fields c)) (trace (fields c)))
        (checkInterval c)
  end.

(** The [RangeError] of a call for which the call stack has no room. *)
Definition stack_overflow : JsError :=
  Error "Maximum call stack size exceeded".

Inductive Method := m_stop | m_cleanup | m_base_cleanup.

Section Methods.
Variable env : Env.
Variable TRUTHSOCIAL_NOTIFICATION_CHECK_INTERVAL : Z.
Variable TRUTHSOCIAL_SEARCH_CHECK_INTERVAL : Z.

Definition checkItems (clientType : ClientType) : M State unit :=
  match clientType with
  | notifications => Notifications.checkItems env
  | search => Search.checkItems env
  end.

(** [BaseMonitorClient.start] *)
Definition start (clientType : ClientType) : M Client unit :=
  let intervalMinutes :=
    match clientType with
    | notifications => TRUTHSOCIAL_NOTIFICATION_CHECK_INTERVAL
    | search => TRUTHSOCIAL_SEARCH_CHECK_INTERVAL
    end in
  let checkIntervalMs := intervalMinutes * 60 * 1000 in
  on_fields (checkItems clientType) ;;;
  modify (set_checkInterval (Some (timer_delay checkIntervalMs))).

(** [stop], the [cleanup] of the subclass and [BaseMonitorClient.cleanup]
    call one another: [stop] calls [this.cleanup()], which calls
    [super.cleanup()], which calls [this.stop()]. Each makes its call before
    its first [await] suspends it, so the calls nest on the call stack.
    [stack] is the number of frames there is room for: a call for which
    there is none throws the RangeError into its caller, whose promise is
    rejected with it, and so is the promise of every caller in turn, none of
    them getting past its [await]. *)
Fixpoint call (stack : nat) (m : Method) (clientType : ClientType)
  : M Client unit :=
  match stack with
  | O => throw stack_overflow
  | S stack' =>
      match m with
      | m_stop =>
          (* clearInterval(this.checkInterval); this.checkInterval = null *)
          modify (set_checkInterval None) ;;;
          (* await this.cleanup() *)
          call stack' m_cleanup clientType
      | m_cleanup =>
          (* await super.cleanup() *)
          call stack' m_base_cleanup clientType ;;;
          modify (clear_own clientType)
      | m_base_cleanup =>
          (* await this.stop() *)
          call stack' m_stop clientType ;;;
          modify clear_processedItems
      end
  end.

(** [BaseMonitorClient.stop] *)
Definition stop (stack : nat) (clientType : ClientType) : M Client unit :=
  call stack m_stop clientType.

(** [BaseMonitorClient.cleanup] *)
Definition base_cleanup (stack : nat) (clientType : ClientType)
  : M Client unit :=
  call stack m_base_cleanup clientType.

(** [SearchClient.cleanup] and [NotificationsClient.cleanup] *)
Definition cleanup (stack : nat) (clientType : ClientType) : M Client unit :=
  call stack m_cleanup clientType.

(** [TruthSocialClient.start] and [TruthSocialClient.stop] *)
Definition manager_start : M Manager unit :=
  on_searchClient (start search) ;;;
  on_notificationsClient (start notifications).

Definition manager_stop (stack : nat) : M Manager unit :=
  on_searchClient (stop stack search) ;;;
  on_notificationsClient (stop stack notifications).

End Methods.
End Lifecycle.

(** ** Configuration (environment.ts) *)

Module Environment.
Import Encryption Content.

(** Where settings come from: [runtime.getSetting(key)], which gives the
    value or null, and [process.env[key]], which gives the value or
    undefined. *)
Record Sources := mkSources {
  getSetting : string -> option JsString;
  process_env : string -> option JsString
}.

(** [a || b] on values that are strings, null or undefined. *)
Definition or_else (a b : option JsString) : option JsString :=
  match a with
  | Some (_ :: _) => a
  | _ => b
  end.

(** [getSetting(key) || process.env[name]] *)
Definition setting (src : Sources) (key name : string) : option JsString :=
  or_else (getSetting src key) (process_env src name).

(** A number that is not NaN and has no fraction: a double that holds a
    whole number, or an infinity. The sign of a zero is not kept. *)
Inductive Number :=
| Finite (z : Z)
| Infinite (negative : bool).

(** The number for a whole number [n >= 0] and a sign: [n] rounded to the
    nearest double, or an infinity where that is beyond the doubles. *)
Definition to_number (negative : bool) (n : Z) : Number :=
  let r := round53 n in
  if r <? 2 ^ 1024 then Finite (if negative then - r else r)
  else Infinite negative.

(** [parseInt(s)] without a radix: [None] is NaN. *)
Definition parseInt (s : JsString) : option Number :=
  let s := trim_start s in
  let negative := match s with c :: _ => c =? 45 | [] => false end in
  let s := match s with
           | c :: rest => if (c =? 43) || (c =? 45) then rest else s
           | [] => s
           end in
  let hex := match s with
             | a :: b :: _ => (a =? 48) && ((b =? 120) || (b =? 88))
             | _ => false
             end in
  let digits := if hex then span is_hex_digit (drop 2 s) else span is_digit s in
  match digits with
  | [] => None
  | _ :: _ =>
      let n := parse_digits (if hex then 16 else 10) digits in
      Some (to_number negative n)
  end.

(** [parseInt(getSetting(key) || process.env[name] || fallback)] *)
Definition numeric (src : Sources) (key name : string) (fallback : string)
  : option Number :=
  parseInt (default (str fallback) (or_else (setting src key name) (Some (str fallback)))).

(** [getSetting(key) === "true" || process.env[name] === "true"] *)
Definition flag (src : Sources) (key name : string) : bool :=
  bool_decide (getSetting src key = Some (str "true"))
  || bool_decide (process_env src name = Some (str "true")).

(** [s.split(',')] *)
Fixpoint split_commas (s : JsString) : list JsString :=
  match s with
  | [] => [[]]
  | c :: rest =>
      if c =? 44 then [] :: split_commas rest
      else
        match split_commas rest with
        | field :: fields => (c :: field) :: fields
        | [] => [[c]]
        end
  end.

Record TruthSocialConfig := mkConfig {
  TRUTHSOCIAL_USERNAME : JsString;
  TRUTHSOCIAL_PASSWORD : JsString;
  TRUTHSOCIAL_RETRY_LIMIT : Number;
  POST_INTERVAL_MIN : Number;
  POST_INTERVAL_MAX : Number;
  POST_IMMEDIATELY : bool;
  MAX_POST_LENGTH : Number;
  TRUTHSOCIAL_TARGET_USERS : list JsString;
  TRUTHSOCIAL_PROCESS_IMAGES : bool;
  TRUTHSOCIAL_COOKIES : option JsString;
  TRUTHSOCIAL_AUTH_TOKEN : option JsString;
  TRUTHSOCIAL_NOTIFICATION_CHECK_INTERVAL : Number;
  TRUTHSOCIAL_SEARCH_CHECK_INTERVAL : Number
}.

(** The issues of the schema for one key. [z.string()] accepts a string;
    [z.number()] accepts a number that is not NaN (its default would apply
    to undefined only, which [parseInt] never gives). *)
Definition required_string (path : string) (v : option JsString)
  : list string :=
  match v with Some _ => [] | None => [path +:+ ": Required"] end.

Definition required_number (path : string) (v : option Number)
  : list string :=
  match v with
  | Some _ => []
  | None => [path +:+ ": Expected number, received nan"]
  end.

(** [TRUTHSOCIAL_TARGET_USERS]: the value handed to the schema is
    [getSetting(..) || process.env[..] || []], so a string that is not
    empty, or an array, which [z.string().optional()] refuses. *)
Definition target_users_issue (v : option JsString) : list string :=
  match v with
  | Some (_ :: _) => []
  | _ => ["TRUTHSOCIAL_TARGET_USERS: Expected string, received array"]
  end.

Fixpoint join_lines (lines : list string) : string :=
  match lines with
  | [] => EmptyString
  | [l] => l
  | l :: rest => l +:+ String (Ascii.ascii_of_nat 10) (join_lines rest)
  end.

Definition validateTruthSocialConfig (src : Sources)
  : Outcome TruthSocialConfig :=
  let username := setting src "TRUTHSOCIAL_USERNAME" "TRUTHSOCIAL_USERNAME" in
  let password := setting src "TRUTHSOCIAL_PASSWORD" "TRUTHSOCIAL_PASSWORD" in
  let retry_limit :=
    numeric src "TRUTHSOCIAL_RETRY_LIMIT" "TRUTHSOCIAL_RETRY_LIMIT" "3" in
  let interval_min :=
    numeric src "TRUTHSOCIAL_POST_INTERVAL_MIN" "TRUTHSOCIAL_POST_INTERVAL_MIN"
            "90" in
  let interval_max :=
    numeric src "TRUTHSOCIAL_POST_INTERVAL_MAX" "TRUTHSOCIAL_POST_INTERVAL_MAX"
            "180" in
  let immediately :=
    flag src "TRUTHSOCIAL_POST_IMMEDIATELY" "TRUTHSOCIAL_POST_IMMEDIATELY" in
  let max_length :=
    numeric src "TRUTHSOCIAL_MAX_POST_LENGTH" "TRUTHSOCIAL_MAX_POST_LENGTH"
            "3000" in
  let target_users :=
    setting src "TRUTHSOCIAL_TARGET_USERS" "TRUTHSOCIAL_TARGET_USERS" in
  let process_images :=
    flag src "TRUTHSOCIAL_PROCESS_IMAGES" "TRUTHSOCIAL_PROCESS_IMAGES" in
  let cookies := setting src "TRUTHSOCIAL_COOKIES" "TRUTHSOCIAL_COOKIES" in
  let auth_token :=
    setting src "TRUTHSOCIAL_AUTH_TOKEN" "TRUTHSOCIAL_AUTH_TOKEN" in
  let notification_interval :=
    numeric src "TRUTHSOCIAL_NOTIFICATION_CHECK_INTERVAL"
            "TRUTHSOCIAL_NOTIFICATION_CHECK_INTERVAL" "15" in
  let search_interval :=
    numeric src "TRUTHSOCIAL_SEARCH_CHECK_INTERVAL"
            "TRUTHSOCIAL_SEARCH_CHECK_INTERVAL" "15" in
  match username, password, retry_limit, interval_min, interval_max,
        max_length, target_users, notification_interval, search_interval with
  | Some u, Some p, Some rl, Some imin, Some imax, Some ml,
    Some (t :: ts), Some ni, Some si =>
      Returned
        (mkConfig u p rl imin imax immediately ml
           (trim <$> split_commas (t :: ts)) process_images cookies auth_token
           ni si)
  | _, _, _, _, _, _, _, _, _ =>
      Thrown
        (Error
           ("Truth Social configuration validation failed:"
            +:+ String (Ascii.ascii_of_nat 10)
                  (join_lines
                     (required_string "TRUTHSOCIAL_USERNAME" username
                      ++ required_string "TRUTHSOCIAL_PASSWORD" password
                      ++ required_number "TRUTHSOCIAL_RETRY_LIMIT" retry_limit
                      ++ required_number "POST_INTERVAL_MIN" interval_min
                      ++ required_number "POST_INTERVAL_MAX" interval_max
                      ++ required_number "MAX_POST_LENGTH" max_length
                      ++ target_users_issue target_users
                      ++ required_number
                           "TRUTHSOCIAL_NOTIFICATION_CHECK_INTERVAL"
                           notification_interval
                      ++ required_number "TRUTHSOCIAL_SEARCH_CHECK_INTERVAL"
                           search_interval))))
  end.

End Environment.

Module Acceptance.
Import Encryption Content Environment.

Definition given (src : Sources) (key : string) : option JsString :=
  setting src key key.

(** What [validateTruthSocialConfig] accepts: a user name and a password
    (possibly empty), a list of target users that is not the empty string,
    and, for every numeric setting that is given, a value that [parseInt]
    reads as a number. *)
Definition acceptable (src : Sources) : Prop :=
  is_Some (given src "TRUTHSOCIAL_USERNAME") /\
  is_Some (given src "TRUTHSOCIAL_PASSWORD") /\
  (exists t ts, given src "TRUTHSOCIAL_TARGET_USERS" = Some (t :: ts)) /\
  is_Some (numeric src "TRUTHSOCIAL_RETRY_LIMIT" "TRUTHSOCIAL_RETRY_LIMIT" "3") /\
  is_Some (numeric src "TRUTHSOCIAL_POST_INTERVAL_MIN"
             "TRUTHSOCIAL_POST_INTERVAL_MIN" "90") /\
  is_Some (numeric src "TRUTHSOCIAL_POST_INTERVAL_MAX"
             "TRUTHSOCIAL_POST_INTERVAL_MAX" "180") /\
  is_Some (numeric src "TRUTHSOCIAL_MAX_POST_LENGTH"
             "TRUTHSOCIAL_MAX_POST_LENGTH" "3000") /\
  is_Some (numeric src "TRUTHSOCIAL_NOTIFICATION_CHECK_INTERVAL"
             "TRUTHSOCIAL_NOTIFICATION_CHECK_INTERVAL" "15") /\
  is_Some (numeric src "TRUTHSOCIAL_SEARCH_CHECK_INTERVAL"
             "TRUTHSOCIAL_SEARCH_CHECK_INTERVAL" "15").

(** The number of commas in a string. *)
Fixpoint commas (s : JsString) : nat :=
  match s with
  | [] => O
  | c :: rest => if c =? 44 then S (commas rest) else commas rest
  end.

(** [fields.join(',')] *)
Fixpoint join_commas (fields : list JsString) : JsString :=
  match fields with
  | [] => []
  | [field] => field
  | field :: rest => field ++ 44 :: join_commas rest
  end.

(** Settings that name a user, a password and two target users; nothing
    comes from the process environment. *)
Definition some_settings : Sources := {|
  getSetting := fun key =>
    if String.eqb key "TRUTHSOCIAL_USERNAME" then Some (str "agent")
    else if String.eqb key "TRUTHSOCIAL_PASSWORD" then Some (str "secret")
    else if String.eqb key "TRUTHSOCIAL_TARGET_USERS"
         then Some (str "alice, bob ")
    else None;
  process_env := fun _ => None
|}.

Definition the_config : TruthSocialConfig :=
  mkConfig (str "agent") (str "secret") (Finite 3) (Finite 90) (Finite 180)
           false (Finite 3000) [str "alice"; str "bob"] false None None
           (Finite 15) (Finite 15).

End Acceptance.

(** * Properties *)

(** ** Session: re-login on 401 *)

Section SessionProperties.
Import Base.

Lemma makeAuthenticatedRequest_token env fuel req s tok :
  authToken s = Some tok -> truthy tok = true ->
  makeAuthenticatedRequest env (S fuel) req s =
  match transport env (fetches s) req tok with
  | TransportThrows e =>
      (Thrown e, emit (EvFetch req)
         (mkSession (authToken s) (clients s) (cache_reads s) (probes s)
                    (logins s) (S (fetches s)) (events s)))
  | Response status data =>
      let s1 := emit (EvFetch req)
         (mkSession (authToken s) (clients s) (cache_reads s) (probes s)
                    (logins s) (S (fetches s)) (events s)) in
      if negb (ok status) then
        if status =? 401 then
          match login env s1 with
          | (Returned _, s2) => makeAuthenticatedRequest env fuel req s2
          | (Thrown e, s2) => (Thrown e, s2)
          | (OutOfFuel, s2) => (OutOfFuel, s2)
          end
        else (Thrown (request_failed env status data), s1)
      else (Returned data, s1)
  end.
Proof.
  intros Htok Htruthy. cbn [makeAuthenticatedRequest].
  unfold bind at 1. unfold get at 1. unfold bind at 1.
  rewrite Htok. cbn [truthy_opt]. rewrite Htruthy. unfold ret at 1.
  unfold try_catch, bind at 1, fetch. rewrite Htok. cbn [default from_option id].
  destruct (transport env (fetches s) req tok) as [status data|e]; [|reflexivity].
  destruct (negb (ok status)); [|reflexivity].
  destruct (status =? 401); [|reflexivity].
  unfold bind. destruct (login env _) as [[a|e|] s2]; [|reflexivity..].
  destruct (makeAuthenticatedRequest env fuel req s2) as [[a'|e'|] s3]; reflexivity.
Qed.

(** C1, as the code has it. A request answered 401 makes the client run
    [login] and issue the same request again, and the retried request is
    handled like the first one: after [k] answers 401, each followed by a
    successful login, and then an answer other than 401, [login] has run [k]
    times, the request has been issued [k + 1] times, and the caller gets
    the outcome of the last answer. There is no bound on [k]. *)
Theorem relogin_on_every_401 env req (tokens : nat -> string) (k : nat) :
  forall (fuel : nat) (s : Session),
  authToken s = Some (tokens O) ->
  (forall i, (i <= k)%nat -> truthy (tokens i) = true) ->
  (forall i, (i < k)%nat ->
     is_401 (transport env (fetches s + i) req (tokens i)) = true) ->
  (forall i, (i < k)%nat ->
     login_result env (logins s + i) = LoginOk (tokens (S i))) ->
  is_401 (transport env (fetches s + k) req (tokens k)) = false ->
  (k < fuel)%nat ->
  makeAuthenticatedRequest env fuel req s =
    (settle env (transport env (fetches s + k) req (tokens k)),
     mkSession (Some (tokens k)) (clients s) (cache_reads s) (probes s)
               (logins s + k) (fetches s + k + 1)
               (events s ++ retry_events req k)).
Proof.
  revert tokens.
  induction k as [|k IH];
    intros tokens fuel s Htok Htruthy H401 Hlogin Hfinal Hfuel.
  - destruct fuel as [|fuel]; [lia|].
    rewrite (makeAuthenticatedRequest_token _ _ _ _ _ Htok) by (apply Htruthy; lia).
    rewrite !Nat.add_0_r in *.
    destruct (transport env (fetches s) req (tokens 0%nat)) as [status data|e];
      cbn in *.
    + unfold emit; cbn. rewrite Nat.add_1_r, Htok.
      destruct (ok status) eqn:Hok; cbn; [reflexivity|].
      now rewrite Hfinal.
    + unfold emit; cbn. now rewrite Nat.add_1_r, Htok.
  - destruct fuel as [|fuel]; [lia|].
    rewrite (makeAuthenticatedRequest_token _ _ _ _ _ Htok) by (apply Htruthy; lia).
    pose proof (H401 O ltac:(lia)) as H0. rewrite Nat.add_0_r in H0.
    destruct (transport env (fetches s) req (tokens 0%nat)) as [status data|e];
      cbn in H0; [|discriminate].
    apply Z.eqb_eq in H0. subst status.
    cbn [ok negb andb Z.leb Z.compare Pos.compare Pos.compare_cont Z.eqb Pos.eqb].
    cbv zeta. unfold login.
    cbn [logins emit authToken clients cache_reads probes fetches events].
    pose proof (Hlogin O ltac:(lia)) as HL. rewrite Nat.add_0_r in HL.
    rewrite HL. rewrite (Htruthy 1%nat) by lia.
    rewrite (IH (fun i => tokens (S i)));
      cbn [logins emit authToken clients cache_reads probes fetches events].
    + replace (S (fetches s) + k)%nat with (fetches s + S k)%nat by lia.
      replace (S (logins s) + k)%nat with (logins s + S k)%nat by lia.
      rewrite <- !app_assoc. reflexivity.
    + reflexivity.
    + intros i Hi. apply Htruthy. lia.
    + intros i Hi.
      replace (S (fetches s) + i)%nat with (fetches s + S i)%nat by lia.
      apply H401. lia.
    + intros i Hi.
      replace (S (logins s) + i)%nat with (logins s + S i)%nat by lia.
      apply Hlogin. lia.
    + replace (S (fetches s) + k)%nat with (fetches s + S k)%nat by lia.
      exact Hfinal.
    + lia.
Qed.

(** Two answers 401 and then 200: two logins, three requests, the body of
    the third answer. *)
Lemma relogin_on_every_401_witness :
  makeAuthenticatedRequest env_two_401 3 a_request active_session =
    (Returned "done",
     mkSession (Some "fresh") ∅ 0 0 2 3
       [EvFetch a_request; EvLogin; EvFetch a_request; EvLogin;
        EvFetch a_request]).
Proof.
  apply (relogin_on_every_401 env_two_401 a_request tokens_two_401 2 3
                              active_session).
  - reflexivity.
  - intros [|[|[|i]]] Hi; [reflexivity..|lia].
  - intros [|[|i]] Hi; [reflexivity..|lia].
  - intros [|[|i]] Hi; [reflexivity..|lia].
  - reflexivity.
  - lia.
Defined.

(** C1 as stated fails: when the retried request is answered 401 as well, no
    error reaches the caller; the client logs in a second time and issues the
    request a third time. *)
Lemma second_401_is_retried_again :
  let r := makeAuthenticatedRequest env_two_401 3 a_request active_session in
  fst r = Returned "done" /\ logins (snd r) = 2%nat /\ fetches (snd r) = 3%nat.
Proof. vm_compute. auto. Qed.

(** While every answer is 401 and every login succeeds the request never
    settles, whatever the fuel. *)
Lemma persistent_401_never_settles env req :
  (forall k tok, is_401 (transport env k req tok) = true) ->
  (forall k, exists t, login_result env k = LoginOk t /\ truthy t = true) ->
  forall fuel s,
    truthy_opt (authToken s) = true ->
    fst (makeAuthenticatedRequest env fuel req s) = OutOfFuel.
Proof.
  intros H401 Hlogin. induction fuel as [|fuel IH]; intros s Htok.
  - reflexivity.
  - destruct (authToken s) as [tok|] eqn:Hs; [|discriminate].
    cbn in Htok. rewrite (makeAuthenticatedRequest_token _ _ _ _ _ Hs Htok).
    specialize (H401 (fetches s) tok).
    destruct (transport env (fetches s) req tok) as [status data|e];
      cbn in H401; [|discriminate].
    apply Z.eqb_eq in H401. subst status.
    cbn [ok negb andb Z.leb Z.compare Pos.compare Pos.compare_cont Z.eqb Pos.eqb].
    cbv zeta. unfold login.
    cbn [logins emit authToken clients cache_reads probes fetches events].
    destruct (Hlogin (logins s)) as (t & -> & Ht). rewrite Ht.
    apply IH. cbn. exact Ht.
Qed.

(** ** Session: login retries and backoff *)

Lemma login_failure env s :
  login_fails env (logins s) = true ->
  exists e tok,
    login env s =
      (Thrown e,
       mkSession tok (clients s) (cache_reads s) (probes s) (S (logins s))
                 (fetches s) (events s ++ [EvLogin])).
Proof.
  unfold login_fails, login.
  destruct (login_result env (logins s)) as [t|e [t|]].
  - intros H. apply negb_true_iff in H. rewrite H. eauto.
  - eauto.
  - eauto.
Qed.

Lemma init_loop_failure env fuel retries s :
  0 < retries ->
  login_fails env (logins s) = true ->
  exists tok,
    let s1 := mkSession tok (clients s) (cache_reads s) (probes s)
                        (S (logins s)) (fetches s) (events s ++ [EvLogin]) in
    init_loop env (S fuel) retries s =
      if retries - 1 =? 0 then
        (Thrown (Error "Truth Social login failed after maximum retries"), s1)
      else
        init_loop env fuel (retries - 1)
          (emit (EvSleep (timer_delay
                            (backoff_delay
                               (TRUTHSOCIAL_RETRY_LIMIT env - (retries - 1)))))
                s1).
Proof.
  intros Hpos Hfail. destruct (login_failure env s Hfail) as (e & tok & Hlogin).
  exists tok. cbv zeta. cbn [init_loop].
  apply Z.ltb_lt in Hpos. rewrite Hpos, Hlogin.
  destruct (retries - 1 =? 0); reflexivity.
Qed.

(** With [n + 1] attempts left that all fail, the loop throws after the
    last one; a loop of [n + 1] iterations needs no more fuel than that. *)
Lemma init_loop_exhausts env (n : nat) :
  forall (fuel : nat) (s : Session),
  (forall i, (i <= n)%nat -> login_fails env (logins s + i) = true) ->
  (n < fuel)%nat ->
  exists s',
    init_loop env fuel (Z.of_nat (S n)) s =
      (Thrown (Error "Truth Social login failed after maximum retries"), s')
    /\ logins s' = (logins s + S n)%nat
    /\ events s' = events s ++ backoff_events (TRUTHSOCIAL_RETRY_LIMIT env) n.
Proof.
  induction n as [|n IH]; intros fuel s Hfail Hfuel.
  - destruct fuel as [|fuel]; [lia|].
    destruct (init_loop_failure env fuel 1 s) as (tok & Heq); [lia| |].
    { specialize (Hfail 0%nat). rewrite Nat.add_0_r in Hfail. apply Hfail. lia. }
    cbv zeta in Heq. change (1 - 1 =? 0) with true in Heq. cbv iota in Heq.
    eexists. split; [exact Heq|]. cbn. split; [lia|reflexivity].
  - destruct fuel as [|fuel]; [lia|].
    destruct (init_loop_failure env fuel (Z.of_nat (S (S n))) s) as (tok & Heq);
      [lia| |].
    { specialize (Hfail 0%nat). rewrite Nat.add_0_r in Hfail. apply Hfail. lia. }
    cbv zeta in Heq.
    replace (Z.of_nat (S (S n)) - 1) with (Z.of_nat (S n)) in Heq by lia.
    destruct (Z.of_nat (S n) =? 0) eqn:Hz; [apply Z.eqb_eq in Hz; lia|].
    match type of Heq with _ = init_loop _ _ _ ?s1 =>
      destruct (IH fuel s1) as (s' & Hs' & Hl & He) end.
    + intros i Hi. cbn [logins emit].
      replace (S (logins s) + i)%nat with (logins s + S i)%nat by lia.
      apply Hfail. lia.
    + lia.
    + exists s'. split; [by rewrite Heq|]. cbn [logins emit events] in *.
      split; [lia|]. rewrite He. rewrite <- !app_assoc. reflexivity.
Qed.

(** C7. With a retry limit of 3, a user name that the lookup in the
    registry of clients finds nothing for, no usable cached session and three
    failing logins, [init] logs in, waits 2000 ms, logs in, waits 4000 ms,
    logs in a third time and throws the exhaustion error with no further
    wait. *)
Theorem init_backoff_schedule env s fuel :
  TRUTHSOCIAL_RETRY_LIMIT env = 3 ->
  has_client s (TRUTHSOCIAL_USERNAME env) = false ->
  cached_session_valid env s = false ->
  (forall i, (i < 3)%nat -> login_fails env (logins s + i) = true) ->
  (3 <= fuel)%nat ->
  exists s',
    init env fuel s =
      (Thrown (Error "Truth Social login failed after maximum retries"), s')
    /\ logins s' = (logins s + 3)%nat
    /\ events s' =
         events s ++ cache_events env s
           ++ [EvLogin; EvSleep 2000; EvLogin; EvSleep 4000; EvLogin].
Proof.
  intros Hlimit Hnew Hcache Hfail Hfuel.
  unfold init. unfold bind at 1, get at 1.
  rewrite Hnew.
  unfold bind at 1, getCachedToken at 1.
  unfold cached_session_valid, cache_events in *.
  assert (Hloop : forall s2, logins s2 = logins s ->
    exists s', init_loop env fuel (TRUTHSOCIAL_RETRY_LIMIT env) s2 =
      (Thrown (Error "Truth Social login failed after maximum retries"), s')
      /\ logins s' = (logins s + 3)%nat
      /\ events s' =
           events s2 ++ [EvLogin; EvSleep 2000; EvLogin; EvSleep 4000; EvLogin]).
  { intros s2 Hs2.
    destruct (init_loop_exhausts env 2 fuel s2) as (s' & Hs' & Hl & He).
    - intros i Hi. rewrite Hs2. apply Hfail. lia.
    - lia.
    - exists s'. rewrite Hlimit in *. split; [exact Hs'|]. split; [lia|exact He]. }
  destruct (truthy_opt (cached_token env (cache_reads s))) eqn:Hc.
  - cbn in Hcache.
    unfold bind at 1. unfold bind at 1, modify at 1.
    unfold bind at 1, validateSession.
    cbn [set_token authToken emit]. rewrite Hc.
    cbn [probes set_token emit authToken].
    rewrite Hcache. unfold ret at 1.
    match goal with |- context [init_loop _ _ _ ?x] =>
      destruct (Hloop x) as (s' & Hs' & Hl & He); [reflexivity|] end.
    exists s'. split; [exact Hs'|]. split; [exact Hl|].
    rewrite He. cbn. rewrite <- !app_assoc. reflexivity.
  - unfold bind at 1, ret at 1.
    match goal with |- context [init_loop _ _ _ ?x] =>
      destruct (Hloop x) as (s' & Hs' & Hl & He); [reflexivity|] end.
    exists s'. split; [exact Hs'|]. split; [exact Hl|].
    rewrite He. cbn. rewrite <- !app_assoc. reflexivity.
Qed.

Lemma init_backoff_schedule_witness :
  exists s',
    init env_login_down 3 fresh_session =
      (Thrown (Error "Truth Social login failed after maximum retries"), s')
    /\ logins s' = 3%nat
    /\ events s' =
         [EvCacheRead; EvLogin; EvSleep 2000; EvLogin; EvSleep 4000; EvLogin].
Proof.
  apply (init_backoff_schedule env_login_down fresh_session 3).
  - reflexivity.
  - reflexivity.
  - reflexivity.
  - intros i Hi. reflexivity.
  - lia.
Defined.

End SessionProperties.

(** ** Action executor: group restriction *)

Section GroupRestriction.
Import Monitor Examples.

(** [SearchClient.handlePostActions] gates on the classified failure: after
    a successful favourite and a reblog refused as group-restricted, nothing
    else is attempted and FAVOURITE is reported. *)
Lemma search_group_restriction_gates env post acts s j e :
  favourite acts = true -> reblog acts = true ->
  request env (requests s) (Favourite (post_id post)) = Returned j ->
  request env (S (requests s)) (Reblog (post_id post)) = Thrown e ->
  isGroupError e = true ->
  let r := Search.handlePostActions env post acts s in
  fst r = Returned ["FAVOURITE"] /\
  trace (snd r) =
    trace s ++ [EvHandlePostActions (post_id post);
                EvRequest (Favourite (post_id post));
                EvRequest (Reblog (post_id post))].
Proof.
  intros Hf Hr Hfav Hreb Hgroup.
  unfold Search.handlePostActions, bind, modify, try_catch, ret,
    makeAuthenticatedRequest.
  rewrite Hf, Hr. cbn [requests emit next_request fst snd]. rewrite Hfav.
  cbn [requests emit next_request fst snd negb andb]. rewrite Hreb.
  cbn [fst snd orb]. rewrite Hgroup. cbn.
  rewrite <- !app_assoc. auto.
Qed.

(** So does [ClientBase.handlePostActions]. *)
Lemma base_group_restriction_gates env post acts s j e :
  favourite acts = true -> reblog acts = true ->
  request env (requests s) (Favourite (post_id post)) = Returned j ->
  request env (S (requests s)) (Reblog (post_id post)) = Thrown e ->
  isGroupError e = true ->
  let r := BaseActions.handlePostActions env post acts s in
  fst r = Returned ["FAVOURITE"] /\
  trace (snd r) =
    trace s ++ [EvHandlePostActions (post_id post);
                EvRequest (Favourite (post_id post));
                EvRequest (Reblog (post_id post))].
Proof.
  intros Hf Hr Hfav Hreb Hgroup.
  unfold BaseActions.handlePostActions, bind, modify, try_catch, ret,
    makeAuthenticatedRequest.
  rewrite Hf, Hr. cbn [requests emit next_request fst snd]. rewrite Hfav.
  cbn [requests emit next_request fst snd negb andb]. rewrite Hreb.
  cbn [fst snd orb]. rewrite Hgroup. cbn.
  rewrite <- !app_assoc. auto.
Qed.

(** C2 on [BaseMonitorClient.handlePostActions], the executor of the
    notification feed: with all four actions requested, the favourite
    succeeding and the reblog refused with a 404 group-not-found error, the
    quote and the reply are generated and posted all the same, and are
    reported next to FAVOURITE. *)
Theorem monitor_group_restriction_not_gated :
  isGroupError group_error = true /\
  let r := Monitor.handlePostActions env_group a_post all_actions idle in
  fst r = Returned ["FAVOURITE"; "QUOTE"; "REPLY"] /\
  trace (snd r) =
    [EvHandlePostActions "109"; EvCreateMemory "109-agent";
     EvRequest (Favourite "109"); EvRequest (Reblog "109");
     EvGenerateContent "QUOTE" "109";
     EvRequest (QuoteStatus "my QUOTE" "109");
     EvCreateMemory "109-quote-agent";
     EvGenerateContent "REPLY" "109";
     EvRequest (ReplyStatus "my REPLY" "109");
     EvCreateMemory "109-reply-agent"].
Proof. vm_compute. auto. Qed.

(** The classifier is applied to an empty object there, which it never
    accepts. *)
Lemma empty_object_not_group_error : isGroupError empty_object = false.
Proof. reflexivity. Qed.

(** The errors that [makeAuthenticatedRequest] builds for failed responses
    carry no [response] property, so the classifier rejects them whatever
    the status and the body. *)
Lemma request_failed_not_group_error env status data :
  isGroupError (Base.request_failed env status data) = false.
Proof. reflexivity. Qed.

End GroupRestriction.

(** ** Action executor: order of the actions *)

Section ActionOrder.
Import Monitor Order Examples.

Lemma hoare_bind {A B} (P Q R : State -> Prop)
    (m : M State A) (k : A -> M State B) :
  hoare P m Q -> (forall a, hoare Q (k a) R) -> (forall s, Q s -> R s) ->
  hoare P (bind m k) R.
Proof.
  intros Hm Hk HQR s HP. specialize (Hm s HP). unfold bind.
  destruct (m s) as [[a|e|] s1]; cbn in *; auto. now apply Hk.
Qed.

Lemma hoare_try {A} (P Q R : State -> Prop)
    (m : M State A) (h : JsError -> M State A) :
  hoare P m Q -> (forall e, hoare Q (h e) R) -> (forall s, Q s -> R s) ->
  hoare P (try_catch m h) R.
Proof.
  intros Hm Hh HQR s HP. specialize (Hm s HP). unfold try_catch.
  destruct (m s) as [[a|e|] s1]; cbn in *; auto. now apply Hh.
Qed.

Lemma hoare_ret {A} (P Q : State -> Prop) (a : A) :
  (forall s, P s -> Q s) -> hoare P (ret a) Q.
Proof. intros H s HP. now apply H. Qed.

Lemma ordered_mono base k k' s :
  (k <= k')%nat -> ordered_upto base k s -> ordered_upto base k' s.
Proof.
  intros Hk (new & Ht & Hs & Hf). exists new. repeat split; auto.
  eapply Forall_impl; [exact Hf|]. cbn. intros; lia.
Qed.

Lemma Sorted_snoc (l : list nat) (k r : nat) :
  Sorted le l -> Forall (fun x => (x <= k)%nat) l -> (k <= r)%nat ->
  Sorted le (l ++ [r]).
Proof.
  induction l as [|a l IH]; intros Hs Hf Hk; cbn.
  - repeat constructor.
  - inversion Hs; subst. inversion Hf; subst. constructor; [auto|].
    destruct l; cbn; constructor; [lia|]. inversion H2; subst. assumption.
Qed.

Lemma ordered_silent base k s s' e :
  action_rank e = None -> trace s' = trace s ++ [e] ->
  ordered_upto base k s -> ordered_upto base k s'.
Proof.
  intros He Ht (new & Hn & Hs & Hf). exists (new ++ [e]).
  rewrite Ht, Hn, <- app_assoc. split; [reflexivity|].
  unfold attempts in *. rewrite omap_app. cbn. rewrite He, app_nil_r. auto.
Qed.

Lemma ordered_attempt base k r s s' e :
  action_rank e = Some r -> (k <= r)%nat -> trace s' = trace s ++ [e] ->
  ordered_upto base k s -> ordered_upto base r s'.
Proof.
  intros He Hk Ht (new & Hn & Hs & Hf). exists (new ++ [e]).
  rewrite Ht, Hn, <- app_assoc. split; [reflexivity|].
  unfold attempts in *. rewrite omap_app. cbn. rewrite He. split.
  - eapply Sorted_snoc; eauto.
  - apply Forall_app. split; [|repeat constructor].
    eapply Forall_impl; [exact Hf|]. cbn. intros; lia.
Qed.

Lemma ordered_same base k s s' :
  trace s' = trace s -> ordered_upto base k s -> ordered_upto base k s'.
Proof. intros Ht (new & Hn & H). exists new. now rewrite Ht. Qed.

Variable env : Env.
Variable base : list Event.

Lemma request_ordered c k r :
  action_rank (EvRequest c) = Some r -> (k <= r)%nat ->
  hoare (ordered_upto base k) (makeAuthenticatedRequest env c)
        (ordered_upto base r).
Proof.
  intros Hr Hk s Hs. unfold makeAuthenticatedRequest. cbn [snd].
  eapply ordered_attempt; eauto.
Qed.

Lemma generateContent_ordered post action k r :
  action_rank (EvGenerateContent action (post_id post)) = Some r ->
  (k <= r)%nat ->
  hoare (ordered_upto base k) (generateContent env post action)
        (ordered_upto base r).
Proof.
  intros Hr Hk s Hs. unfold generateContent. cbn [snd].
  eapply ordered_attempt; eauto.
Qed.

Lemma storeInMemory_ordered id content k :
  hoare (ordered_upto base k) (storeInMemory env id content)
        (ordered_upto base k).
Proof.
  intros s Hs.
  unfold storeInMemory, processContent, createMemory, bind, modify, ret.
  destruct (blank content); [exact Hs|]. cbn.
  destruct (blank _); [eapply ordered_same; [|exact Hs]; reflexivity|].
  cbn. eapply ordered_silent; [ | reflexivity | exact Hs]; reflexivity.
Qed.

Lemma handleFavourite_ordered post k :
  (k <= 1)%nat ->
  hoare (ordered_upto base k) (handleFavourite env post) (ordered_upto base 1).
Proof.
  intros Hk. unfold handleFavourite.
  apply (hoare_try _ (ordered_upto base 1)); [|intros; now apply hoare_ret|auto].
  apply (hoare_bind _ (ordered_upto base 1)); [|intros; now apply hoare_ret|auto].
  now apply request_ordered.
Qed.

Lemma handleReblog_ordered post k :
  (k <= 2)%nat ->
  hoare (ordered_upto base k) (handleReblog env post) (ordered_upto base 2).
Proof.
  intros Hk. unfold handleReblog.
  apply (hoare_try _ (ordered_upto base 2)); [|intros; now apply hoare_ret|auto].
  apply (hoare_bind _ (ordered_upto base 2)); [|intros; now apply hoare_ret|auto].
  now apply request_ordered.
Qed.

Lemma handleQuote_ordered post k :
  (k <= 3)%nat ->
  hoare (ordered_upto base k) (handleQuote env post) (ordered_upto base 3).
Proof.
  intros Hk. unfold handleQuote.
  apply (hoare_try _ (ordered_upto base 3)); [|intros; now apply hoare_ret|auto].
  apply (hoare_bind _ (ordered_upto base 3)); [|intros c|auto].
  - now apply generateContent_ordered.
  - destruct (truthy_opt c); [|now apply hoare_ret].
    apply (hoare_bind _ (ordered_upto base 3));
      [|intros; now apply hoare_ret|auto].
    now apply request_ordered.
Qed.

Lemma handleReply_ordered post k :
  (k <= 4)%nat ->
  hoare (ordered_upto base k) (handleReply env post) (ordered_upto base 4).
Proof.
  intros Hk. unfold handleReply.
  apply (hoare_try _ (ordered_upto base 4)); [|intros; now apply hoare_ret|auto].
  apply (hoare_bind _ (ordered_upto base 4)); [|intros c|auto].
  - now apply generateContent_ordered.
  - destruct (truthy_opt c); [|now apply hoare_ret].
    apply (hoare_bind _ (ordered_upto base 4));
      [|intros; now apply hoare_ret|auto].
    now apply request_ordered.
Qed.

Lemma handlePostActions_ordered post acts k :
  (k <= 1)%nat ->
  hoare (ordered_upto base k) (Monitor.handlePostActions env post acts)
        (ordered_upto base 4).
Proof.
  intros Hk. unfold Monitor.handlePostActions.
  assert (Hup : forall j, (j <= 4)%nat ->
            forall s, ordered_upto base j s -> ordered_upto base 4 s)
    by (intros j Hj s; now apply ordered_mono).
  apply (hoare_bind _ (ordered_upto base k)); [| intros _ | apply Hup; lia].
  { intros s Hs.
    eapply ordered_silent; [ | reflexivity | exact Hs]; reflexivity. }
  apply (hoare_bind _ (ordered_upto base k));
    [apply storeInMemory_ordered| intros _ | apply Hup; lia].
  apply (hoare_bind _ (ordered_upto base 1)); [| intros st1 | apply Hup; lia].
  { destruct (favourite acts);
      [|apply hoare_ret; intros s; now apply ordered_mono].
    apply (hoare_bind _ (ordered_upto base 1));
      [now apply handleFavourite_ordered| |auto].
    intros [|]; [now apply hoare_ret|].
    destruct (isGroupError empty_object); now apply hoare_ret. }
  apply (hoare_bind _ (ordered_upto base 2)); [| intros st2 | apply Hup; lia].
  { destruct (reblog acts && negb st1.2);
      [|apply hoare_ret; intros s; apply ordered_mono; lia].
    apply (hoare_bind _ (ordered_upto base 2));
      [apply handleReblog_ordered; lia| |auto].
    intros [|]; [now apply hoare_ret|].
    destruct (isGroupError empty_object); now apply hoare_ret. }
  destruct (st2.2); [apply hoare_ret; apply Hup; lia|].
  apply (hoare_bind _ (ordered_upto base 3)); [| intros st3 | apply Hup; lia].
  { destruct (quote acts);
      [|apply hoare_ret; intros s; apply ordered_mono; lia].
    apply (hoare_bind _ (ordered_upto base 3));
      [apply handleQuote_ordered; lia| |auto].
    intros c. destruct (truthy_opt c); [|now apply hoare_ret].
    apply (hoare_bind _ (ordered_upto base 3));
      [apply storeInMemory_ordered| |auto].
    intros; now apply hoare_ret. }
  destruct (reply acts); [|apply hoare_ret; apply Hup; lia].
  apply (hoare_bind _ (ordered_upto base 4));
    [apply handleReply_ordered; lia| |auto].
  intros c. destruct (truthy_opt c); [|now apply hoare_ret].
  apply (hoare_bind _ (ordered_upto base 4));
    [apply storeInMemory_ordered| |auto].
  intros; now apply hoare_ret.
Qed.

Lemma executeNotificationActions_ordered n acts :
  hoare (ordered_upto base 0)
        (Notifications.executeNotificationActions env n acts)
        (ordered_upto base 4).
Proof.
  unfold Notifications.executeNotificationActions.
  assert (Hup : forall j, (j <= 4)%nat ->
            forall s, ordered_upto base j s -> ordered_upto base 4 s)
    by (intros j Hj s; now apply ordered_mono).
  apply (hoare_bind _ (ordered_upto base 0)); [| intros _ | apply Hup; lia].
  { intros s Hs.
    eapply ordered_silent; [ | reflexivity | exact Hs]; reflexivity. }
  apply (hoare_bind _ (ordered_upto base 0));
    [| intros executed1 | apply Hup; lia].
  { destruct (notification_type n); try (now apply hoare_ret).
    destruct (follow_back acts); [|now apply hoare_ret].
    apply (hoare_try _ (ordered_upto base 0));
      [|intros; now apply hoare_ret|auto].
    apply (hoare_bind _ (ordered_upto base 0));
      [|intros; now apply hoare_ret|auto].
    now apply request_ordered. }
  apply (hoare_try _ (ordered_upto base 4)); [|intros; now apply hoare_ret|auto].
  destruct (notification_status n) as [status|];
    [|apply hoare_ret; apply Hup; lia].
  apply (hoare_bind _ (ordered_upto base 4));
    [|intros; now apply hoare_ret|auto].
  apply handlePostActions_ordered. lia.
Qed.

End ActionOrder.

Section ActionOrderClaim.
Import Monitor Order Examples.

(** C4, as the code has it. On every notification the actions are attempted
    in the order follow-back, favourite, reblog, quote, reply: the follow-back
    comes first, and is never attempted after a favourite, reblog, quote or
    reply of the same notification. *)
Theorem notification_actions_order env n acts s :
  exists new,
    trace (snd (Notifications.executeNotificationActions env n acts s))
      = trace s ++ new
    /\ Sorted le (attempts new).
Proof.
  destruct (executeNotificationActions_ordered env (trace s) n acts s)
    as (new & Ht & Hs & _).
  - exists []. rewrite app_nil_r. repeat split; constructor.
  - eauto.
Qed.

(** C4 as stated fails: on a follow notification that carries a status, the
    follow request is the first request made, before the favourite. *)
Lemma follow_back_comes_first :
  trace (snd (Notifications.executeNotificationActions
                env_calm a_follow all_actions idle)) =
    [EvExecuteNotificationActions "n7";
     EvRequest (Follow "acct9");
     EvHandlePostActions "109"; EvCreateMemory "109-agent";
     EvRequest (Favourite "109"); EvRequest (Reblog "109");
     EvGenerateContent "QUOTE" "109";
     EvRequest (QuoteStatus "my QUOTE" "109");
     EvCreateMemory "109-quote-agent";
     EvGenerateContent "REPLY" "109";
     EvRequest (ReplyStatus "my REPLY" "109");
     EvCreateMemory "109-reply-agent"].
Proof. vm_compute. reflexivity. Qed.

End ActionOrderClaim.

(** ** Outbox and posting timer *)

Section Outbox.
Import Post PostExamples.

(** C8. When creating the head entry throws, [processNextPost] returns and
    leaves the queue as it was, the failed entry at the head. *)
Theorem failed_post_returns_to_head env s post rest e :
  postQueue s = post :: rest ->
  created env (creations s) post = Thrown e ->
  fst (processNextPost env s) = Returned tt /\
  postQueue (snd (processNextPost env s)) = post :: rest.
Proof.
  intros Hq Hc. unfold processNextPost, bind, get.
  destruct (negb (isPosting s) || bool_decide (postQueue s = [])) eqn:Hguard.
  - unfold ret. cbn. auto.
  - rewrite Hq. unfold modify, try_catch, createPost.
    cbn [creations set_postQueue]. rewrite Hc. cbn. auto.
Qed.

Lemma failed_post_returns_to_head_witness :
  fst (processNextPost env_post_down (posting [a_status; another_status]))
    = Returned tt /\
  postQueue (snd (processNextPost env_post_down
                    (posting [a_status; another_status])))
    = [a_status; another_status].
Proof.
  apply (failed_post_returns_to_head env_post_down
           (posting [a_status; another_status]) a_status [another_status]
           (Error "Request failed: 503")).
  - reflexivity.
  - reflexivity.
Defined.

(** The whole timer callback generates a post first; the failed head entry
    stays at the head and the new entry joins the tail. *)
Lemma failed_post_stays_at_head_over_a_firing :
  postQueue (snd (onPostInterval env_post_down
                    (posting [a_status; another_status])))
    = [a_status; another_status;
       mkOptions "fresh" None None [] (Some "public")].
Proof. vm_compute. reflexivity. Qed.

Lemma generateAndQueuePost_frame env s :
  fst (generateAndQueuePost env s) <> OutOfFuel ->
  fst (generateAndQueuePost env s) = Returned tt
  /\ postInterval (snd (generateAndQueuePost env s)) = postInterval s
  /\ filter is_timer (trace (snd (generateAndQueuePost env s)))
     = filter is_timer (trace s).
Proof.
  unfold generateAndQueuePost, try_catch, bind, queuePost, modify, ret.
  destruct (drafted env (drafts s)); cbn; auto. intros H. congruence.
Qed.

Lemma processNextPost_frame env s :
  fst (processNextPost env s) <> OutOfFuel ->
  fst (processNextPost env s) = Returned tt
  /\ postInterval (snd (processNextPost env s)) = postInterval s
  /\ filter is_timer (trace (snd (processNextPost env s)))
     = filter is_timer (trace s).
Proof.
  unfold processNextPost, bind, get.
  destruct (negb (isPosting s) || bool_decide (postQueue s = [])).
  - unfold ret. cbn. auto.
  - destruct (postQueue s) as [|post rest]; [unfold ret; cbn; auto|].
    unfold modify, try_catch, createPost. cbn [creations set_postQueue].
    destruct (created env (creations s) post) as [[]|e|]; cbn;
      rewrite ?filter_app; cbn; rewrite ?app_nil_r; auto.
    intros H. congruence.
Qed.

(** A firing of the timer neither re-arms it nor changes its period. *)
Lemma onPostInterval_keeps_period env s :
  fst (onPostInterval env s) <> OutOfFuel ->
  postInterval (snd (onPostInterval env s)) = postInterval s
  /\ filter is_timer (trace (snd (onPostInterval env s)))
     = filter is_timer (trace s).
Proof.
  unfold onPostInterval, bind.
  pose proof (generateAndQueuePost_frame env s) as F1.
  destruct (generateAndQueuePost env s) as [r1 s1].
  destruct r1 as [[]|e1|]; cbn [fst snd] in *;
    [|destruct F1 as (F & _); [discriminate|discriminate]|intros H; congruence].
  destruct F1 as (_ & Hp1 & Ht1); [discriminate|].
  pose proof (processNextPost_frame env s1) as F2.
  destruct (processNextPost env s1) as [r2 s2].
  destruct r2 as [[]|e2|]; cbn [fst snd] in *;
    [|destruct F2 as (F & _); [discriminate|discriminate]|intros H; congruence].
  destruct F2 as (_ & Hp2 & Ht2); [discriminate|].
  intros _. unfold getRandomInterval, Math_random, bind, ret, modify.
  cbn [fst snd postInterval emit trace]. rewrite filter_app.
  cbn [filter list_filter is_timer].
  rewrite app_nil_r. split; congruence.
Qed.

(** C9 at a concrete run: minutes 90 to 180, random draws 0, 1/8, 2/8 and
    3/8. The timer is armed once, with the period of the first draw; the
    three firings log delays of 6075000, 6750000 and 7425000 ms for the next
    post, and leave the period at 5400000 ms. *)
Theorem posting_period_is_drawn_once :
  let armed := snd (startPostingLoop env_post_down stopped) in
  let later := snd (firings env_post_down 3 armed) in
  postInterval armed = Some 5400000 /\
  postInterval later = Some 5400000 /\
  filter is_timer (trace later) = [EvSetInterval 5400000] /\
  trace later =
    [EvSetInterval 5400000;
     EvCreatePost (mkOptions "fresh" None None [] (Some "public"));
     EvNextPostLogged 6075000;
     EvCreatePost (mkOptions "fresh" None None [] (Some "public"));
     EvNextPostLogged 6750000;
     EvCreatePost (mkOptions "fresh" None None [] (Some "public"));
     EvNextPostLogged 7425000] /\
  map (firing_time 5400000) [1; 2; 3]%nat = [5400000; 10800000; 16200000].
Proof. vm_compute. auto 10. Qed.

(** At the top of the range the rounding of the sum carries a draw one
    millisecond past the upper bound: minutes 90 to 180 and a random number
    of 1 - 2^-53. *)
Lemma getRandomInterval_beyond_max :
  fst (getRandomInterval env_top_draw 5400000 10800000 stopped)
  = Returned 10800001.
Proof. vm_compute. reflexivity. Qed.

End Outbox.

(** ** Reasoning about method bodies *)

Set Warnings "-clear-no-such-hyp".

Section MethodRules.
Context {S : Type}.

Lemma preserves_ret (R : relation S) `{!PreOrder R} {A} (a : A) :
  preserves R (ret a).
Proof. intros s. reflexivity. Qed.

Lemma preserves_throw (R : relation S) `{!PreOrder R} {A} e :
  preserves R (@throw S A e).
Proof. intros s. reflexivity. Qed.

Lemma preserves_get (R : relation S) `{!PreOrder R} : preserves R get.
Proof. intros s. reflexivity. Qed.

Lemma preserves_bind (R : relation S) `{!PreOrder R} {A B}
    (m : M S A) (k : A -> M S B) :
  preserves R m -> (forall a, preserves R (k a)) -> preserves R (bind m k).
Proof.
  intros Hm Hk s. specialize (Hm s). unfold bind.
  destruct (m s) as [[a|e|] s1]; cbn in *; auto.
  etransitivity; [exact Hm|apply Hk].
Qed.

Lemma preserves_try (R : relation S) `{!PreOrder R} {A} (m : M S A) h :
  preserves R m -> (forall e, preserves R (h e)) -> preserves R (try_catch m h).
Proof.
  intros Hm Hk s. specialize (Hm s). unfold try_catch.
  destruct (m s) as [[a|e|] s1]; cbn in *; auto.
  etransitivity; [exact Hm|apply Hk].
Qed.

Lemma preserves_for_of (R : relation S) `{!PreOrder R} {A} (xs : list A) body :
  (forall x, preserves R (body x)) -> preserves R (for_of xs body).
Proof.
  intros Hb. induction xs as [|x xs IH]; cbn.
  - by apply preserves_ret.
  - apply preserves_bind; auto.
Qed.

Lemma settles_ret {A} (a : A) : settles (@ret S A a).
Proof. intros s. cbn. discriminate. Qed.

Lemma settles_throw {A} e : settles (@throw S A e).
Proof. intros s. cbn. discriminate. Qed.

Lemma settles_get : settles (@get S).
Proof. intros s. cbn. discriminate. Qed.

Lemma settles_modify f : settles (@modify S f).
Proof. intros s. cbn. discriminate. Qed.

Lemma settles_bind {A B} (m : M S A) (k : A -> M S B) :
  settles m -> (forall a, settles (k a)) -> settles (bind m k).
Proof.
  intros Hm Hk s. specialize (Hm s). unfold bind.
  destruct (m s) as [[a|e|] s1]; cbn in *; auto; congruence.
Qed.

Lemma settles_try {A} (m : M S A) h :
  settles m -> (forall e, settles (h e)) -> settles (try_catch m h).
Proof.
  intros Hm Hk s. specialize (Hm s). unfold try_catch.
  destruct (m s) as [[a|e|] s1]; cbn in *; auto; congruence.
Qed.

Lemma settles_for_of {A} (xs : list A) (body : A -> M S unit) :
  (forall x, settles (body x)) -> settles (for_of xs body).
Proof.
  intros Hb. induction xs as [|x xs IH]; cbn.
  - apply settles_ret.
  - apply settles_bind; auto.
Qed.

Lemma returns_ret {A} (a : A) : returns (@ret S A a).
Proof. intros s. eexists. reflexivity. Qed.

Lemma returns_modify f : returns (@modify S f).
Proof. intros s. eexists. reflexivity. Qed.

Lemma returns_bind {A B} (m : M S A) (k : A -> M S B) :
  returns m -> (forall a, returns (k a)) -> returns (bind m k).
Proof.
  intros Hm Hk s. destruct (Hm s) as [a Ha]. unfold bind.
  destruct (m s) as [r s1]; cbn in *. subst r. apply Hk.
Qed.

Lemma returns_try {A} (m : M S A) h :
  settles m -> (forall e, returns (h e)) -> returns (try_catch m h).
Proof.
  intros Hm Hk s. specialize (Hm s). unfold try_catch.
  destruct (m s) as [[a|e|] s1]; cbn in *; [eauto|apply Hk|congruence].
Qed.

Lemma returns_for_of {A} (xs : list A) (body : A -> M S unit) :
  (forall x, returns (body x)) -> returns (for_of xs body).
Proof.
  intros Hb. induction xs as [|x xs IH]; cbn.
  - apply returns_ret.
  - apply returns_bind; auto.
Qed.

End MethodRules.

(** Takes a method body apart along its binds, handlers, loops and
    branches. *)
Ltac structure lem_bind lem_try lem_ret lem_throw lem_get lem_for :=
  repeat first
    [ apply lem_bind; [|intros ?]
    | apply lem_try; [|intros ?]
    | apply lem_ret
    | apply lem_throw
    | apply lem_get
    | apply lem_for; intros ?
    | match goal with
      | |- _ (if ?b then _ else _) => destruct b
      | |- _ (match ?x with _ => _ end) => destruct x
      end ].

(** ** The dedup ledger under the monitors' methods *)

Section LedgerFrames.
Import Monitor Ledger.

#[export] Instance bounded_preorder env T : PreOrder (bounded env T).
Proof.
  split.
  - intros s. unfold bounded. set_solver.
  - intros s1 s2 s3 (Ha1 & Ha2 & Ha3 & Ha4 & Ha5 & Ha6)
      (Hb1 & Hb2 & Hb3 & Hb4 & Hb5 & Hb6).
    unfold bounded. rewrite Hb1, Hb2.
    split; [exact Ha1|]. split; [exact Ha2|].
    split; [by etrans|]. split; [clear -Ha4 Hb4; set_solver|].
    split; [by etrans|]. clear -Ha6 Hb6; set_solver.
Qed.

#[export] Instance no_exec_preorder : PreOrder no_exec.
Proof.
  split.
  - intros s. reflexivity.
  - intros s1 s2 s3 H12 H23. unfold no_exec in *. congruence.
Qed.

#[export] Instance stored_only_preorder : PreOrder stored_only.
Proof.
  split.
  - intros s. split; [exists []; by rewrite app_nil_r|done].
  - intros s1 s2 s3 ((l1 & Ht1 & Hl1) & Hm1 & Hw1 & Hp1)
      ((l2 & Ht2 & Hl2) & Hm2 & Hw2 & Hp2).
    split; [|split; [by etrans|split; congruence]].
    exists (l1 ++ l2). rewrite Ht2, Ht1, app_assoc. split; [done|].
    by apply Forall_app.
Qed.

Variable env : Env.
Variable T : gset string.

Lemma bounded_request c :
  preserves (bounded env T) (makeAuthenticatedRequest env c).
Proof. intros s. unfold bounded. cbn. set_solver. Qed.

Lemma bounded_generate p a :
  preserves (bounded env T) (generateContent env p a).
Proof. intros s. unfold bounded. cbn. set_solver. Qed.

Lemma bounded_decide i : preserves (bounded env T) (generateTweetActions env i).
Proof. intros s. unfold bounded. cbn. set_solver. Qed.

Lemma bounded_emit e : preserves (bounded env T) (modify (emit e)).
Proof. intros s. unfold bounded. cbn. set_solver. Qed.

Lemma bounded_actedOn i : preserves (bounded env T) (modify (add_actedOn i)).
Proof. intros s. unfold bounded. cbn. set_solver. Qed.

Lemma bounded_lastNotification i :
  preserves (bounded env T) (modify (set_lastNotification i)).
Proof. intros s. unfold bounded. cbn. set_solver. Qed.

Lemma bounded_processContent c :
  preserves (bounded env T) (processContent env c).
Proof.
  intros s. unfold bounded, processContent. destruct (blank c); cbn; set_solver.
Qed.

Lemma bounded_getMemoryById m : preserves (bounded env T) (getMemoryById m).
Proof. intros s. unfold bounded. cbn. set_solver. Qed.

Lemma bounded_processed i :
  i ∈ T -> preserves (bounded env T) (modify (add_processed i)).
Proof. intros Hi s. unfold bounded. cbn. set_solver. Qed.

Lemma bounded_createMemory i :
  i ∈ T -> preserves (bounded env T) (createMemory (memoryId env i)).
Proof. intros Hi s. unfold bounded. cbn. set_solver. Qed.

End LedgerFrames.

Ltac frame env T :=
  structure (@preserves_bind Monitor.State (Ledger.bounded env T) _)
    (@preserves_try Monitor.State (Ledger.bounded env T) _)
    (@preserves_ret Monitor.State (Ledger.bounded env T) _)
    (@preserves_throw Monitor.State (Ledger.bounded env T) _)
    (@preserves_get Monitor.State (Ledger.bounded env T) _)
    (@preserves_for_of Monitor.State (Ledger.bounded env T) _);
  auto using bounded_request, bounded_generate, bounded_decide, bounded_emit,
    bounded_actedOn, bounded_lastNotification, bounded_processContent,
    bounded_getMemoryById, bounded_processed, bounded_createMemory.

Ltac settle :=
  structure (@settles_bind Monitor.State) (@settles_try Monitor.State)
    (@settles_ret Monitor.State) (@settles_throw Monitor.State)
    (@settles_get Monitor.State) (@settles_for_of Monitor.State);
  auto using settles_modify.

Section LedgerMethods.
Import Monitor Ledger.
Variable env : Env.

Lemma bounded_storeInMemory T i c :
  i ∈ T -> preserves (bounded env T) (storeInMemory env i c).
Proof. intros Hi. unfold storeInMemory. frame env T. Qed.

Lemma bounded_search_handlePostActions T post acts :
  preserves (bounded env T) (Search.handlePostActions env post acts).
Proof. unfold Search.handlePostActions. frame env T. Qed.

Lemma bounded_processMediaAttachments T l :
  preserves (bounded env T) (processMediaAttachments l).
Proof. unfold processMediaAttachments. frame env T. Qed.

Lemma bounded_processPost T post u b :
  post_id post ∈ T ->
  preserves (bounded env T) (Search.processPost env post u b).
Proof.
  intros Hin. unfold Search.processPost.
  frame env T;
    auto using bounded_search_handlePostActions,
      bounded_processMediaAttachments, bounded_storeInMemory.
Qed.

Lemma bounded_getUserTimeline T u :
  preserves (bounded env T) (Search.getUserTimeline env u).
Proof. unfold Search.getUserTimeline. frame env T. Qed.

Lemma bounded_posts_loop (posts all : list TruthSocialPost) u
    (f : TruthSocialPost -> bool) :
  posts ⊆ all ->
  preserves (bounded env (ids_of all))
    (for_of posts (fun post => Search.processPost env post u (f post))).
Proof.
  intros Hsub. induction posts as [|p posts IH]; cbn.
  - by apply (preserves_ret (bounded env (ids_of all))).
  - apply (preserves_bind (bounded env (ids_of all)));
      [|intros _; apply IH; set_solver].
    apply bounded_processPost. unfold ids_of.
    apply elem_of_list_to_set, list_elem_of_fmap.
    exists p. split; [done|]. set_solver.
Qed.

Lemma settles_generate p a : settles (generateContent env p a).
Proof. intros s. cbn. discriminate. Qed.

Lemma settles_processContent c : settles (processContent env c).
Proof.
  intros s. unfold processContent. destruct (blank c); cbn; discriminate.
Qed.

Lemma settles_getMemoryById m : settles (getMemoryById m).
Proof. intros s. cbn. discriminate. Qed.

Lemma settles_createMemory m : settles (createMemory m).
Proof. intros s. cbn. discriminate. Qed.

Lemma settles_storeInMemory i c : settles (storeInMemory env i c).
Proof.
  unfold storeInMemory. settle;
    auto using settles_processContent, settles_createMemory.
Qed.

Lemma settles_processMediaAttachments l : settles (processMediaAttachments l).
Proof. unfold processMediaAttachments. settle. Qed.

Lemma returns_storeInMemory i c : returns (storeInMemory env i c).
Proof.
  unfold storeInMemory, processContent.
  destruct (blank c); [apply returns_ret|].
  apply returns_bind; [intros s; eexists; reflexivity|intros pc].
  destruct (blank pc.1); [apply returns_ret|].
  apply returns_bind; [apply returns_modify|intros; apply returns_modify].
Qed.

Hypothesis Hsettling : settling env.

Lemma settles_request c : settles (makeAuthenticatedRequest env c).
Proof using Hsettling. intros s. cbn. apply Hsettling. Qed.

Lemma settles_decide i : settles (generateTweetActions env i).
Proof using Hsettling. intros s. cbn. apply Hsettling. Qed.

Lemma settles_search_handlePostActions post acts :
  settles (Search.handlePostActions env post acts).
Proof using Hsettling.
  unfold Search.handlePostActions.
  settle; auto using settles_request, settles_generate.
Qed.

Lemma settles_monitor_handlePostActions post acts :
  settles (Monitor.handlePostActions env post acts).
Proof using Hsettling.
  unfold Monitor.handlePostActions, handleFavourite, handleReblog, handleQuote,
    handleReply.
  settle; auto using settles_request, settles_generate, settles_storeInMemory.
Qed.

Lemma returns_processPost post u b : returns (Search.processPost env post u b).
Proof using Hsettling.
  unfold Search.processPost. apply returns_try; [|intros; apply returns_ret].
  settle;
    auto using settles_storeInMemory, settles_search_handlePostActions,
      settles_processMediaAttachments, settles_getMemoryById, settles_decide,
      settles_request, settles_generate, settles_processContent,
      settles_createMemory.
Qed.

Lemma returns_getUserTimeline u : returns (Search.getUserTimeline env u).
Proof using Hsettling.
  unfold Search.getUserTimeline.
  apply returns_try; [|intros; apply returns_ret].
  settle; auto using settles_request.
Qed.

Lemma posts_loop_spec posts u (f : TruthSocialPost -> bool) s1 :
  exists s2,
    for_of posts (fun post => Search.processPost env post u (f post)) s1
      = (Returned tt, s2)
    /\ bounded env (ids_of posts) s1 s2.
Proof using Hsettling.
  destruct (returns_for_of posts
    (fun post => Search.processPost env post u (f post))
    (fun x => returns_processPost x u _) s1) as [[] Hloop].
  pose proof (bounded_posts_loop posts posts u f ltac:(set_solver) s1) as Hl.
  destruct (for_of posts _ s1) as [r s2]. cbn [fst snd] in *. subst r.
  eauto.
Qed.

End LedgerMethods.

(** ** Timeline feed: the watermark *)

Section Watermark.
Import Monitor Ledger Examples.

(** C3, as the code has it. An iteration over a target user whose requests
    and decisions settle completes, and it sets the user's watermark to the
    id of the first item of the fetched list, whatever the watermark was and
    whatever the other items are; an empty or failed fetch leaves the
    watermark as it was. *)
Theorem watermark_is_first_fetched_id env u s :
  settling env ->
  exists posts,
    fst (Search.getUserTimeline env u s) = Returned posts /\
    fst (Search.checkUser env u s) = Returned tt /\
    lastCheckedPosts (snd (Search.checkUser env u s)) =
      match posts with
      | [] => lastCheckedPosts s
      | first :: _ => <[u := post_id first]> (lastCheckedPosts s)
      end.
Proof.
  intros Hsettling.
  destruct (returns_getUserTimeline env Hsettling u s) as [posts Hposts].
  exists posts. split; [exact Hposts|].
  pose proof (bounded_getUserTimeline env ∅ u s) as Hframe.
  unfold Search.checkUser, try_catch, bind, get.
  destruct (Search.getUserTimeline env u s) as [r s1].
  cbn [fst snd] in *. subst r.
  destruct Hframe as (_ & Hframe & _).
  destruct posts as [|first rest].
  - cbn. split; [reflexivity|]. exact Hframe.
  - destruct (truthy_opt (lastCheckedPosts s !! u)); cbn [negb].
    + destruct (posts_loop_spec env Hsettling (first :: rest) u
        (fun post =>
           string_gt (post_id post) (default "" (lastCheckedPosts s !! u))) s1)
        as (s2 & -> & (_ & Hl & _)).
      cbn. split; [reflexivity|]. by rewrite Hl, Hframe.
    + destruct (posts_loop_spec env Hsettling (first :: rest) u
        (fun _ => false) s1) as (s2 & -> & (_ & Hl & _)).
      cbn. split; [reflexivity|]. by rewrite Hl, Hframe.
Qed.

Lemma env_timeline_settling posts : settling (env_timeline posts).
Proof.
  split.
  - intros k c. destruct c; discriminate.
  - intros k item. discriminate.
Defined.

Lemma watermark_is_first_fetched_id_witness :
  exists posts,
    fst (Search.getUserTimeline (env_timeline [mkPost "3" "three" []])
           "alice" watched) = Returned posts /\
    fst (Search.checkUser (env_timeline [mkPost "3" "three" []])
           "alice" watched) = Returned tt /\
    lastCheckedPosts
      (snd (Search.checkUser (env_timeline [mkPost "3" "three" []])
              "alice" watched)) =
      match posts with
      | [] => lastCheckedPosts watched
      | first :: _ => <["alice" := post_id first]> (lastCheckedPosts watched)
      end.
Proof.
  apply (watermark_is_first_fetched_id (env_timeline [mkPost "3" "three" []])
           "alice" watched).
  apply env_timeline_settling.
Defined.

(** C3 as stated fails: with the watermark at "5", a fetch whose first item
    has the older id "3" moves the watermark back to "3". *)
Lemma watermark_regresses :
  lastCheckedPosts watched !! "alice" = Some "5" /\
  lastCheckedPosts
    (snd (Search.checkUser (env_timeline [mkPost "3" "three" []])
            "alice" watched)) !! "alice" = Some "3" /\
  string_gt "5" "3" = true.
Proof. vm_compute. auto. Qed.

(** Nor is the new value the newest id of the fetch when the list is not
    newest first. *)
Lemma watermark_is_not_the_newest :
  lastCheckedPosts
    (snd (Search.checkUser
            (env_timeline [mkPost "6" "six" []; mkPost "7" "seven" []])
            "alice" watched)) !! "alice" = Some "6" /\
  string_gt "7" "6" = true.
Proof. vm_compute. auto. Qed.

End Watermark.

(** ** Timeline feed: first contact *)

Section FirstContact.
Import Monitor Ledger Examples.
Variable env : Env.




End FirstContact.

Section FirstContactClaim.
Import Monitor Ledger Examples.




End FirstContactClaim.

(** ** Notification feed *)

Section NotificationFrames.
Import Monitor Ledger.
Variable env : Env.

Lemma no_exec_request c : preserves no_exec (makeAuthenticatedRequest env c).
Proof.
  intros s. unfold no_exec, executed. cbn. by rewrite omap_app, app_nil_r.
Qed.

Lemma no_exec_generate p a : preserves no_exec (generateContent env p a).
Proof.
  intros s. unfold no_exec, executed. cbn. by rewrite omap_app, app_nil_r.
Qed.

Lemma no_exec_createMemory m : preserves no_exec (createMemory m).
Proof.
  intros s. unfold no_exec, executed. cbn. by rewrite omap_app, app_nil_r.
Qed.

Lemma no_exec_handlePostActions_entry p :
  preserves no_exec (modify (emit (EvHandlePostActions p))).
Proof.
  intros s. unfold no_exec, executed. cbn. by rewrite omap_app, app_nil_r.
Qed.

Lemma no_exec_processContent c : preserves no_exec (processContent env c).
Proof. intros s. unfold no_exec, processContent. by destruct (blank c). Qed.

Lemma no_exec_processed i : preserves no_exec (modify (add_processed i)).
Proof. intros s. reflexivity. Qed.

End NotificationFrames.

Ltac silent :=
  structure (@preserves_bind Monitor.State Ledger.no_exec _)
    (@preserves_try Monitor.State Ledger.no_exec _)
    (@preserves_ret Monitor.State Ledger.no_exec _)
    (@preserves_throw Monitor.State Ledger.no_exec _)
    (@preserves_get Monitor.State Ledger.no_exec _)
    (@preserves_for_of Monitor.State Ledger.no_exec _);
  auto using no_exec_request, no_exec_generate, no_exec_createMemory,
    no_exec_handlePostActions_entry, no_exec_processContent, no_exec_processed.

Section NotificationMethods.
Import Monitor Ledger.
Variable env : Env.

Lemma no_exec_storeInMemory i c : preserves no_exec (storeInMemory env i c).
Proof. unfold storeInMemory. silent. Qed.

Lemma executed_executeNotificationActions n acts s :
  executed (trace (snd (Notifications.executeNotificationActions env n acts s)))
  = executed (trace s) ++ [notification_id n].
Proof.
  unfold Notifications.executeNotificationActions.
  unfold bind at 1, modify at 1.
  match goal with |- context [snd (?rest (emit ?e s))] =>
    assert (Hrest : preserves no_exec rest) end.
  { silent; auto using no_exec_storeInMemory. }
  rewrite (Hrest _). unfold executed. cbn. by rewrite omap_app.
Qed.

Lemma append_length s t :
  String.length (s +:+ t) = (String.length s + String.length t)%nat.
Proof.
  induction s as [|a s IH]; [reflexivity|].
  change (S (String.length (s +:+ t)) = S (String.length s + String.length t)).
  by rewrite IH.
Qed.

Lemma append_inj_l s1 s2 t : s1 +:+ t = s2 +:+ t -> s1 = s2.
Proof.
  revert s2. induction s1 as [|a s1 IH]; intros [|b s2] H.
  - reflexivity.
  - apply (f_equal String.length) in H.
    change (String.length t = S (String.length (s2 +:+ t))) in H.
    rewrite append_length in H. lia.
  - apply (f_equal String.length) in H.
    change (S (String.length (s1 +:+ t)) = String.length t) in H.
    rewrite append_length in H. lia.
  - change (String a (s1 +:+ t) = String b (s2 +:+ t)) in H.
    injection H as -> H. f_equal. by apply IH.
Qed.

Lemma memoryId_inj i j : memoryId env i = memoryId env j -> i = j.
Proof. unfold memoryId. apply append_inj_l. Qed.

Lemma bounded_monitor_handlePostActions T post acts :
  {[post_id post; post_id post +:+ "-quote"; post_id post +:+ "-reply"]} ⊆ T ->
  preserves (bounded env T) (Monitor.handlePostActions env post acts).
Proof.
  intros HT.
  unfold Monitor.handlePostActions, handleFavourite, handleReblog, handleQuote,
    handleReply.
  frame env T; apply bounded_storeInMemory; set_solver.
Qed.

Lemma bounded_executeNotificationActions n acts :
  preserves (bounded env (touched n))
    (Notifications.executeNotificationActions env n acts).
Proof.
  unfold Notifications.executeNotificationActions.
  destruct n as [nid ty [p|] acc]; unfold touched;
    cbn [notification_id notification_type notification_status
         notification_account].
  - set (T := {[nid]} ∪ _).
    apply (preserves_bind (bounded env T)); [apply bounded_emit|intros _].
    apply (preserves_bind (bounded env T)); [|intros executed1].
    + frame env T.
    + apply (preserves_try (bounded env T));
        [|intros; by apply (preserves_ret (bounded env T))].
      apply (preserves_bind (bounded env T));
        [|intros; by apply (preserves_ret (bounded env T))].
      apply bounded_monitor_handlePostActions. subst T. set_solver.
  - frame env ({[nid]} ∪ (∅ : gset string)).
Qed.

Lemma checkNotification_seen n s :
  (notification_id n ∈ processedItems s) \/
  (memoryId env (notification_id n) ∈ memories s) ->
  exists s',
    Notifications.checkNotification env n s = (Returned tt, s') /\
    trace s' = trace s /\ requests s' = requests s /\
    memories s' = memories s /\
    processedItems s' = {[notification_id n]} ∪ processedItems s.
Proof.
  intros Hseen.
  cbv beta iota zeta delta
    [Notifications.checkNotification try_catch bind get getMemoryById ret
     fst snd].
  destruct (bool_decide (notification_id n ∈ processedItems s)) eqn:Hp.
  - apply bool_decide_eq_true in Hp. exists s.
    repeat split; try reflexivity. set_solver.
  - apply bool_decide_eq_false in Hp. destruct Hseen as [Hs|Hs]; [done|].
    rewrite bool_decide_eq_true_2 by exact Hs.
    eexists. split; [reflexivity|]. cbn. auto.
Qed.

Lemma unseen_after n m s s' :
  bounded env (touched n) s s' ->
  notification_id m ∉ touched n ->
  unseen env s m -> unseen env s' m.
Proof.
  intros (_ & _ & _ & Hp & _ & Hm) Hapart [Hup Hum]. split.
  - intros Hin. apply Hp in Hin. set_solver.
  - intros Hin. apply Hm in Hin.
    apply elem_of_union in Hin as [Hin|Hin]; [done|].
    apply elem_of_map in Hin as (x & Hx & Hxin).
    apply memoryId_inj in Hx. subst x. done.
Qed.

Hypothesis Hans : answering env.
Hypothesis Hdec : deciding env.

Lemma answering_deciding_settling : settling env.
Proof using Hans Hdec.
  split; [exact Hans|]. intros k item.
  destruct (Hdec k item) as [a ->]. discriminate.
Qed.

Lemma returns_executeNotificationActions n acts :
  returns (Notifications.executeNotificationActions env n acts).
Proof using Hans Hdec.
  pose proof answering_deciding_settling as Hsettling.
  unfold Notifications.executeNotificationActions.
  apply returns_bind; [apply returns_modify|intros _].
  apply returns_bind; [|intros executed1].
  - destruct (notification_type n); try apply returns_ret.
    destruct (follow_back acts); [|apply returns_ret].
    apply returns_try; [|intros; apply returns_ret].
    settle; auto using settles_request.
  - apply returns_try; [|intros; apply returns_ret].
    destruct (notification_status n);
      settle;
      auto using settles_monitor_handlePostActions, settles_request,
        settles_generate, settles_storeInMemory.
Qed.

Lemma handleNotification_spec n s :
  exists s',
    Notifications.handleNotification env n s = (Returned tt, s') /\
    bounded env (touched n) s s' /\
    executed (trace s') = executed (trace s) ++ [notification_id n].
Proof using Hans Hdec.
  unfold Notifications.handleNotification.
  unfold bind at 1.
  assert (Hfmt : returns (Notifications.formatNotificationForLLM env n)).
  { unfold Notifications.formatNotificationForLLM.
    destruct (notification_status n); [|apply returns_ret].
    apply returns_bind; [|intros; apply returns_ret].
    unfold processContent. destruct (blank _); [apply returns_ret|].
    intros s0; eexists; reflexivity. }
  assert (Bfmt : preserves (bounded env (touched n))
                   (Notifications.formatNotificationForLLM env n)).
  { unfold Notifications.formatNotificationForLLM. frame env (touched n). }
  assert (Nfmt : preserves no_exec
                   (Notifications.formatNotificationForLLM env n)).
  { unfold Notifications.formatNotificationForLLM. silent. }
  destruct (Hfmt s) as [[] Hf]. specialize (Bfmt s). specialize (Nfmt s).
  destruct (Notifications.formatNotificationForLLM env n s) as [r s1].
  cbn [fst snd] in *. subst r.
  unfold bind at 1, generateTweetActions at 1.
  destruct (Hdec (decisions s1) (notification_id n)) as [acts ->].
  set (s2 := emit (EvDecide (notification_id n)) (next_decision s1)).
  unfold bind at 1.
  destruct (returns_executeNotificationActions n acts s2) as [done He].
  pose proof (bounded_executeNotificationActions n acts s2) as Be.
  pose proof (executed_executeNotificationActions n acts s2) as Ne.
  destruct (Notifications.executeNotificationActions env n acts s2) as [r s3].
  cbn [fst snd] in *. subst r.
  unfold Notifications.storeNotificationMemory.
  set (content := match notification_status n with
                  | Some st => post_content st
                  | None => EmptyString
                  end).
  destruct (returns_storeInMemory env (notification_id n) content s3)
    as [[] Hs].
  pose proof (bounded_storeInMemory env (touched n) (notification_id n) content
    ltac:(unfold touched; set_solver) s3) as Bs.
  pose proof (no_exec_storeInMemory (notification_id n) content s3) as Ns.
  destruct (storeInMemory env (notification_id n) content s3) as [r s4].
  cbn [fst snd] in *. subst r.
  exists s4. split; [reflexivity|]. split.
  - etrans; [exact Bfmt|]. etrans; [|exact Bs]. etrans; [|exact Be].
    subst s2. unfold bounded. cbn. set_solver.
  - unfold no_exec in *. rewrite Ns, Ne. subst s2. unfold executed at 1. cbn.
    rewrite omap_app. cbn. rewrite app_nil_r. fold (executed (trace s1)).
    by rewrite Nfmt.
Qed.

Lemma checkNotification_fresh n s :
  notification_id n ∉ processedItems s ->
  memoryId env (notification_id n) ∉ memories s ->
  exists s',
    Notifications.checkNotification env n s = (Returned tt, s') /\
    bounded env (touched n) s s' /\
    executed (trace s') = executed (trace s) ++ [notification_id n] /\
    notification_id n ∈ processedItems s'.
Proof using Hans Hdec.
  intros Hp Hm.
  cbv beta iota zeta delta
    [Notifications.checkNotification try_catch bind get getMemoryById ret
     fst snd].
  rewrite bool_decide_eq_false_2 by exact Hp.
  rewrite bool_decide_eq_false_2 by exact Hm.
  destruct (handleNotification_spec n s) as (s1 & -> & Hb & He).
  cbv beta iota zeta delta [modify].
  eexists. split; [reflexivity|]. split; [|split].
  - etrans; [exact Hb|]. unfold bounded, touched. cbn. set_solver.
  - exact He.
  - cbn. set_solver.
Qed.

Lemma notifications_loop ns :
  forall s,
  (forall n, n ∈ ns -> unseen env s n) -> apart ns ->
  exists s',
    for_of ns (Notifications.checkNotification env) s = (Returned tt, s') /\
    executed (trace s') = executed (trace s) ++ (notification_id <$> ns) /\
    (forall n, n ∈ ns -> notification_id n ∈ processedItems s') /\
    processedItems s ⊆ processedItems s' /\
    isProcessing s' = isProcessing s.
Proof using Hans Hdec.
  induction ns as [|n ns IH]; intros s Hunseen Hapart.
  - exists s. split; [reflexivity|]. cbn. rewrite app_nil_r. set_solver.
  - destruct Hapart as [Hn Hrest].
    destruct (Hunseen n ltac:(set_solver)) as [Hp Hm].
    destruct (checkNotification_fresh n s Hp Hm)
      as (s1 & Heq & Hb & He & Hin).
    destruct (IH s1) as (s2 & Heq2 & He2 & Hin2 & Hsub2 & Hproc2).
    + intros m Hm'. eapply unseen_after; [exact Hb|by apply Hn|].
      apply Hunseen. set_solver.
    + exact Hrest.
    + exists s2. cbn [for_of]. unfold bind. rewrite Heq, Heq2.
      split; [reflexivity|]. split; [|split; [|split]].
      * rewrite He2, He. cbn. by rewrite <- app_assoc.
      * intros m Hm'. apply elem_of_cons in Hm' as [->|Hm']; [|by apply Hin2].
        by apply Hsub2.
      * destruct Hb as (_ & _ & Hsub & _). by etrans.
      * destruct Hb as (Hproc & _). congruence.
Qed.

End NotificationMethods.

Section NotificationClaim.
Import Monitor Ledger Examples.

(** C5, as the code has it. Let the fetch return [n3, n2, n1], newest first,
    with none of the three in the processed set or in the message store, let
    every request settle and every action decision be delivered, and let no
    notification carry the id of something recorded while an earlier one of
    the batch is handled (its own id, or the id of its status with or without
    the suffixes of the quote and reply memories). Then the iteration
    returns, the action executor is entered for n1, n2, n3 in that order, and
    the processed set afterwards contains the three ids. A notification that
    is in the processed set or in the message store is passed over without
    any action. *)
Theorem notifications_processed_oldest_first env s n1 n2 n3 :
  answering env -> deciding env ->
  isProcessing s = false ->
  request env (requests s) GetNotifications
    = Returned (JNotifications [n3; n2; n1]) ->
  (forall n, n ∈ [n1; n2; n3] -> unseen env s n) ->
  notification_id n2 ∉ touched n1 ->
  notification_id n3 ∉ touched n1 ∪ touched n2 ->
  (fst (Notifications.checkItems env s) = Returned tt /\
   executed (trace (snd (Notifications.checkItems env s))) =
     executed (trace s)
       ++ [notification_id n1; notification_id n2; notification_id n3] /\
   {[notification_id n1; notification_id n2; notification_id n3]}
     ⊆ processedItems (snd (Notifications.checkItems env s)) /\
   isProcessing (snd (Notifications.checkItems env s)) = false) /\
  (forall n s0,
     (notification_id n ∈ processedItems s0) \/
     (memoryId env (notification_id n) ∈ memories s0) ->
     fst (Notifications.checkNotification env n s0) = Returned tt /\
     trace (snd (Notifications.checkNotification env n s0)) = trace s0).
Proof.
  intros Hans Hdec Hidle Hfetch Hunseen H21 H3.
  split.
  - assert (Heq : exists s',
      Notifications.checkItems env s
        = (Returned tt, set_isProcessing false s') /\
      executed (trace s') = executed (trace s)
        ++ [notification_id n1; notification_id n2; notification_id n3] /\
      (forall n, n ∈ [n1; n2; n3] -> notification_id n ∈ processedItems s')).
    { cbv beta iota zeta delta
        [Notifications.checkItems finally try_catch bind get modify
         Notifications.fetchNotifications makeAuthenticatedRequest ret
         fst snd].
      rewrite Hidle. cbn [requests set_isProcessing]. rewrite Hfetch.
      cbn [rev app].
      match goal with |- context [for_of _ _ ?s1] =>
        destruct (notifications_loop env Hans Hdec [n1; n2; n3] s1)
          as (s2 & -> & He & Hin & _ & _) end.
      + intros n Hn. destruct (Hunseen n Hn). split; assumption.
      + cbn. repeat split; try set_solver.
      + exists s2. split; [reflexivity|]. split; [|exact Hin].
        rewrite He. unfold executed at 2. cbn. rewrite omap_app. cbn.
        by rewrite app_nil_r. }
    destruct Heq as (s' & -> & He & Hin). cbn [fst snd].
    split; [reflexivity|]. split; [exact He|]. split; [|reflexivity].
    cbn. intros x Hx.
    assert (x = notification_id n1 \/ x = notification_id n2
            \/ x = notification_id n3)
      as [->|[->| ->]] by set_solver; apply Hin; set_solver.
  - intros n s0 Hseen.
    destruct (checkNotification_seen env n s0 Hseen) as (s' & -> & Ht & _).
    split; [reflexivity|exact Ht].
Qed.

End NotificationClaim.

Section NotificationScenario.
Import Monitor Ledger Examples.

Lemma notifications_processed_oldest_first_witness :
  let n1 := mention "n1" "101" in
  let n2 := mention "n2" "102" in
  let n3 := mention "n3" "103" in
  (fst (Notifications.checkItems env_mentions idle) = Returned tt /\
   executed (trace (snd (Notifications.checkItems env_mentions idle))) =
     executed (trace idle) ++ ["n1"; "n2"; "n3"] /\
   {["n1"; "n2"; "n3"]}
     ⊆ processedItems (snd (Notifications.checkItems env_mentions idle)) /\
   isProcessing (snd (Notifications.checkItems env_mentions idle)) = false) /\
  (forall n s0,
     (notification_id n ∈ processedItems s0) \/
     (memoryId env_mentions (notification_id n) ∈ memories s0) ->
     fst (Notifications.checkNotification env_mentions n s0) = Returned tt /\
     trace (snd (Notifications.checkNotification env_mentions n s0))
       = trace s0).
Proof.
  intros n1 n2 n3.
  apply (notifications_processed_oldest_first env_mentions idle n1 n2 n3).
  - intros k c. destruct c; discriminate.
  - intros k item. eexists. reflexivity.
  - reflexivity.
  - reflexivity.
  - intros n _. split; cbn; apply not_elem_of_empty.
  - apply (proj1 (bool_decide_eq_false _)). vm_compute. reflexivity.
  - apply (proj1 (bool_decide_eq_false _)). vm_compute. reflexivity.
Defined.

(** C5 as stated fails: when composing the decision for n2 throws, the error
    is caught and logged, the action executor is entered for n1 and n3 only,
    and n2 is not in the processed set afterwards. *)
Lemma failed_notification_is_not_marked :
  let s' := snd (Notifications.checkItems env_mentions_moody idle) in
  fst (Notifications.checkItems env_mentions_moody idle) = Returned tt /\
  executed (trace s') = ["n1"; "n3"] /\
  bool_decide ("n2" ∈ processedItems s') = false /\
  bool_decide ("n1" ∈ processedItems s') = true /\
  bool_decide ("n3" ∈ processedItems s') = true.
Proof. vm_compute. auto. Qed.

(** A notification whose id is also the id of the status of an earlier one
    is taken for processed: storing the status of "7" records "8". *)
Lemma colliding_notification_is_passed_over :
  let env := env_timeline [] in
  let batch := [mention "8" "9"; mention "7" "8"] in
  let s' := snd (for_of (rev batch) (Notifications.checkNotification env) idle) in
  executed (trace s') = ["7"].
Proof. vm_compute. reflexivity. Qed.

End NotificationScenario.

(** ** Token cipher *)

Section Codecs.
Import Encryption.

Lemma Z_of_byte_range b : 0 <= Z_of_byte b < 256.
Proof.
  unfold Z_of_byte. pose proof (Byte.to_N_bounded b). lia.
Qed.

Lemma Z_of_byte_of_Z z : 0 <= z < 256 -> Z_of_byte (byte_of_Z z) = z.
Proof.
  intros Hz. unfold Z_of_byte, byte_of_Z.
  destruct (Byte.of_N (Z.to_N z)) as [b|] eqn:Hb.
  - apply Byte.to_of_N in Hb. rewrite Hb. lia.
  - apply Byte.of_N_None_iff in Hb. lia.
Qed.

Lemma byte_of_Z_of_byte b : byte_of_Z (Z_of_byte b) = b.
Proof.
  unfold Z_of_byte, byte_of_Z. rewrite N2Z.id, Byte.of_to_N. reflexivity.
Qed.

Lemma unhex_hex_digit n : 0 <= n < 16 -> unhex (hex_digit n) = Some n.
Proof.
  intros Hn. unfold hex_digit, unhex.
  destruct (Z.ltb_spec n 10).
  - replace ((48 <=? 48 + n) && (48 + n <=? 57)) with true by (symmetry; apply andb_true_iff; lia).
    f_equal. lia.
  - replace ((48 <=? 87 + n) && (87 + n <=? 57)) with false by (symmetry; apply andb_false_iff; lia).
    replace ((97 <=? 87 + n) && (87 + n <=? 102)) with true by (symmetry; apply andb_true_iff; lia).
    f_equal. lia.
Qed.

Lemma from_hex_to_hex buf : from_hex (to_hex buf) = buf.
Proof.
  induction buf as [|b buf IH]; [reflexivity|].
  cbn [to_hex from_hex]. pose proof (Z_of_byte_range b) as Hb.
  assert (Hq : 0 <= Z_of_byte b / 16 < 16) by (Z.div_mod_to_equations; lia).
  assert (Hr : 0 <= Z_of_byte b mod 16 < 16) by (Z.div_mod_to_equations; lia).
  rewrite (unhex_hex_digit _ Hq), (unhex_hex_digit _ Hr).
  rewrite IH. f_equal.
  rewrite <- Z_div_mod_eq_full.
  apply byte_of_Z_of_byte.
Qed.

Lemma hex_digit_not_colon n : 0 <= n < 16 -> hex_digit n <> colon.
Proof.
  intros Hn. unfold hex_digit, colon. destruct (Z.ltb_spec n 10); lia.
Qed.

Lemma to_hex_no_colon buf : Forall (fun c => c <> colon) (to_hex buf).
Proof.
  induction buf as [|b buf IH]; [constructor|].
  cbn [to_hex]. pose proof (Z_of_byte_range b) as Hb.
  constructor; [|constructor; [|exact IH]]; apply hex_digit_not_colon.
  - Z.div_mod_to_equations; lia.
  - Z.div_mod_to_equations; lia.
Qed.

Lemma split_field (field rest : JsString) :
  Forall (fun c => c <> colon) field ->
  split (field ++ colon :: rest) = field :: split rest.
Proof.
  induction field as [|c field IH]; intros Hf.
  - cbn. reflexivity.
  - inversion Hf as [|? ? Hc Hf']; subst. cbn [app split].
    destruct (Z.eqb_spec c colon); [contradiction|].
    rewrite IH by exact Hf'. reflexivity.
Qed.

Lemma split_last (field : JsString) :
  Forall (fun c => c <> colon) field -> split field = [field].
Proof.
  induction field as [|c field IH]; intros Hf; [reflexivity|].
  inversion Hf as [|? ? Hc Hf']; subst. cbn [split].
  destruct (Z.eqb_spec c colon); [contradiction|].
  rewrite IH by exact Hf'. reflexivity.
Qed.

Ltac arith := Z.div_mod_to_equations; lia.

Ltac decide_test :=
  match goal with
  | |- context [?a <? ?b] =>
      first [ rewrite (proj2 (Z.ltb_lt a b)) by lia
            | rewrite (proj2 (Z.ltb_ge a b)) by lia ]
  | |- context [?a <=? ?b] =>
      first [ rewrite (proj2 (Z.leb_le a b)) by lia
            | rewrite (proj2 (Z.leb_gt a b)) by lia ]
  end.

Ltac decide_tests :=
  repeat (decide_test; cbv beta iota delta [andb negb orb]).

Lemma decode_one b0 rest :
  Z_of_byte b0 < 0x80 ->
  utf8_decode (b0 :: rest) = Z_of_byte b0 :: utf8_decode rest.
Proof.
  intros H0. cbn [utf8_decode]. by decide_tests.
Qed.

Lemma decode_two b0 b1 rest :
  0xC2 <= Z_of_byte b0 < 0xE0 -> 0x80 <= Z_of_byte b1 < 0xC0 ->
  utf8_decode (b0 :: b1 :: rest) =
    ((Z_of_byte b0 - 0xC0) * 64 + (Z_of_byte b1 - 0x80)) :: utf8_decode rest.
Proof.
  intros H0 H1. remember (b1 :: rest) as r0 eqn:Hr0.
  cbn [utf8_decode]. decide_tests. subst r0.
  cbv beta iota delta [continuation]. by decide_tests.
Qed.

Ltac decide_seconds :=
  cbv beta iota zeta delta [continuation second_ok second_lower second_upper];
  repeat match goal with
  | |- context [?a =? ?b] => destruct (Z.eqb_spec a b)
  end;
  decide_tests.

Lemma decode_three b0 b1 b2 rest cp :
  0xE0 <= Z_of_byte b0 < 0xF0 -> 0x80 <= Z_of_byte b1 < 0xC0 ->
  0x80 <= Z_of_byte b2 < 0xC0 ->
  cp = (Z_of_byte b0 - 0xE0) * 4096 + (Z_of_byte b1 - 0x80) * 64
       + (Z_of_byte b2 - 0x80) ->
  0x800 <= cp -> ~ (0xD800 <= cp <= 0xDFFF) ->
  utf8_decode (b0 :: b1 :: b2 :: rest) = cp :: utf8_decode rest.
Proof.
  intros H0 H1 H2 Hcp Hmin Hsur.
  assert (Hside : cp < 0xD800 \/ 0xDFFF < cp) by lia.
  remember (b1 :: b2 :: rest) as r0 eqn:Hr0.
  cbn [utf8_decode]. decide_tests. subst r0.
  remember (b2 :: rest) as r1 eqn:Hr1. cbv beta iota zeta.
  replace (second_ok (Z_of_byte b0) (Z_of_byte b1)) with true
    by (symmetry; destruct Hside; decide_seconds; reflexivity).
  subst r1. cbv beta iota zeta.
  replace (continuation (Z_of_byte b2)) with true
    by (symmetry; decide_seconds; reflexivity).
  by rewrite <- Hcp.
Qed.

Lemma decode_four b0 b1 b2 b3 rest cp :
  0xF0 <= Z_of_byte b0 < 0xF5 -> 0x80 <= Z_of_byte b1 < 0xC0 ->
  0x80 <= Z_of_byte b2 < 0xC0 -> 0x80 <= Z_of_byte b3 < 0xC0 ->
  cp = (Z_of_byte b0 - 0xF0) * 262144 + (Z_of_byte b1 - 0x80) * 4096
       + (Z_of_byte b2 - 0x80) * 64 + (Z_of_byte b3 - 0x80) ->
  0x10000 <= cp <= 0x10FFFF ->
  utf8_decode (b0 :: b1 :: b2 :: b3 :: rest) =
    (0xD800 + (cp - 0x10000) / 1024) :: (0xDC00 + (cp - 0x10000) mod 1024)
      :: utf8_decode rest.
Proof.
  intros H0 H1 H2 H3 Hcp Hrange.
  remember (b1 :: b2 :: b3 :: rest) as r0 eqn:Hr0.
  cbn [utf8_decode]. decide_tests. subst r0.
  remember (b2 :: b3 :: rest) as r1 eqn:Hr1. cbv beta iota zeta.
  replace (second_ok (Z_of_byte b0) (Z_of_byte b1)) with true
    by (symmetry; decide_seconds; reflexivity).
  subst r1. remember (b3 :: rest) as r2 eqn:Hr2. cbv beta iota zeta.
  replace (continuation (Z_of_byte b2)) with true
    by (symmetry; decide_seconds; reflexivity).
  subst r2. cbv beta iota zeta.
  replace (continuation (Z_of_byte b3)) with true
    by (symmetry; decide_seconds; reflexivity).
  by rewrite <- Hcp.
Qed.

(** A sequence that is cut short yields one U+FFFD for what was read of it,
    and a byte that may not follow the first byte is read again on its
    own. *)
Lemma cut_short_sequences :
  utf8_decode [Byte.xf0; Byte.x90; Byte.x80] = [0xFFFD] /\
  utf8_decode [Byte.xe2; Byte.x82; Byte.x41] = [0xFFFD; 0x41] /\
  utf8_decode [Byte.xe0; Byte.x80] = [0xFFFD; 0xFFFD] /\
  utf8_decode [Byte.xed; Byte.xa0; Byte.x80] = [0xFFFD; 0xFFFD; 0xFFFD].
Proof. vm_compute. auto. Qed.

Lemma utf8_roundtrip_aux (n : nat) :
  forall s, (length s <= n)%nat -> well_formed s = true ->
            utf8_decode (utf8_encode s) = s.
Proof.
  induction n as [|n IH]; intros s Hlen Hwf.
  - destruct s; [reflexivity|cbn in Hlen; lia].
  - destruct s as [|c rest]; [reflexivity|].
    cbn [well_formed] in Hwf. cbn [utf8_encode].
    destruct (is_high c) eqn:Hhigh.
    + destruct rest as [|d rest']; [discriminate|].
      apply andb_true_iff in Hwf as [Hlow Hwf].
      rewrite Hlow.
      unfold is_high, is_low in *.
      apply andb_true_iff in Hhigh as [Hh1 Hh2].
      apply andb_true_iff in Hlow as [Hl1 Hl2].
      apply Z.leb_le in Hh1, Hh2, Hl1, Hl2.
      destruct (Z.ltb_spec c 0x80); [lia|].
      destruct (Z.ltb_spec c 0x800); [lia|].
      set (cp := 0x10000 + (c - 0xD800) * 1024 + (d - 0xDC00)).
      assert (Hcp : 0x10000 <= cp <= 0x10FFFF) by (subst cp; lia).
      assert (Hc : 0xD800 + (cp - 0x10000) / 1024 = c) by (subst cp; arith).
      assert (Hd : 0xDC00 + (cp - 0x10000) mod 1024 = d) by (subst cp; arith).
      clearbody cp.
      rewrite (decode_four _ _ _ _ _ cp);
        rewrite ?Z_of_byte_of_Z by arith; try arith.
      rewrite Hc, Hd. rewrite (IH rest'); [reflexivity| |assumption].
      cbn in Hlen. lia.
    + apply andb_true_iff in Hwf as [Hwf Hrest].
      apply andb_true_iff in Hwf as [Hrange Hnl].
      apply andb_true_iff in Hrange as [Hr1 Hr2].
      apply Z.leb_le in Hr1, Hr2. apply negb_true_iff in Hnl.
      rewrite Hnl.
      unfold is_high, is_low in *.
      apply andb_false_iff in Hhigh. apply andb_false_iff in Hnl.
      rewrite !Z.leb_gt in Hhigh, Hnl.
      assert (IHrest : utf8_decode (utf8_encode rest) = rest)
        by (apply IH; [cbn in Hlen; lia|assumption]).
      destruct (Z.ltb_spec c 0x80).
      * rewrite decode_one; rewrite ?Z_of_byte_of_Z by lia; [|lia].
        by rewrite IHrest.
      * destruct (Z.ltb_spec c 0x800).
        -- rewrite decode_two; rewrite ?Z_of_byte_of_Z by arith; try arith.
           rewrite IHrest. f_equal. arith.
        -- rewrite (decode_three _ _ _ _ c);
             rewrite ?Z_of_byte_of_Z by arith; try arith.
           by rewrite IHrest.
Qed.

Theorem utf8_roundtrip s :
  well_formed s = true -> utf8_decode (utf8_encode s) = s.
Proof. apply (utf8_roundtrip_aux (length s)). lia. Qed.

End Codecs.

Section Roundtrip.
Import Encryption.
Context {cipher : AesGcm}.

Lemma split_encrypted (iv tag ct : Buffer) :
  split (to_hex iv ++ [colon] ++ to_hex tag ++ [colon] ++ to_hex ct)
  = [to_hex iv; to_hex tag; to_hex ct].
Proof.
  cbn [app]. rewrite split_field by apply to_hex_no_colon.
  rewrite split_field by apply to_hex_no_colon.
  rewrite split_last by apply to_hex_no_colon. reflexivity.
Qed.

(** Whatever the string, [decrypt] gives back what the UTF-8 codec makes of
    it: hex fields, separator and cipher lose nothing. *)
Lemma decrypt_encrypt_bytes key iv text :
  exists encrypted,
    encrypt (Some key) iv text = Returned encrypted /\
    decrypt (Some key) encrypted = Returned (utf8_decode (utf8_encode text)).
Proof.
  unfold encrypt. eexists. split; [reflexivity|].
  unfold decrypt. cbv zeta. rewrite split_encrypted.
  rewrite !from_hex_to_hex, open_seal. reflexivity.
Qed.

(** C10, as the code has it. For every cipher, key and nonce, and every
    string that is well-formed UTF-16 (no unpaired surrogate), [encrypt]
    returns a text of three hexadecimal fields iv:authTag:ciphertext, and
    [decrypt] of that text under the same key returns the original string. *)
Theorem decrypt_encrypt key iv text :
  well_formed text = true ->
  exists encrypted,
    encrypt (Some key) iv text = Returned encrypted /\
    decrypt (Some key) encrypted = Returned text.
Proof.
  intros Hwf. destruct (decrypt_encrypt_bytes key iv text) as (c & He & Hd).
  exists c. split; [exact He|]. by rewrite Hd, utf8_roundtrip.
Qed.

Lemma lone_surrogate_is_replaced key iv :
  exists encrypted,
    encrypt (Some key) iv [0xD800] = Returned encrypted /\
    decrypt (Some key) encrypted = Returned [0xFFFD].
Proof. apply (decrypt_encrypt_bytes key iv [0xD800]). Qed.
End Roundtrip.


Section RoundtripScenario.
Import Encryption.

Lemma decrypt_encrypt_witness :
  exists encrypted,
    @encrypt toy_cipher (Some a_key) an_iv a_token = Returned encrypted /\
    @decrypt toy_cipher (Some a_key) encrypted = Returned a_token.
Proof.
  apply (@decrypt_encrypt toy_cipher a_key an_iv a_token). reflexivity.
Defined.

(** C10 as stated fails: a string that consists of an unpaired surrogate
    comes back as U+FFFD. *)
Lemma unpaired_surrogate_does_not_round_trip :
  match @encrypt toy_cipher (Some a_key) an_iv [0xD800] with
  | Returned encrypted => @decrypt toy_cipher (Some a_key) encrypted
  | other => other
  end = Returned [0xFFFD].
Proof. vm_compute. reflexivity. Qed.

End RoundtripScenario.

(** ** Session: further properties of [init] and of requests *)

Section SessionEdges.
Import Base Session.

Lemma timer_backoff (j : nat) :
  timer_delay (backoff_delay (Z.of_nat j)) = wait_after j.
Proof.
  unfold timer_delay, backoff_delay, wait_after.
  rewrite (proj2 (Z.leb_le 0 (Z.of_nat j))) by lia.
  destruct (Nat.leb_spec j 21) as [Hj|Hj].
  - assert (H1 : 2 ^ Z.of_nat j <= 2 ^ 21)
      by (apply Z.pow_le_mono_r; lia).
    assert (H2 : 0 < 2 ^ Z.of_nat j) by (apply Z.pow_pos_nonneg; lia).
    change (2 ^ 21) with 2097152 in H1.
    rewrite (proj2 (Z.leb_le 1 _)) by lia.
    rewrite (proj2 (Z.leb_le _ 2147483647)) by lia.
    reflexivity.
  - assert (H1 : 2 ^ 22 <= 2 ^ Z.of_nat j)
      by (apply Z.pow_le_mono_r; lia).
    change (2 ^ 22) with 4194304 in H1.
    rewrite (proj2 (Z.leb_gt _ 2147483647)) by lia.
    by rewrite andb_false_r.
Qed.

Lemma backoff_events_attempts (m : nat) :
  forall j : nat,
    backoff_events (Z.of_nat (j + m)) m = failed_attempts j m.
Proof.
  induction m as [|m IH]; intros j; [reflexivity|].
  cbn [backoff_events failed_attempts].
  replace (Z.of_nat (j + S m) - Z.of_nat (S m)) with (Z.of_nat j) by lia.
  rewrite timer_backoff.
  replace (j + S m)%nat with (S j + m)%nat by lia.
  by rewrite IH.
Qed.

(** Whatever the retry limit [n + 1], up to 2^53: when the lookup in the
    registry finds no client for the user name, there is no usable cached
    session and [n + 1] logins fail, [init] logs in [n + 1] times, waits
    after each failed attempt but the last, and throws the exhaustion error
    after the last one without waiting again. The wait after the [j]-th
    attempt is [2^j] seconds up to the 21st and 1 ms from the 22nd on. *)
Theorem init_backoff_any_limit env s fuel (n : nat) :
  TRUTHSOCIAL_RETRY_LIMIT env = Z.of_nat (S n) ->
  Z.of_nat (S n) <= 2 ^ 53 ->
  has_client s (TRUTHSOCIAL_USERNAME env) = false ->
  cached_session_valid env s = false ->
  (forall i, (i <= n)%nat -> login_fails env (logins s + i) = true) ->
  (n < fuel)%nat ->
  exists s',
    init env fuel s =
      (Thrown (Error "Truth Social login failed after maximum retries"), s')
    /\ logins s' = (logins s + S n)%nat
    /\ events s' = events s ++ cache_events env s ++ failed_attempts 1 n.
Proof.
  intros Hlimit _ Hnew Hcache Hfail Hfuel.
  unfold init. unfold bind at 1, get at 1.
  rewrite Hnew.
  unfold bind at 1, getCachedToken at 1.
  unfold cached_session_valid, cache_events in *.
  assert (Hloop : forall s2, logins s2 = logins s ->
    exists s', init_loop env fuel (TRUTHSOCIAL_RETRY_LIMIT env) s2 =
      (Thrown (Error "Truth Social login failed after maximum retries"), s')
      /\ logins s' = (logins s + S n)%nat
      /\ events s' = events s2 ++ failed_attempts 1 n).
  { intros s2 Hs2.
    destruct (init_loop_exhausts env n fuel s2) as (s' & Hs' & Hl & He).
    - intros i Hi. rewrite Hs2. apply Hfail. lia.
    - lia.
    - exists s'. rewrite Hlimit in *. split; [exact Hs'|]. split; [lia|].
      rewrite He. f_equal. apply (backoff_events_attempts n 1). }
  destruct (truthy_opt (cached_token env (cache_reads s))) eqn:Hc.
  - cbn in Hcache.
    unfold bind at 1. unfold bind at 1, modify at 1.
    unfold bind at 1, validateSession.
    cbn [set_token authToken emit]. rewrite Hc.
    cbn [probes set_token emit authToken].
    rewrite Hcache. unfold ret at 1.
    match goal with |- context [init_loop _ _ _ ?x] =>
      destruct (Hloop x) as (s' & Hs' & Hl & He); [reflexivity|] end.
    exists s'. split; [exact Hs'|]. split; [exact Hl|].
    rewrite He. cbn. rewrite <- !app_assoc. reflexivity.
  - unfold bind at 1, ret at 1.
    match goal with |- context [init_loop _ _ _ ?x] =>
      destruct (Hloop x) as (s' & Hs' & Hl & He); [reflexivity|] end.
    exists s'. split; [exact Hs'|]. split; [exact Hl|].
    rewrite He. cbn. rewrite <- !app_assoc. reflexivity.
Qed.

Lemma init_loop_no_attempts env fuel retries s :
  retries <= 0 -> init_loop env fuel retries s = (Returned tt, s).
Proof.
  intros H. assert (Hz : (0 <? retries) = false) by (apply Z.ltb_ge; lia).
  destruct fuel; cbn [init_loop]; rewrite Hz; reflexivity.
Qed.

(** With a retry limit of zero or less the login loop is not entered: when
    the lookup in the registry finds no client for the user name and there
    is no cached session that validates, [init] returns without an error,
    having attempted no login and registered no client; the token is the
    cached one if there was one, and as before otherwise. *)
Theorem init_without_attempts env s fuel :
  TRUTHSOCIAL_RETRY_LIMIT env <= 0 ->
  has_client s (TRUTHSOCIAL_USERNAME env) = false ->
  cached_session_valid env s = false ->
  exists s',
    init env fuel s = (Returned tt, s')
    /\ logins s' = logins s
    /\ clients s' = clients s
    /\ authToken s' =
         (if truthy_opt (cached_token env (cache_reads s))
          then cached_token env (cache_reads s) else authToken s).
Proof.
  intros Hlimit Hnew Hcache.
  unfold init. unfold bind at 1, get at 1.
  rewrite Hnew.
  unfold bind at 1, getCachedToken at 1.
  unfold cached_session_valid in *.
  destruct (truthy_opt (cached_token env (cache_reads s))) eqn:Hc.
  - cbn in Hcache.
    unfold bind at 1. unfold bind at 1, modify at 1.
    unfold bind at 1, validateSession.
    cbn [set_token authToken emit]. rewrite Hc.
    cbn [probes set_token emit authToken].
    rewrite Hcache. unfold ret at 1.
    rewrite init_loop_no_attempts by exact Hlimit.
    eexists. split; [reflexivity|]. cbn. auto.
  - unfold bind at 1, ret at 1.
    rewrite init_loop_no_attempts by exact Hlimit.
    eexists. split; [reflexivity|]. cbn. auto.
Qed.

Lemma init_registered env fuel s :
  has_client s (TRUTHSOCIAL_USERNAME env) = true ->
  init env fuel s = (Returned tt, s).
Proof.
  intros Hin. unfold init, bind, get. by rewrite Hin.
Qed.

Lemma has_client_own s username :
  username ∈ clients s -> has_client s username = true.
Proof.
  intros Hin. unfold has_client. by rewrite bool_decide_eq_true_2 by exact Hin.
Qed.

Lemma has_client_inherited s username :
  username ∈ Object_prototype -> has_client s username = true.
Proof.
  intros Hin. unfold has_client.
  rewrite (bool_decide_eq_true_2 (username ∈ Object_prototype)) by exact Hin.
  apply orb_true_r.
Qed.

(** [cleanup] clears the token and leaves the registry alone, so a client
    that had been initialised can make no request afterwards: [init] finds
    the registry entry and returns at once, and the request is refused with
    no login and no fetch. *)
Theorem no_request_after_cleanup env fuel req s :
  TRUTHSOCIAL_USERNAME env ∈ clients s ->
  let s' := snd (cleanup true s) in
  makeAuthenticatedRequest env (S fuel) req s' =
    (Thrown (Error "Not authenticated - failed to obtain auth token"), s').
Proof.
  intros Hin s'. subst s'. cbn [cleanup modify snd].
  cbn [makeAuthenticatedRequest]. unfold bind at 1, get at 1.
  cbn [authToken set_token truthy_opt].
  unfold bind at 1. unfold bind at 1.
  rewrite init_registered by (apply has_client_own; exact Hin).
  unfold bind at 1, get at 1. cbn [authToken set_token truthy_opt]. reflexivity.
Qed.

(** A user name that names a property of [Object.prototype], such as
    [constructor] or [toString], can never be authenticated: the lookup in
    the registry finds the inherited property, so [init] returns at once,
    and a request made without a token is refused with no login and no
    fetch. *)
Theorem inherited_name_is_never_authenticated env fuel req s :
  TRUTHSOCIAL_USERNAME env ∈ Object_prototype ->
  truthy_opt (authToken s) = false ->
  init env fuel s = (Returned tt, s) /\
  makeAuthenticatedRequest env (S fuel) req s =
    (Thrown (Error "Not authenticated - failed to obtain auth token"), s).
Proof.
  intros Hin Htok.
  assert (Hinit : forall f, init env f s = (Returned tt, s))
    by (intros f; apply init_registered, has_client_inherited, Hin).
  split; [apply Hinit|].
  cbn [makeAuthenticatedRequest]. unfold bind at 1, get at 1.
  rewrite Htok. unfold bind at 1. unfold bind at 1.
  rewrite Hinit.
  unfold bind at 1, get at 1. by rewrite Htok.
Qed.

Lemma login_returns env s s' :
  login env s = (Returned tt, s') -> truthy_opt (authToken s') = true /\ clients s' = clients s.
Proof.
  unfold login. destruct (login_result env (logins s)) as [t|e [t|]]; try discriminate.
  destruct (truthy t) eqn:Ht; [|discriminate].
  intros [= <-]. cbn. auto.
Qed.

Lemma init_loop_returns env fuel :
  forall retries s s',
  0 < retries ->
  init_loop env fuel retries s = (Returned tt, s') ->
  TRUTHSOCIAL_USERNAME env ∈ clients s' /\ truthy_opt (authToken s') = true.
Proof.
  induction fuel as [|fuel IH]; intros retries s s' Hpos.
  - cbn [init_loop]. apply Z.ltb_lt in Hpos. rewrite Hpos. discriminate.
  - cbn [init_loop]. pose proof Hpos as Hpos'. apply Z.ltb_lt in Hpos'. rewrite Hpos'.
    destruct (login env s) as [[[]|e|] s1] eqn:Hlogin.
    + destruct (login_returns env s s1 Hlogin) as [Ht _]. rewrite Ht.
      intros [= <-]. cbn. split; [set_solver|exact Ht].
    + destruct (retries - 1 =? 0) eqn:Hz; [discriminate|].
      unfold bind, sleep, modify. apply IH.
      apply Z.eqb_neq in Hz. lia.
    + discriminate.
Qed.

(** With a positive retry limit, whenever [init] returns for a user name
    that the lookup in the registry found no client for, the client is
    registered and holds a token. *)
Theorem init_returns_authenticated env fuel s s' :
  0 < TRUTHSOCIAL_RETRY_LIMIT env ->
  has_client s (TRUTHSOCIAL_USERNAME env) = false ->
  init env fuel s = (Returned tt, s') ->
  TRUTHSOCIAL_USERNAME env ∈ clients s' /\ truthy_opt (authToken s') = true.
Proof.
  intros Hlimit Hnew.
  unfold init. unfold bind at 1, get at 1.
  rewrite Hnew.
  unfold bind at 1, getCachedToken at 1.
  destruct (truthy_opt (cached_token env (cache_reads s))) eqn:Hc.
  - unfold bind at 1. unfold bind at 1, modify at 1.
    unfold bind at 1, validateSession.
    cbn [set_token authToken emit]. rewrite Hc.
    cbn [probes set_token emit authToken].
    destruct (probe_ok env (probes s) _).
    + unfold bind, modify, ret. intros [= <-]. cbn. split; [set_solver|exact Hc].
    + unfold ret at 1. apply init_loop_returns, Hlimit.
  - unfold bind at 1, ret at 1. apply init_loop_returns, Hlimit.
Qed.


Lemma init_loop_throws env fuel :
  forall retries s e s',
  init_loop env fuel retries s = (Thrown e, s') -> err_response e = None.
Proof.
  induction fuel as [|fuel IH]; intros retries s e s'; cbn [init_loop].
  - destruct (0 <? retries); discriminate.
  - destruct (0 <? retries); [|discriminate].
    destruct (login env s) as [[[]|e1|] s1].
    + destruct (truthy_opt (authToken s1)); [discriminate|apply IH].
    + destruct (retries - 1 =? 0).
      * intros [= <- _]. reflexivity.
      * unfold bind, sleep, modify. apply IH.
    + discriminate.
Qed.

Lemma init_throws env fuel s e s' :
  init env fuel s = (Thrown e, s') -> err_response e = None.
Proof.
  unfold init. unfold bind at 1, get at 1.
  destruct (has_client _ _); [discriminate|].
  unfold bind at 1, getCachedToken at 1.
  destruct (truthy_opt (cached_token env (cache_reads s))) eqn:Hc.
  - unfold bind at 1. unfold bind at 1, modify at 1.
    unfold bind at 1, validateSession.
    cbn [set_token authToken emit]. rewrite Hc.
    destruct (probe_ok env _ _).
    + discriminate.
    + unfold ret at 1. apply init_loop_throws.
  - unfold bind at 1, ret at 1. apply init_loop_throws.
Qed.

Lemma login_throws env s e s' :
  plain_failures env ->
  login env s = (Thrown e, s') -> err_response e = None.
Proof.
  intros [_ Hl]. unfold login.
  destruct (login_result env (logins s)) as [t|e1 [t|]] eqn:Hr.
  - destruct (truthy t); [discriminate|]. intros [= <- _]. reflexivity.
  - intros [= <- _]. eapply Hl, Hr.
  - intros [= <- _]. eapply Hl, Hr.
Qed.

(** An error that comes out of [makeAuthenticatedRequest] has no
    [response] property, unless the transport or the login exchange threw
    one that has: the errors built for failed responses and for failed
    authentication are plain. The classifier of the action executors
    therefore rejects every such error, whatever the status and the body of
    the response were. *)
Theorem request_errors_are_not_group_errors env :
  plain_failures env ->
  forall fuel req s e s',
    makeAuthenticatedRequest env fuel req s = (Thrown e, s') ->
    err_response e = None /\ Monitor.isGroupError e = false.
Proof.
  intros Hplain.
  assert (G : forall fuel req s e s',
    makeAuthenticatedRequest env fuel req s = (Thrown e, s') ->
    err_response e = None).
  { induction fuel as [|fuel IH]; intros req s e s'; [discriminate|].
    cbn [makeAuthenticatedRequest]. unfold bind at 1, get at 1.
    unfold bind at 1.
    assert (Hfetch : forall s0,
      try_catch
        (response <- fetch env req ;;
         match response with
         | TransportThrows e0 => throw e0
         | Response status data =>
             if negb (ok status)
             then if status =? 401
                  then login env ;;; makeAuthenticatedRequest env fuel req
                  else throw (request_failed env status data)
             else ret data
         end) (fun error => throw error) s0 = (Thrown e, s') ->
      err_response e = None).
    { intros s0. unfold try_catch, bind at 1, fetch.
      destruct (transport env (fetches s0) req _) as [status data|e0] eqn:Ht.
      - destruct (negb (ok status)).
        + destruct (status =? 401).
          * unfold bind. destruct (login env _) as [[[]|e1|] s1] eqn:Hl.
            -- destruct (makeAuthenticatedRequest env fuel req s1)
                 as [[a|e2|] s2] eqn:Hm; try discriminate.
               unfold throw. intros [= <- _]. eapply IH, Hm.
            -- unfold throw. intros [= <- _]. eapply login_throws; eauto.
            -- discriminate.
          * unfold throw. intros [= <- _]. reflexivity.
        + discriminate.
      - unfold throw. intros [= <- _]. destruct Hplain as [Hp _]. eapply Hp, Ht. }
    destruct (truthy_opt (authToken s)).
    - unfold ret at 1. apply Hfetch.
    - unfold bind at 1.
      destruct (init env fuel s) as [[[]|e1|] s1] eqn:Hi.
      + unfold bind at 1, get at 1.
        destruct (truthy_opt (authToken s1)).
        * unfold ret at 1. apply Hfetch.
        * unfold throw. intros [= <- _]. reflexivity.
      + intros [= <- _]. eapply init_throws, Hi.
      + discriminate. }
  intros fuel req s e s' H. pose proof (G _ _ _ _ _ H) as Hn.
  split; [exact Hn|]. unfold Monitor.isGroupError. by rewrite Hn.
Qed.

End SessionEdges.

(** ** Timeline feed: what the action executor is entered for *)

Section GuardFrames.
Import Monitor Guard.

Lemma handled_app a b : handled (a ++ b) = handled a ++ handled b.
Proof. apply omap_app. Qed.

#[export] Instance quiet_preorder : PreOrder quiet.
Proof.
  split.
  - intros s. split; [done|]. split; [done|]. exists []. by rewrite app_nil_r.
  - intros s1 s2 s3 (Ha & Hm & l1 & Ht1 & Hl1) (Ha' & Hm' & l2 & Ht2 & Hl2).
    split; [congruence|]. split; [congruence|].
    exists (l1 ++ l2). rewrite Ht2, Ht1, app_assoc. split; [done|].
    by rewrite handled_app, Hl1, Hl2.
Qed.

#[export] Instance guarded_preorder env P : PreOrder (guarded env P).
Proof.
  split.
  - intros s. split; [done|]. split; [done|]. exists []. rewrite app_nil_r.
    split; [done|constructor].
  - intros s1 s2 s3 (Ha & Hm & l1 & Ht1 & Hl1) (Ha' & Hm' & l2 & Ht2 & Hl2).
    split; [by etrans|]. split; [by etrans|].
    exists (l1 ++ l2). rewrite Ht2, Ht1, app_assoc. split; [done|].
    rewrite handled_app. apply Forall_app. split; [exact Hl1|].
    eapply Forall_impl; [exact Hl2|]. cbn. intros id (HP & Hx & Hy).
    split; [exact HP|]. split; set_solver.
Qed.

Lemma quiet_guarded env P s s' : quiet s s' -> guarded env P s s'.
Proof.
  intros (Ha & Hm & l & Ht & Hl). split; [by rewrite Ha|]. split; [by rewrite Hm|].
  exists l. split; [done|]. rewrite Hl. constructor.
Qed.

(** A step that adds one event other than an entry into the executor, and
    leaves the two sets alone or grows them. *)
Lemma guarded_step env P s s' l :
  actedOnPosts s ⊆ actedOnPosts s' -> memories s ⊆ memories s' ->
  trace s' = trace s ++ l -> handled l = [] -> guarded env P s s'.
Proof.
  intros Ha Hm Ht Hl. split; [done|]. split; [done|]. exists l.
  split; [done|]. rewrite Hl. constructor.
Qed.

Variable env : Env.
Variable P : string -> Prop.

Lemma guarded_request c : preserves (guarded env P) (makeAuthenticatedRequest env c).
Proof. intros s. by apply (guarded_step _ _ _ _ [EvRequest c]). Qed.

Lemma guarded_generate p a : preserves (guarded env P) (generateContent env p a).
Proof. intros s. by apply (guarded_step _ _ _ _ [EvGenerateContent a (post_id p)]). Qed.

Lemma guarded_decide i : preserves (guarded env P) (generateTweetActions env i).
Proof. intros s. by apply (guarded_step _ _ _ _ [EvDecide i]). Qed.

Lemma guarded_describe url : preserves (guarded env P) (modify (emit (EvDescribeImage url))).
Proof. intros s. by apply (guarded_step _ _ _ _ [EvDescribeImage url]). Qed.

Lemma guarded_actedOn i : preserves (guarded env P) (modify (add_actedOn i)).
Proof.
  intros s. apply (guarded_step _ _ _ _ []); cbn; rewrite ?app_nil_r; set_solver.
Qed.

Lemma guarded_processed i : preserves (guarded env P) (modify (add_processed i)).
Proof. intros s. apply (guarded_step _ _ _ _ []); cbn; by rewrite ?app_nil_r. Qed.

Lemma guarded_lastChecked u i : preserves (guarded env P) (modify (set_lastChecked u i)).
Proof. intros s. apply (guarded_step _ _ _ _ []); cbn; by rewrite ?app_nil_r. Qed.

Lemma guarded_processContent c : preserves (guarded env P) (processContent env c).
Proof.
  unfold processContent. destruct (blank c).
  - by apply (preserves_ret (guarded env P)).
  - intros s. apply (guarded_step _ _ _ _ []); cbn; by rewrite ?app_nil_r.
Qed.

Lemma guarded_getMemoryById m : preserves (guarded env P) (getMemoryById m).
Proof. intros s. reflexivity. Qed.

Lemma guarded_createMemory m : preserves (guarded env P) (createMemory m).
Proof.
  intros s. apply (guarded_step _ _ _ _ [EvCreateMemory m]); cbn; set_solver.
Qed.

End GuardFrames.

Ltac guarding env P :=
  structure (@preserves_bind Monitor.State (Guard.guarded env P) _)
    (@preserves_try Monitor.State (Guard.guarded env P) _)
    (@preserves_ret Monitor.State (Guard.guarded env P) _)
    (@preserves_throw Monitor.State (Guard.guarded env P) _)
    (@preserves_get Monitor.State (Guard.guarded env P) _)
    (@preserves_for_of Monitor.State (Guard.guarded env P) _);
  auto using guarded_request, guarded_generate, guarded_decide, guarded_describe,
    guarded_actedOn, guarded_processed, guarded_lastChecked,
    guarded_processContent, guarded_getMemoryById, guarded_createMemory.

Section GuardMethods.
Import Monitor Guard.
Variable env : Env.
Variable P : string -> Prop.

Lemma guarded_storeInMemory i c : preserves (guarded env P) (storeInMemory env i c).
Proof. unfold storeInMemory. guarding env P. Qed.

Lemma guarded_processMediaAttachments l :
  preserves (guarded env P) (processMediaAttachments l).
Proof. unfold processMediaAttachments. guarding env P. Qed.

Lemma guarded_getUserTimeline u : preserves (guarded env P) (Search.getUserTimeline env u).
Proof. unfold Search.getUserTimeline. guarding env P. Qed.


Lemma hoare_preserves {A} (R : relation State) `{!PreOrder R} (m : M State A) s0 :
  preserves R m -> Order.hoare (R s0) m (R s0).
Proof. intros Hm s Hs. etrans; [exact Hs|apply Hm]. Qed.

Lemma quiet_decide i : preserves quiet (generateTweetActions env i).
Proof.
  intros s. split; [done|]. split; [done|]. by exists [EvDecide i].
Qed.

Lemma quiet_processMediaAttachments l : preserves quiet (processMediaAttachments l).
Proof.
  unfold processMediaAttachments. apply (preserves_for_of quiet). intros media.
  destruct (String.eqb _ _); [|by apply (preserves_ret quiet)].
  intros s. split; [done|]. split; [done|]. by exists [EvDescribeImage (media_url media)].
Qed.

Lemma guarded_search_handlePostActions post acts s0 :
  P (post_id post) ->
  post_id post ∉ actedOnPosts s0 ->
  memoryId env (post_id post) ∉ memories s0 ->
  Order.hoare (quiet s0) (Search.handlePostActions env post acts) (guarded env P s0).
Proof.
  intros HP Ha Hm s (Hqa & Hqm & l & Hql & Hqh).
  unfold Search.handlePostActions. unfold bind at 1, modify at 1.
  assert (Hentry : guarded env P s0 (emit (EvHandlePostActions (post_id post)) s)).
  { split; [by rewrite <- Hqa|]. split; [by rewrite <- Hqm|].
    exists (l ++ [EvHandlePostActions (post_id post)]). cbn [trace emit].
    rewrite Hql, app_assoc. split; [done|].
    rewrite handled_app, Hqh. cbn. repeat constructor; assumption. }
  etrans; [exact Hentry|].
  match goal with |- guarded _ _ ?s1 (snd (?m ?s1)) =>
    assert (Hrest : preserves (guarded env P) m); [|apply Hrest] end.
  guarding env P.
Qed.

Lemma try_ret_state {S A} (m : M S A) (a : A) s :
  snd (try_catch m (fun _ => ret a) s) = snd (m s).
Proof. unfold try_catch. destruct (m s) as [[x|e|] s1]; reflexivity. Qed.

Lemma guarded_processPost post u b :
  (b = true -> P (post_id post)) ->
  preserves (guarded env P) (Search.processPost env post u b).
Proof.
  intros HP s. unfold Search.processPost.
  rewrite try_ret_state.
  unfold bind at 1, getMemoryById at 1, bind at 1, get at 1, ret at 1.
  destruct (bool_decide (memoryId env (post_id post) ∈ memories s)) eqn:Hmem.
  { apply guarded_processed. }
  apply bool_decide_eq_false in Hmem.
  unfold bind at 1, get at 1.
  destruct b; cbn [andb];
    [destruct (bool_decide (post_id post ∈ actedOnPosts s)) eqn:Hacted|];
    cbn [negb].
  2:{ apply bool_decide_eq_false in Hacted.
      revert s Hmem Hacted. 
      intros s Hmem Hacted.
      eapply (hoare_bind (quiet s) (guarded env P s) (guarded env P s));
        [| |auto|reflexivity].
      - eapply (hoare_bind (quiet s) (quiet s) (guarded env P s)).
        + destruct (TRUTHSOCIAL_PROCESS_IMAGES env).
          * apply (hoare_preserves quiet), quiet_processMediaAttachments.
          * apply hoare_ret. auto.
        + intros _.
          eapply (hoare_bind (quiet s) (quiet s) (guarded env P s)).
          * apply (hoare_preserves quiet), quiet_decide.
          * intros acts.
            eapply (hoare_bind (quiet s) (guarded env P s) (guarded env P s)).
            -- apply guarded_search_handlePostActions; auto.
            -- intros executed. apply (hoare_preserves (guarded env P)).
               destruct executed; [by apply (preserves_ret (guarded env P))|].
               apply guarded_actedOn.
            -- auto.
          * apply quiet_guarded.
        + apply quiet_guarded.
      - intros _. apply (hoare_preserves (guarded env P)), guarded_storeInMemory. }
  - match goal with |- guarded _ _ ?s1 (snd (?m ?s1)) =>
      assert (Hrest : preserves (guarded env P) m); [|apply Hrest] end.
    guarding env P. apply guarded_storeInMemory.
  - match goal with |- guarded _ _ ?s1 (snd (?m ?s1)) =>
      assert (Hrest : preserves (guarded env P) m); [|apply Hrest] end.
    guarding env P. apply guarded_storeInMemory.
Qed.

End GuardMethods.

Section GuardClaim.
Import Monitor Guard.

(** In one poll of a target user the action executor is entered only for
    posts whose id is above the watermark that the user had when the poll
    began, and that were then neither in the acted-on set nor in the message
    store. On first contact it is entered for none. *)
Theorem poll_acts_only_above_watermark env u s :
  exists new,
    trace (snd (Search.checkUser env u s)) = trace s ++ new /\
    Forall (fun id => above_watermark s u id
                      /\ (id ∉ actedOnPosts s)
                      /\ (memoryId env id ∉ memories s)) (handled new).
Proof.
  enough (guarded env (above_watermark s u) s (snd (Search.checkUser env u s)))
    as (_ & _ & H) by exact H.
  unfold Search.checkUser. rewrite try_ret_state.
  unfold bind at 1, get at 1.
  match goal with |- guarded _ ?P ?s1 (snd (?m ?s1)) =>
    assert (Hrest : preserves (guarded env P) m); [|apply Hrest] end.
  apply (preserves_bind (guarded env _)); [apply guarded_getUserTimeline|].
  intros [|first rest]; [by apply (preserves_ret (guarded env _))|].
  apply (preserves_bind (guarded env _)); [|intros _; apply guarded_lastChecked].
  destruct (lastCheckedPosts s !! u) as [last|] eqn:Hlast; cbn [truthy_opt default].
  - destruct (truthy last) eqn:Htruthy; cbn [negb].
    + apply (preserves_for_of (guarded env _)). intros post.
      apply guarded_processPost. intros Hnew. exists last. auto.
    + apply (preserves_for_of (guarded env _)). intros post.
      apply guarded_processPost. discriminate.
  - apply (preserves_for_of (guarded env _)). intros post.
    apply guarded_processPost. discriminate.
Qed.

End GuardClaim.

(** ** Action executors: the group restriction under plain errors *)

Section GateReach.
Import Monitor Ledger Guard Examples.

Lemma isGroupError_plain e : err_response e = None -> isGroupError e = false.
Proof. intros H. unfold isGroupError. by rewrite H. Qed.

Ltac executor_step :=
  cbn [requests generations emit next_request next_generation fst snd
       negb andb orb trace].

Ltac run_request Hplain Hans :=
  match goal with
  | |- context [request ?env ?k ?c] =>
      let H := fresh "Hreq" in
      destruct (request env k c) as [?|?|] eqn:H;
      [ | rewrite ?(isGroupError_plain _ (Hplain _ _ _ H))
        | exfalso; exact (Hans _ _ H) ]
  end.

Ltac run_executor Hplain Hans :=
  executor_step;
  repeat (run_request Hplain Hans; executor_step);
  repeat match goal with
  | |- context [truthy_opt ?g] =>
      destruct (truthy_opt g); executor_step;
      repeat (run_request Hplain Hans; executor_step)
  end;
  rewrite <- ?app_assoc; (eexists; split; [reflexivity|]);
  cbn; split; intros; try discriminate; set_solver.

(** When no error of a request has a [response] property, as is the case
    with the request layer of this client, [SearchClient.handlePostActions]
    takes no failure for a group restriction: whatever becomes of the
    favourite and of the reblog, the text of a quote is generated whenever
    the decision asks for a quote, and that of a reply whenever it asks for
    a reply. *)
Theorem search_gate_never_fires env post acts s :
  plain_requests env -> answering env ->
  exists new,
    trace (snd (Search.handlePostActions env post acts s)) = trace s ++ new /\
    (quote acts = true -> EvGenerateContent "QUOTE" (post_id post) ∈ new) /\
    (reply acts = true -> EvGenerateContent "REPLY" (post_id post) ∈ new).
Proof.
  intros Hplain Hans.
  unfold Search.handlePostActions, bind, modify, try_catch, ret,
    makeAuthenticatedRequest, generateContent.
  destruct (favourite acts), (reblog acts), (quote acts), (reply acts);
    run_executor Hplain Hans.
Qed.

(** Nor does [ClientBase.handlePostActions]. *)
Theorem base_gate_never_fires env post acts s :
  plain_requests env -> answering env ->
  exists new,
    trace (snd (BaseActions.handlePostActions env post acts s))
      = trace s ++ new /\
    (quote acts = true -> EvGenerateContent "QUOTE" (post_id post) ∈ new) /\
    (reply acts = true -> EvGenerateContent "REPLY" (post_id post) ∈ new).
Proof.
  intros Hplain Hans.
  unfold BaseActions.handlePostActions, bind, modify, try_catch, ret,
    makeAuthenticatedRequest, generateContent.
  destruct (favourite acts), (reblog acts), (quote acts), (reply acts);
    run_executor Hplain Hans.
Qed.

(** The reblog is refused with a 404 that names the group error: all three
    executors go on to quote and reply. *)
Lemma refused_reblog_does_not_gate :
  fst (Search.handlePostActions env_reblog_refused a_post all_actions idle)
    = Returned ["FAVOURITE"; "QUOTE"; "REPLY"] /\
  fst (BaseActions.handlePostActions env_reblog_refused a_post all_actions idle)
    = Returned ["FAVOURITE"; "QUOTE"; "REPLY"] /\
  fst (Monitor.handlePostActions env_reblog_refused a_post all_actions idle)
    = Returned ["FAVOURITE"; "QUOTE"; "REPLY"].
Proof. vm_compute. auto. Qed.

End GateReach.

(** ** Both feeds: the processing flag *)

Section FlagRelease.
Import Monitor Ledger.



Variable env : Env.
Hypothesis Hsettling : settling env.




End FlagRelease.

Section FlagReleaseClaims.
Import Monitor Ledger.



End FlagReleaseClaims.

(** ** Notification feed: notifications without a status *)

Section BareNotification.
Import Monitor Ledger Store.

#[export] Instance store_kept_preorder : PreOrder store_kept.
Proof. split; [done|]. intros s1 s2 s3 H1 H2. unfold store_kept in *. congruence. Qed.

Variable env : Env.

Lemma store_kept_request c : preserves store_kept (makeAuthenticatedRequest env c).
Proof. by intros s. Qed.

Lemma store_kept_decide i : preserves store_kept (generateTweetActions env i).
Proof. by intros s. Qed.

Lemma store_kept_modify f :
  (forall s, memories (f s) = memories s) -> preserves store_kept (modify f).
Proof. intros H s. apply H. Qed.

Lemma store_kept_getMemoryById m : preserves store_kept (getMemoryById m).
Proof. by intros s. Qed.

Lemma store_kept_bare_notification n :
  notification_status n = None ->
  preserves store_kept (Notifications.checkNotification env n).
Proof.
  destruct n as [nid ty [p|] acc]; [discriminate|]. intros _.
  unfold Notifications.checkNotification, Notifications.handleNotification,
    Notifications.formatNotificationForLLM,
    Notifications.executeNotificationActions,
    Notifications.storeNotificationMemory, storeInMemory.
  cbn [notification_status notification_id notification_type
       notification_account blank].
  structure (@preserves_bind Monitor.State store_kept _)
    (@preserves_try Monitor.State store_kept _)
    (@preserves_ret Monitor.State store_kept _)
    (@preserves_throw Monitor.State store_kept _)
    (@preserves_get Monitor.State store_kept _)
    (@preserves_for_of Monitor.State store_kept _);
  auto using store_kept_request, store_kept_decide, store_kept_getMemoryById;
  by apply store_kept_modify.
Qed.

End BareNotification.

Section BareNotificationClaim.
Import Monitor Ledger Store.

(** A notification without a status that has not been seen is handled, and
    nothing is written to the message store for it: the only record of it is
    its id in the processed set of the running instance. *)
Theorem bare_notification_leaves_no_memory env n s :
  answering env -> deciding env ->
  notification_status n = None ->
  unseen env s n ->
  exists s',
    Notifications.checkNotification env n s = (Returned tt, s') /\
    executed (trace s') = executed (trace s) ++ [notification_id n] /\
    memories s' = memories s /\
    processedItems s' = {[notification_id n]} ∪ processedItems s.
Proof.
  intros Hans Hdec Hbare [Hp Hm].
  pose proof (store_kept_bare_notification env n Hbare s) as Hkept.
  destruct (checkNotification_fresh env Hans Hdec n s Hp Hm)
    as (s' & Heq & Hb & He & Hin).
  rewrite Heq in Hkept. exists s'. split; [exact Heq|]. split; [exact He|].
  split; [exact Hkept|].
  destruct Hb as (_ & _ & Hsub & Hsup & _). unfold touched in Hsup.
  rewrite Hbare in Hsup. set_solver.
Qed.

End BareNotificationClaim.

(** ** Outbox: order and length of the queue *)

Section OutboxLaws.
Import Post Outbox.

Lemma attempted_app a b : attempted (a ++ b) = attempted a ++ attempted b.
Proof. apply omap_app. Qed.

(** A firing of the posting timer whose draft succeeds appends the draft to
    the queue and hands the oldest entry of the queue to [createPost]: that
    entry leaves the queue when it is posted, and stays at the head when
    posting throws. *)
Theorem firing_sends_the_oldest_entry env s text :
  isPosting s = true ->
  drafted env (drafts s) = Returned text ->
  exists head rest,
    postQueue s ++ [drafted_entry text] = head :: rest /\
    attempted (trace (snd (onPostInterval env s)))
      = attempted (trace s) ++ [head] /\
    match created env (creations s) head with
    | Returned _ => postQueue (snd (onPostInterval env s)) = rest
    | Thrown _ => postQueue (snd (onPostInterval env s)) = head :: rest
    | OutOfFuel => True
    end.
Proof.
  intros Hposting Hdraft.
  destruct (postQueue s ++ [drafted_entry text]) as [|head rest] eqn:Hq.
  { destruct (postQueue s); discriminate. }
  exists head, rest. split; [reflexivity|].
  unfold onPostInterval, bind, generateAndQueuePost, try_catch, bind, queuePost,
    modify.
  rewrite Hdraft. cbn [drafts postQueue set_postQueue isPosting].
  unfold processNextPost, bind, get.
  cbn [drafts postQueue set_postQueue isPosting]. fold (drafted_entry text).
  rewrite Hposting, Hq. cbn [negb orb].
  rewrite bool_decide_eq_false_2 by discriminate.
  unfold modify, try_catch, createPost.
  cbn [drafts postQueue set_postQueue isPosting creations].
  destruct (created env (creations s) head) as [[]|e|];
    cbn [fst snd trace emit postQueue set_postQueue getRandomInterval
         Math_random bind ret modify];
    unfold attempted; rewrite ?omap_app; cbn [omap list_omap];
    rewrite ?app_nil_r; auto.
Qed.


Lemma firing_step env s text :
  isPosting s = true ->
  drafted env (drafts s) = Returned text ->
  (forall o, created env (creations s) o <> OutOfFuel) ->
  exists s',
    onPostInterval env s = (Returned tt, s') /\
    isPosting s' = true /\
    (length (postQueue s) <= length (postQueue s') <= S (length (postQueue s)))%nat /\
    ((forall o, created env (creations s) o = Returned tt) ->
     length (postQueue s') = length (postQueue s)).
Proof.
  intros Hposting Hdraft Hsettles.
  destruct (postQueue s ++ [drafted_entry text]) as [|head rest] eqn:Hq.
  { destruct (postQueue s); discriminate. }
  assert (Hlen : length rest = length (postQueue s)).
  { apply (f_equal length) in Hq. rewrite length_app in Hq. cbn in Hq. lia. }
  unfold onPostInterval, bind, generateAndQueuePost, try_catch, bind, queuePost,
    modify.
  rewrite Hdraft. cbn [drafts postQueue set_postQueue isPosting].
  unfold processNextPost, bind, get.
  cbn [drafts postQueue set_postQueue isPosting]. fold (drafted_entry text).
  rewrite Hposting, Hq. cbn [negb orb].
  rewrite bool_decide_eq_false_2 by discriminate.
  unfold modify, try_catch, createPost.
  cbn [drafts postQueue set_postQueue isPosting creations].
  specialize (Hsettles head).
  destruct (created env (creations s) head) as [[]|e|] eqn:Hc; [| |done].
  - eexists. split; [reflexivity|]. cbn. split; [done|]. split; [lia|]. intros _. lia.
  - eexists. split; [reflexivity|]. cbn. split; [done|]. split; [lia|].
    intros Hall. specialize (Hall head). congruence.
Qed.

(** While drafts succeed, the queue is never shorter after any number of
    firings than before, and it has the same length when every post is
    created: entries that queued up while posting failed are never caught up
    on. *)
Theorem outbox_never_shrinks env (n : nat) :
  (forall k, exists text, drafted env k = Returned text) ->
  (forall k o, created env k o <> OutOfFuel) ->
  forall s,
  isPosting s = true ->
  (length (postQueue s) <= length (postQueue (snd (firings env n s))))%nat /\
  ((forall k o, created env k o = Returned tt) ->
   length (postQueue (snd (firings env n s))) = length (postQueue s)).
Proof.
  intros Hdrafts Hsettles. induction n as [|n IH]; intros s Hposting.
  - cbn. auto.
  - cbn [firings]. unfold bind.
    destruct (Hdrafts (drafts s)) as [text Hdraft].
    destruct (firing_step env s text Hposting Hdraft (Hsettles _))
      as (s' & -> & Hposting' & Hlen & Hsame).
    destruct (IH s' Hposting') as [Hle Heq]. split; [lia|].
    intros Hall. rewrite (Heq Hall). apply Hsame. intros o. apply Hall.
Qed.


(** With [POST_IMMEDIATELY], [startPostingLoop] queues a draft and posts
    the oldest entry of the queue, which stays queued when posting throws. *)
Theorem immediate_post_is_the_oldest_entry env s text :
  isPosting s = false ->
  POST_IMMEDIATELY env = true ->
  drafted env (drafts s) = Returned text ->
  exists head rest,
    postQueue s ++ [drafted_entry text] = head :: rest /\
    isPosting (snd (startPostingLoop env s)) = true /\
    attempted (trace (snd (startPostingLoop env s)))
      = attempted (trace s) ++ [head] /\
    match created env (creations s) head with
    | Returned _ => postQueue (snd (startPostingLoop env s)) = rest
    | Thrown _ => postQueue (snd (startPostingLoop env s)) = head :: rest
    | OutOfFuel => True
    end.
Proof.
  intros Hidle Hnow Hdraft.
  destruct (postQueue s ++ [drafted_entry text]) as [|head rest] eqn:Hq.
  { destruct (postQueue s); discriminate. }
  exists head, rest. split; [reflexivity|].
  unfold startPostingLoop, bind, get. rewrite Hidle, Hnow.
  unfold modify at 1. unfold try_catch, bind, generateAndQueuePost, try_catch,
    bind, queuePost, modify, get.
  cbn [drafts postQueue set_postQueue set_isPosting isPosting].
  rewrite Hdraft. cbn [drafts postQueue set_postQueue set_isPosting isPosting].
  fold (drafted_entry text). rewrite Hq.
  unfold createPost. cbn [drafts postQueue set_postQueue set_isPosting isPosting creations].
  destruct (created env (creations s) head) as [[]|e|];
    destruct ((0 <? minInterval env) && (0 <? maxInterval env));
    cbn [fst snd trace emit postQueue set_postQueue getRandomInterval isPosting
         Math_random bind ret modify tail];
    unfold attempted; rewrite ?omap_app; cbn [omap list_omap];
    rewrite ?app_nil_r; auto.
Qed.

End OutboxLaws.

(** ** Token cipher: any string, any stored value *)

Section CodecLaws.
Import Encryption Strings.

Ltac zarith := Z.div_mod_to_equations; lia.

Ltac props :=
  repeat match goal with
  | H : _ && _ = true |- _ => apply andb_true_iff in H as [? ?]
  | H : _ && _ = false |- _ => apply andb_false_iff in H
  | H : negb _ = true |- _ => apply negb_true_iff in H
  | H : negb _ = false |- _ => apply negb_false_iff in H
  | H : (_ <=? _) = true |- _ => apply Z.leb_le in H
  | H : (_ <=? _) = false |- _ => apply Z.leb_gt in H
  | H : (_ <? _) = true |- _ => apply Z.ltb_lt in H
  | H : (_ <? _) = false |- _ => apply Z.ltb_ge in H
  end.

Lemma decode_replacement rest :
  utf8_decode (replacement ++ rest) = 0xFFFD :: utf8_decode rest.
Proof.
  unfold replacement. cbn [app].
  apply (decode_three _ _ _ _ 0xFFFD); cbv; try (split; congruence); try congruence.
  intros [H1 H2]. apply H2. reflexivity.
Qed.

Lemma utf8_decode_encode_aux (n : nat) :
  forall s, (length s <= n)%nat -> code_units s ->
            utf8_decode (utf8_encode s) = toWellFormed s.
Proof.
  induction n as [|n IH]; intros s Hlen Hcu.
  - destruct s; [reflexivity|cbn in Hlen; lia].
  - destruct s as [|c rest]; [reflexivity|].
    inversion Hcu as [|? ? Hc Hrest]; subst.
    assert (IHrest : utf8_decode (utf8_encode rest) = toWellFormed rest)
      by (apply IH; [cbn in Hlen; lia|assumption]).
    cbn [utf8_encode toWellFormed].
    destruct (is_high c) eqn:Hhigh.
    + unfold is_high in Hhigh. props.
      destruct (Z.ltb_spec c 0x80); [lia|].
      destruct (Z.ltb_spec c 0x800); [lia|].
      destruct rest as [|d rest'].
      * rewrite <- (app_nil_r replacement). by rewrite decode_replacement.
      * destruct (is_low d) eqn:Hlow.
        -- unfold is_low in Hlow. props.
           set (cp := 0x10000 + (c - 0xD800) * 1024 + (d - 0xDC00)).
           assert (Hcp : 0x10000 <= cp <= 0x10FFFF) by (subst cp; lia).
           assert (Hc' : 0xD800 + (cp - 0x10000) / 1024 = c) by (subst cp; zarith).
           assert (Hd : 0xDC00 + (cp - 0x10000) mod 1024 = d) by (subst cp; zarith).
           clearbody cp.
           rewrite (decode_four _ _ _ _ _ cp);
             rewrite ?Z_of_byte_of_Z by zarith; try zarith.
           rewrite Hc', Hd. rewrite (IH rest'); [reflexivity| |].
           ++ cbn in Hlen. lia.
           ++ by inversion Hrest.
        -- rewrite decode_replacement. by rewrite IHrest.
    + unfold is_high in Hhigh. props.
      destruct (Z.ltb_spec c 0x80).
      * assert (Hnl : is_low c = false) by (unfold is_low; apply andb_false_iff; left; apply Z.leb_gt; lia).
        rewrite Hnl.
        rewrite decode_one; rewrite ?Z_of_byte_of_Z by lia; [|lia].
        by rewrite IHrest.
      * destruct (Z.ltb_spec c 0x800).
        -- assert (Hnl : is_low c = false) by (unfold is_low; apply andb_false_iff; left; apply Z.leb_gt; lia).
           rewrite Hnl.
           rewrite decode_two; rewrite ?Z_of_byte_of_Z by zarith; try zarith.
           rewrite IHrest. f_equal. zarith.
        -- destruct (is_low c) eqn:Hlow.
           ++ rewrite decode_replacement. by rewrite IHrest.
           ++ unfold is_low in Hlow. props.
              rewrite (decode_three _ _ _ _ c);
                rewrite ?Z_of_byte_of_Z by zarith; try zarith.
              by rewrite IHrest.
Qed.


Lemma wf_plain c rest :
  0 <= c <= 0xFFFF -> ~ (0xD800 <= c <= 0xDFFF) ->
  well_formed (c :: rest) = well_formed rest.
Proof.
  intros Hc Hs. cbn [well_formed]. unfold is_high, is_low.
  assert (Hside : c < 0xD800 \/ 0xDFFF < c) by lia.
  destruct Hside;
    repeat match goal with
    | |- context [?a <=? ?b] =>
        first [ rewrite (proj2 (Z.leb_le a b)) by lia
              | rewrite (proj2 (Z.leb_gt a b)) by lia ]
    end; cbn; rewrite ?andb_false_r; reflexivity.
Qed.

Lemma wf_pair h l rest :
  0xD800 <= h <= 0xDBFF -> 0xDC00 <= l <= 0xDFFF ->
  well_formed (h :: l :: rest) = well_formed rest.
Proof.
  intros Hh Hl. cbn [well_formed]. unfold is_high, is_low.
  repeat match goal with
    | |- context [?a <=? ?b] =>
        first [ rewrite (proj2 (Z.leb_le a b)) by lia
              | rewrite (proj2 (Z.leb_gt a b)) by lia ]
    end; reflexivity.
Qed.

Lemma wf_replacement : well_formed [0xFFFD] = true.
Proof. reflexivity. Qed.

Lemma utf8_decode_well_formed_aux (n : nat) :
  forall bs, (length bs <= n)%nat -> well_formed (utf8_decode bs) = true.
Proof.
  induction n as [|n IH]; intros bs Hlen.
  - destruct bs; [reflexivity|cbn in Hlen; lia].
  - destruct bs as [|b0 r0]; [reflexivity|].
    assert (Hcut : forall r, (length r <= n)%nat ->
              well_formed (0xFFFD :: utf8_decode r) = true).
    { intros r Hr. rewrite wf_plain by lia. by apply IH. }
    cbn [utf8_decode]. cbv zeta.
    pose proof (Z_of_byte_range b0) as Hb0.
    set (x0 := Z_of_byte b0) in *.
    destruct (x0 <? 0x80) eqn:T0.
    { props. rewrite wf_plain by lia. apply IH. cbn in Hlen. lia. }
    destruct ((0xC2 <=? x0) && (x0 <? 0xE0)) eqn:T1.
    { destruct r0 as [|b1 r1]; [exact wf_replacement|].
      destruct (continuation (Z_of_byte b1)) eqn:C1;
        [|apply Hcut; cbn [length] in *; lia].
      unfold continuation in C1. props.
      rewrite wf_plain by lia. apply IH. cbn in Hlen. lia. }
    destruct ((0xE0 <=? x0) && (x0 <? 0xF0)) eqn:T2.
    { destruct r0 as [|b1 r1]; [exact wf_replacement|].
      destruct (second_ok x0 (Z_of_byte b1)) eqn:C1;
        [|apply Hcut; cbn [length] in *; lia].
      destruct r1 as [|b2 r2]; [exact wf_replacement|].
      destruct (continuation (Z_of_byte b2)) eqn:C2;
        [|apply Hcut; cbn [length] in *; lia].
      unfold continuation in C2.
      unfold second_ok, second_lower, second_upper in C1.
      destruct (Z.eqb_spec x0 0xE0), (Z.eqb_spec x0 0xED),
               (Z.eqb_spec x0 0xF0), (Z.eqb_spec x0 0xF4);
        props; try (exfalso; lia);
        (rewrite wf_plain by lia; apply IH; cbn [length] in *; lia). }
    destruct ((0xF0 <=? x0) && (x0 <? 0xF5)) eqn:T3.
    { destruct r0 as [|b1 r1]; [exact wf_replacement|].
      destruct (second_ok x0 (Z_of_byte b1)) eqn:C1;
        [|apply Hcut; cbn [length] in *; lia].
      destruct r1 as [|b2 r2]; [exact wf_replacement|].
      destruct (continuation (Z_of_byte b2)) eqn:C2;
        [|apply Hcut; cbn [length] in *; lia].
      destruct r2 as [|b3 r3]; [exact wf_replacement|].
      destruct (continuation (Z_of_byte b3)) eqn:C3;
        [|apply Hcut; cbn [length] in *; lia].
      unfold continuation in C2, C3.
      unfold second_ok, second_lower, second_upper in C1.
      destruct (Z.eqb_spec x0 0xE0), (Z.eqb_spec x0 0xED),
               (Z.eqb_spec x0 0xF0), (Z.eqb_spec x0 0xF4);
        props; try (exfalso; lia);
        (rewrite wf_pair by zarith; apply IH; cbn [length] in *; lia). }
    apply Hcut. cbn [length] in *. lia.
Qed.

Lemma utf8_decode_well_formed bs : well_formed (utf8_decode bs) = true.
Proof. apply (utf8_decode_well_formed_aux (length bs)). lia. Qed.

End CodecLaws.

Section ServiceLaws.
Import Encryption Strings.
Context {cipher : AesGcm}.

(** For every string, [decrypt] of [encrypt] returns the string with each
    unpaired surrogate replaced by U+FFFD. *)
Theorem decrypt_encrypt_any_string key iv text :
  code_units text ->
  exists encrypted,
    encrypt (Some key) iv text = Returned encrypted /\
    decrypt (Some key) encrypted = Returned (toWellFormed text).
Proof.
  intros Hcu. destruct (decrypt_encrypt_bytes key iv text) as (c & He & Hd).
  exists c. split; [exact He|].
  rewrite Hd. f_equal. apply (utf8_decode_encode_aux (length text)); [lia|exact Hcu].
Qed.

(** Whatever the stored value, a string that [decrypt] returns has no
    unpaired surrogate. *)
Theorem decrypt_returns_well_formed key data text :
  decrypt (Some key) data = Returned text -> well_formed text = true.
Proof.
  unfold decrypt. destruct (split data) as [|ivHex [|authTagHex [|encryptedText ?]]];
    try discriminate.
  cbv zeta. destruct (open _ _ _ _); [|discriminate].
  intros [= <-]. apply utf8_decode_well_formed.
Qed.

Lemma split_length s : length (split s) = S (colons s).
Proof.
  induction s as [|c rest IH]; [reflexivity|].
  cbn [split colons]. destruct (c =? colon).
  - cbn. by rewrite IH.
  - destruct (split rest) as [|field fields]; [discriminate|].
    cbn in *. exact IH.
Qed.

(** A stored value with fewer than two colons is refused: [decrypt]
    throws. *)
Theorem decrypt_needs_three_fields key data :
  (colons data < 2)%nat ->
  exists e, decrypt (Some key) data = Thrown e.
Proof.
  intros Hc. pose proof (split_length data) as Hl. unfold decrypt.
  destruct (split data) as [|ivHex [|authTagHex [|encryptedText ?]]];
    cbn in Hl; try lia; eauto.
Qed.

Lemma to_hex_lower buf : Forall lower_hex (to_hex buf).
Proof.
  induction buf as [|b buf IH]; [constructor|].
  cbn [to_hex]. pose proof (Z_of_byte_range b) as Hb.
  assert (G : forall n, 0 <= n < 16 -> lower_hex (hex_digit n)).
  { intros n Hn. unfold lower_hex, hex_digit. destruct (Z.ltb_spec n 10); lia. }
  constructor; [|constructor; [|exact IH]]; apply G; Z.div_mod_to_equations; lia.
Qed.

Lemma to_hex_length buf : length (to_hex buf) = (2 * length buf)%nat.
Proof. induction buf as [|b buf IH]; [reflexivity|]. cbn [to_hex length]. lia. Qed.

(** What [encrypt] returns consists of three fields of lower-case
    hexadecimal digits, the nonce, the tag and the ciphertext, separated by
    two colons. *)
Theorem encrypt_output_format key iv text :
  exists out,
    encrypt (Some key) iv text = Returned out /\
    split out = [to_hex iv;
                 to_hex (snd (seal key iv (utf8_encode text)));
                 to_hex (fst (seal key iv (utf8_encode text)))] /\
    colons out = 2%nat /\
    Forall (fun c => c = colon \/ lower_hex c) out.
Proof.
  unfold encrypt. cbv zeta.
  set (tag := snd (seal key iv (utf8_encode text))).
  set (ct := fst (seal key iv (utf8_encode text))).
  set (out := to_hex iv ++ [colon] ++ to_hex tag ++ [colon] ++ to_hex ct).
  exists out. split; [reflexivity|].
  pose proof (split_encrypted iv tag ct) as Hs. fold out in Hs.
  split; [exact Hs|]. split.
  - pose proof (split_length out) as Hl. rewrite Hs in Hl.
    cbn [length] in Hl. lia.
  - subst out. repeat (apply Forall_app; split);
      try (eapply Forall_impl; [apply to_hex_lower|]; cbn; auto);
      repeat constructor; auto.
Qed.

End ServiceLaws.

(** ** Content processing *)

Section ReplaceLaws.
Import Encryption Content Tidy.

Lemma replace_from_skip m k s :
  replace_from m k s = replace_from m O (drop k s).
Proof.
  revert k. induction s as [|c rest IH]; intros [|k]; try reflexivity.
  cbn [replace_from drop]. apply IH.
Qed.

Lemma replace_all_cons m c rest :
  replace_all m (c :: rest) =
    match m (c :: rest) with
    | Some (out, n) => out ++ replace_all m (drop (pred n) rest)
    | None => c :: replace_all m rest
    end.
Proof.
  unfold replace_all. cbn [replace_from].
  destruct (m (c :: rest)) as [[out n]|]; [|reflexivity].
  by rewrite replace_from_skip.
Qed.

Lemma span_drop_head class s :
  match drop (length (span class s)) s with
  | c :: _ => class c = false
  | [] => True
  end.
Proof.
  induction s as [|c rest IH]; [exact I|].
  cbn [span]. destruct (class c) eqn:Hc; [exact IH|exact Hc].
Qed.

Lemma single_spaced_weaken s : single_spaced false s = true -> single_spaced true s = true.
Proof.
  destruct s as [|c rest]; [done|]. cbn [single_spaced].
  destruct (is_ws c); [|done]. rewrite andb_false_r. discriminate.
Qed.

Lemma single_spaced_head s :
  single_spaced false s = true -> head_ws s = false.
Proof.
  destruct s as [|c rest]; [done|]. cbn [single_spaced head_ws].
  destruct (is_ws c); [|done]. rewrite andb_false_r. discriminate.
Qed.

Lemma head_ws_span s : head_ws s = false -> span is_ws s = [].
Proof. destruct s as [|c rest]; [done|]. cbn. by intros ->. Qed.

Lemma single_spaced_lead (b : bool) s :
  head_ws s = false -> single_spaced true s = true -> single_spaced b s = true.
Proof.
  destruct s as [|c rest]; [done|]. cbn [single_spaced head_ws]. by intros ->.
Qed.

Lemma is_ws_32 : is_ws 32 = true.
Proof. reflexivity. Qed.

Lemma punct_not_ws p : is_punct p = true -> is_ws p = false.
Proof.
  unfold is_punct. intros H.
  repeat (apply orb_true_iff in H as [H|H]); apply Z.eqb_eq in H; subst; reflexivity.
Qed.

(** After [/\s+/g -> ' '] *)
Lemma spaces_single_spaced (n : nat) :
  forall s, (length s <= n)%nat ->
    single_spaced (head_ws s) (replace_all spaces s) = true.
Proof.
  induction n as [|n IH]; intros s Hlen.
  - destruct s; [reflexivity|cbn in Hlen; lia].
  - destruct s as [|c rest]; [reflexivity|].
    rewrite replace_all_cons. unfold spaces. cbn [span head_ws].
    destruct (is_ws c) eqn:Hc.
    + cbn [length pred app]. cbn [single_spaced]. rewrite is_ws_32. cbn [Z.eqb Pos.eqb andb].
      pose proof (span_drop_head is_ws rest) as Hhead.
      assert (Hl : (length (drop (length (span is_ws rest)) rest) <= n)%nat).
      { rewrite length_drop. cbn in Hlen. lia. }
      specialize (IH _ Hl).
      destruct (drop (length (span is_ws rest)) rest) as [|d rest'] eqn:Hd.
      * reflexivity.
      * cbn [head_ws] in IH. by rewrite Hhead in IH.
    + cbn [single_spaced]. rewrite Hc.
      assert (Hl : (length rest <= n)%nat) by (cbn in Hlen; lia).
      specialize (IH _ Hl). destruct (head_ws rest); [exact IH|].
      by apply single_spaced_weaken.
Qed.

Lemma single_spaced_no_newline b s :
  single_spaced b s = true -> Forall (fun c => c <> 10) s.
Proof.
  revert b. induction s as [|c rest IH]; intros b H; [constructor|].
  cbn [single_spaced] in H. destruct (is_ws c) eqn:Hc.
  - apply andb_true_iff in H as [H Hrest]. apply andb_true_iff in H as [H _].
    apply Z.eqb_eq in H. subst c. constructor; [discriminate|eauto].
  - constructor; [|eauto]. intros ->. discriminate.
Qed.

Lemma blank_lines_idle s :
  Forall (fun c => c <> 10) s -> replace_all blank_lines s = s.
Proof.
  induction 1 as [|c rest Hc Hrest IH]; [reflexivity|].
  rewrite replace_all_cons.
  assert (Hnone : blank_lines (c :: rest) = None).
  { unfold blank_lines. by destruct (Z.eqb_spec c 10). }
  by rewrite Hnone, IH.
Qed.

Lemma space_before_punct_ws c rest :
  is_ws c = true -> head_ws rest = false ->
  space_before_punct (c :: rest) =
    match rest with
    | p :: _ => if is_punct p then Some ([p], 2%nat) else None
    | [] => None
    end.
Proof.
  intros Hc Hrest. unfold space_before_punct. cbn [span]. rewrite Hc.
  rewrite (head_ws_span rest Hrest). reflexivity.
Qed.

Lemma space_before_punct_text c rest :
  is_ws c = false -> space_before_punct (c :: rest) = None.
Proof. intros Hc. unfold space_before_punct. cbn [span]. by rewrite Hc. Qed.

Lemma space_before_punct_single_spaced (n : nat) :
  forall s b, (length s <= n)%nat ->
    single_spaced b s = true ->
    single_spaced b (replace_all space_before_punct s) = true.
Proof.
  induction n as [|n IH]; intros s b Hlen Hs.
  - destruct s; [reflexivity|cbn in Hlen; lia].
  - destruct s as [|c rest]; [reflexivity|].
    assert (Hl : (length rest <= n)%nat) by (cbn in Hlen; lia).
    rewrite replace_all_cons.
    cbn [single_spaced] in Hs.
    destruct (is_ws c) eqn:Hc.
    + apply andb_true_iff in Hs as [Hs Hrest]. apply andb_true_iff in Hs as [Hc32 Hb].
      subst b.
      rewrite (space_before_punct_ws c rest Hc) by (by apply single_spaced_head).
      assert (Hkeep : single_spaced true
                (c :: replace_all space_before_punct rest) = true).
      { cbn [single_spaced]. rewrite Hc, Hc32. cbn [andb]. by apply IH. }
      destruct rest as [|p rest']; [exact Hkeep|].
      destruct (is_punct p) eqn:Hp; [|exact Hkeep].
      change (drop (pred 2) (p :: rest')) with rest'.
      cbn [app single_spaced]. rewrite (punct_not_ws p Hp).
      apply IH; [cbn in Hl; lia|].
      cbn [single_spaced] in Hrest. by rewrite (punct_not_ws p Hp) in Hrest.
    + rewrite (space_before_punct_text c rest Hc).
      cbn [single_spaced]. rewrite Hc. by apply IH.
Qed.

Lemma punct_before_text_single_spaced (n : nat) :
  forall s b, (length s <= n)%nat ->
    single_spaced b s = true ->
    single_spaced b (replace_all punct_before_text s) = true.
Proof.
  induction n as [|n IH]; intros s b Hlen Hs.
  - destruct s; [reflexivity|cbn in Hlen; lia].
  - destruct s as [|p rest]; [reflexivity|].
    assert (Hl : (length rest <= n)%nat) by (cbn in Hlen; lia).
    rewrite replace_all_cons. unfold punct_before_text.
    assert (Hplain :
      single_spaced b (p :: replace_all punct_before_text rest) = true).
    { cbn [single_spaced] in *. destruct (is_ws p).
      - apply andb_true_iff in Hs as [Hs Hrest]. rewrite Hs. cbn [andb].
        by apply IH.
      - by apply IH. }
    destruct rest as [|c rest']; [exact Hplain|].
    destruct (is_punct p && negb (is_ws c)) eqn:Hm; [|exact Hplain].
    apply andb_true_iff in Hm as [Hp Hc]. apply negb_true_iff in Hc.
    change (drop (pred 2) (c :: rest')) with rest'.
    cbn [app single_spaced] in *.
    rewrite (punct_not_ws p Hp) in *. rewrite is_ws_32, Hc in *.
    cbn [Z.eqb Pos.eqb andb]. apply IH; [cbn in Hl; lia|exact Hs].
Qed.

Lemma trim_start_single_spaced b s :
  single_spaced b s = true -> single_spaced false (trim_start s) = true.
Proof.
  destruct s as [|c rest]; [done|]. cbn [single_spaced trim_start].
  destruct (is_ws c) eqn:Hc.
  - intros H. apply andb_true_iff in H as [_ Hrest].
    pose proof (single_spaced_head _ Hrest) as Hh.
    destruct rest as [|d rest']; [done|]. cbn [head_ws] in Hh.
    cbn [trim_start]. by rewrite Hh.
  - intros H. cbn [single_spaced]. by rewrite Hc.
Qed.

Lemma trim_end_nil_ws s : trim_end s = [] -> Forall (fun c => is_ws c = true) s.
Proof.
  induction s as [|c rest IH]; [constructor|]. cbn [trim_end].
  destruct (trim_end rest) as [|k kept]; [|discriminate].
  destruct (is_ws c) eqn:Hc; [|discriminate]. intros _. constructor; auto.
Qed.

Lemma trim_end_single_spaced s :
  forall b, single_spaced b s = true -> single_spaced b (trim_end s) = true.
Proof.
  induction s as [|c rest IH]; intros b Hs; [done|].
  cbn [trim_end]. cbn [single_spaced] in Hs.
  destruct (trim_end rest) as [|k kept] eqn:Hk.
  - destruct (is_ws c) eqn:Hc; [done|]. cbn [single_spaced]. by rewrite Hc.
  - cbn [single_spaced]. destruct (is_ws c).
    + apply andb_true_iff in Hs as [Hs Hrest]. rewrite Hs. cbn [andb].
      by apply IH.
    + by apply IH.
Qed.

Lemma trim_end_head s :
  head_ws s = false -> s <> [] -> head_ws (trim_end s) = false /\ trim_end s <> [].
Proof.
  destruct s as [|c rest]; [done|]. cbn [head_ws trim_end]. intros Hc _.
  destruct (trim_end rest); rewrite ?Hc; cbn; rewrite ?Hc; done.
Qed.

Lemma trim_start_fixed s : head_ws s = false -> trim_start s = s.
Proof. destruct s as [|c rest]; [done|]. cbn. by intros ->. Qed.

Lemma trim_end_cons c rest :
  trim_end (c :: rest) =
    match trim_end rest with
    | [] => if is_ws c then [] else [c]
    | kept => c :: kept
    end.
Proof. reflexivity. Qed.

Lemma trim_end_idem s : trim_end (trim_end s) = trim_end s.
Proof.
  induction s as [|c rest IH]; [done|]. rewrite trim_end_cons.
  destruct (trim_end rest) as [|k kept] eqn:Hk.
  - destruct (is_ws c) eqn:Hc; [done|]. cbn. by rewrite Hc.
  - rewrite trim_end_cons, IH. reflexivity.
Qed.

Lemma trim_start_head s : head_ws (trim_start s) = false.
Proof.
  induction s as [|c rest IH]; [done|]. cbn [trim_start].
  destruct (is_ws c) eqn:Hc; [exact IH|]. cbn. exact Hc.
Qed.

Lemma trim_idem s : trim (trim s) = trim s.
Proof.
  unfold trim. pose proof (trim_start_head s) as Hh.
  destruct (trim_start s) as [|c rest] eqn:Hs; [done|].
  destruct (trim_end_head (c :: rest) Hh) as [Hh' _]; [done|].
  rewrite (trim_start_fixed _ Hh'). apply trim_end_idem.
Qed.

End ReplaceLaws.

Section ContentLaws.
Import Encryption Content Tidy.

Lemma tidy_up_single_spaced s :
  single_spaced false (tidy_up s) = true /\ trim (tidy_up s) = tidy_up s.
Proof.
  unfold tidy_up. cbv zeta.
  set (s1 := replace_all tag s).
  assert (H2 : single_spaced true (replace_all spaces s1) = true).
  { pose proof (spaces_single_spaced (length s1) s1 ltac:(lia)) as H.
    destruct (head_ws s1); [exact H|by apply single_spaced_weaken]. }
  set (s2 := replace_all spaces s1) in *.
  rewrite (blank_lines_idle s2) by (by eapply single_spaced_no_newline).
  assert (H4 : single_spaced true (replace_all space_before_punct s2) = true)
    by (by eapply space_before_punct_single_spaced).
  set (s4 := replace_all space_before_punct s2) in *.
  assert (H5 : single_spaced true (replace_all punct_before_text s4) = true)
    by (by eapply punct_before_text_single_spaced).
  set (s5 := replace_all punct_before_text s4) in *.
  split; [|apply trim_idem].
  unfold trim. apply trim_end_single_spaced.
  by eapply trim_start_single_spaced.
Qed.

Lemma cleanPostContent_tidy content cleaned :
  cleanPostContent content = Returned cleaned ->
  exists s, cleaned = tidy_up s.
Proof.
  unfold cleanPostContent.
  destruct (decode_entities _ _ _ _) as [s1|e|]; try discriminate.
  destruct (decode_entities _ _ _ _) as [s2|e|]; try discriminate.
  intros [= <-]. by exists s2.
Qed.

(** What [cleanPostContent] returns has white space only as single spaces
    between other code units: it begins and ends with none, and contains no
    line feed. The paragraph and line breaks that the first replacements put
    in do not survive the later ones, and the replacement of blank lines
    never applies. *)
Theorem cleaned_content_is_single_spaced content cleaned :
  cleanPostContent content = Returned cleaned ->
  single_spaced false cleaned = true /\
  trim cleaned = cleaned /\
  Forall (fun c => c <> 10) cleaned.
Proof.
  intros Hc. destruct (cleanPostContent_tidy _ _ Hc) as [s ->].
  destruct (tidy_up_single_spaced s) as [Hs Ht].
  split; [exact Hs|]. split; [exact Ht|].
  by eapply single_spaced_no_newline.
Qed.

Lemma decode_from_settles prefix class radix s :
  forall skip, decode_from prefix class radix skip s <> OutOfFuel.
Proof.
  induction s as [|c rest IH]; intros skip; [discriminate|].
  cbn [decode_from]. destruct skip as [|k]; [|apply IH].
  destruct (numeric_entity prefix class (c :: rest)) as [[digits n]|].
  - unfold fromCodePoint.
    destruct (_ <=? 0xFFFF); [|destruct (_ <=? 0x10FFFF); [|discriminate]].
    + specialize (IH (pred n)). destruct (decode_from _ _ _ _ rest); done.
    + specialize (IH (pred n)). destruct (decode_from _ _ _ _ rest); done.
  - specialize (IH O). destruct (decode_from _ _ _ _ rest); done.
Qed.

Lemma cleanPostContent_settles content : cleanPostContent content <> OutOfFuel.
Proof.
  unfold cleanPostContent, decode_entities.
  pose proof (decode_from_settles (str "&#x") is_hex_digit 16 (unescape content) O).
  destruct (decode_from _ _ _ _ (unescape content)) as [s1|e|]; try done.
  pose proof (decode_from_settles (str "&#") is_digit 10 s1 O).
  destruct (decode_from _ _ _ _ s1) as [s2|e|]; done.
Qed.

Lemma cleaned_not_blank cleaned content :
  cleanPostContent content = Returned cleaned ->
  cleaned <> [] -> blank cleaned = false.
Proof.
  intros Hc Hne. destruct (cleanPostContent_tidy _ _ Hc) as [s ->].
  destruct (tidy_up_single_spaced s) as [_ Ht].
  unfold blank. rewrite Ht. by destruct (tidy_up s).
Qed.

(** [processContent] does not throw. Its content is empty or not blank;
    unless flagged it is empty or the cleaned content; and it is flagged as
    summarized only when the cleaned content has more than 500 code
    units. *)
Theorem processContent_result composed generated content :
  composed <> OutOfFuel -> generated <> OutOfFuel ->
  exists text flag,
    processContent composed generated content = Returned (text, flag) /\
    (text = [] \/ blank text = false) /\
    (flag = false -> text = [] \/ cleanPostContent content = Returned text) /\
    (flag = true ->
       text <> [] /\
       exists cleaned, cleanPostContent content = Returned cleaned
                       /\ (MAX_POST_LENGTH < length cleaned)%nat).
Proof.
  intros Hcomposed Hgenerated. unfold processContent.
  destruct (blank content) eqn:Hblank.
  { exists [], false. repeat split; auto; discriminate. }
  pose proof (cleanPostContent_settles content) as Hsettles.
  destruct (cleanPostContent content) as [cleaned|e|] eqn:Hclean; [| |done].
  2:{ exists [], false. repeat split; auto; discriminate. }
  destruct (blank cleaned) eqn:Hbc.
  { exists [], false. repeat split; auto; discriminate. }
  assert (Hplain : exists text flag,
    Returned (cleaned, false) = Returned (text, flag) /\
    (text = [] \/ blank text = false) /\
    (flag = false -> text = [] \/ Returned cleaned = Returned text) /\
    (flag = true ->
       text <> [] /\
       exists cleaned0, @Returned JsString cleaned = Returned cleaned0
                       /\ (MAX_POST_LENGTH < length cleaned0)%nat)).
  { exists cleaned, false. repeat split; auto; discriminate. }
  destruct (MAX_POST_LENGTH <? length cleaned)%nat eqn:Hlong; [|exact Hplain].
  apply Nat.ltb_lt in Hlong.
  assert (Hflag : forall summary, blank summary = false ->
    exists text flag,
    Returned (summary, true) = Returned (text, flag) /\
    (text = [] \/ blank text = false) /\
    (flag = false -> text = [] \/ Returned cleaned = Returned text) /\
    (flag = true ->
       text <> [] /\
       exists cleaned0, @Returned JsString cleaned = Returned cleaned0
                       /\ (MAX_POST_LENGTH < length cleaned0)%nat)).
  { intros summary Hs. exists summary, true. split; [done|]. split; [auto|].
    split; [discriminate|]. intros _. split; [by intros ->|]. eauto. }
  unfold summarizeContent. rewrite Hbc.
  destruct composed as [[]|e|]; [| |done].
  2:{ exists [], false. repeat split; auto; discriminate. }
  destruct generated as [summary|e|]; [| |done].
  2:{ rewrite Hbc. by apply Hflag. }
  destruct (blank summary) eqn:Hbs.
  { rewrite Hbc. by apply Hflag. }
  pose proof (cleanPostContent_settles summary) as Hss.
  destruct (cleanPostContent summary) as [cleanedSummary|e|]; [| |done].
  2:{ rewrite Hbc. by apply Hflag. }
  destruct (blank cleanedSummary) eqn:Hbcs.
  { rewrite Hbc. by apply Hflag. }
  rewrite Hbcs. by apply Hflag.
Qed.

(** When the cleaned content has more than 500 code units and the model
    throws or yields a blank text, [processContent] returns the whole
    cleaned content, flagged as summarized. *)
Theorem failed_summary_is_flagged_summarized generated content cleaned :
  blank content = false ->
  cleanPostContent content = Returned cleaned ->
  (MAX_POST_LENGTH < length cleaned)%nat ->
  (exists e, generated = Thrown e) \/
  (exists summary, generated = Returned summary /\ blank summary = true) ->
  processContent (Returned tt) generated content = Returned (cleaned, true).
Proof.
  intros Hblank Hclean Hlong Hfailed.
  assert (Hbc : blank cleaned = false).
  { eapply cleaned_not_blank; [exact Hclean|]. intros ->. cbn in Hlong. lia. }
  unfold processContent. rewrite Hblank, Hclean, Hbc.
  apply Nat.ltb_lt in Hlong. rewrite Hlong.
  unfold summarizeContent. rewrite Hbc.
  destruct Hfailed as [[e ->]|(summary & -> & Hs)].
  - by rewrite Hbc.
  - by rewrite Hs, Hbc.
Qed.

End ContentLaws.

(** ** Starting and stopping the monitors *)

Section LifecycleLaws.
Import Monitor Lifecycle.

Lemma call_overflows clientType (stack : nat) :
  forall m c, exists c',
    call stack m clientType c = (Thrown stack_overflow, c') /\
    fields c' = fields c.
Proof.
  induction stack as [|stack IH]; intros m c.
  - exists c. split; reflexivity.
  - destruct m; cbn [call].
    + unfold bind at 1, modify at 1.
      destruct (IH m_cleanup (set_checkInterval None c)) as (c' & -> & Hf).
      exists c'. split; [reflexivity|exact Hf].
    + unfold bind. destruct (IH m_base_cleanup c) as (c' & -> & Hf).
      exists c'. split; [reflexivity|exact Hf].
    + unfold bind. destruct (IH m_stop c) as (c' & -> & Hf).
      exists c'. split; [reflexivity|exact Hf].
Qed.

Lemma call_overflows_unarmed clientType (stack : nat) :
  forall m c, checkInterval c = None ->
    call stack m clientType c = (Thrown stack_overflow, c).
Proof.
  induction stack as [|stack IH]; intros m c Hc; [reflexivity|].
  destruct m; cbn [call].
  - unfold bind at 1, modify at 1.
    replace (set_checkInterval None c) with c
      by (destruct c; cbn in Hc; by subst).
    by rewrite IH.
  - unfold bind. by rewrite IH.
  - unfold bind. by rewrite IH.
Qed.

Lemma monitor_stop_overflows_at stack clientType c :
  stop (S stack) clientType c =
    (Thrown stack_overflow, mkClient (fields c) None).
Proof.
  unfold stop. cbn [call]. unfold bind at 1, modify at 1.
  by rewrite call_overflows_unarmed.
Qed.

(** [stop] always fails. It calls [cleanup], which calls [stop] again before
    anything is awaited, and so on until the call stack is used up; [stop]
    is rejected with the RangeError. The check timer has been cleared and
    the fields of the monitor are as they were. *)
Theorem monitor_stop_overflows stack clientType c :
  stop (S stack) clientType c =
    (Thrown stack_overflow, mkClient (fields c) None).
Proof. apply monitor_stop_overflows_at. Qed.

(** So does [cleanup]: what follows its [await super.cleanup()] is never
    run, and the processed set, the watermarks, the acted-on set and the
    last notification id are never cleared. *)
Theorem monitor_cleanup_clears_nothing stack clientType c :
  exists c',
    cleanup stack clientType c = (Thrown stack_overflow, c') /\
    fields c' = fields c.
Proof. apply call_overflows. Qed.

(** [TruthSocialClient.stop] is rejected with the RangeError of
    [searchClient.stop] and never calls [notificationsClient.stop]: the
    notification monitor is as it was, its check timer armed. *)
Theorem manager_stop_leaves_notification_timer stack t :
  manager_stop (S stack) t =
    (Thrown stack_overflow,
     mkManager (mkClient (fields (searchClient t)) None)
               (notificationsClient t)).
Proof.
  unfold manager_stop, bind, on_searchClient.
  by rewrite monitor_stop_overflows_at.
Qed.

End LifecycleLaws.

(** ** Configuration *)

Section ConfigLaws.
Import Encryption Content Environment Acceptance.

Ltac refuse :=
  split;
    [ intros [cfg Hcfg]; discriminate
    | intros (H1 & H2 & (t0 & ts0 & H3) & H4 & H5 & H6 & H7 & H8 & H9);
      repeat match goal with
      | H : is_Some None |- _ => destruct H as [? H]; discriminate
      end; try discriminate ].

(** [validateTruthSocialConfig] returns a configuration exactly for the
    acceptable sources. In particular it throws when no target users are
    given, and a retry limit or an interval of zero or less is accepted. *)
Theorem validation_outcome src :
  (exists cfg, validateTruthSocialConfig src = Returned cfg) <-> acceptable src.
Proof.
  unfold validateTruthSocialConfig, acceptable, given. cbv zeta.
  destruct (setting src "TRUTHSOCIAL_USERNAME" "TRUTHSOCIAL_USERNAME")
    as [u|]; [|refuse].
  destruct (setting src "TRUTHSOCIAL_PASSWORD" "TRUTHSOCIAL_PASSWORD")
    as [p|]; [|refuse].
  destruct (numeric src "TRUTHSOCIAL_RETRY_LIMIT" _ _) as [rl|]; [|refuse].
  destruct (numeric src "TRUTHSOCIAL_POST_INTERVAL_MIN" _ _) as [imin|]; [|refuse].
  destruct (numeric src "TRUTHSOCIAL_POST_INTERVAL_MAX" _ _) as [imax|]; [|refuse].
  destruct (numeric src "TRUTHSOCIAL_MAX_POST_LENGTH" _ _) as [ml|]; [|refuse].
  destruct (setting src "TRUTHSOCIAL_TARGET_USERS" "TRUTHSOCIAL_TARGET_USERS")
    as [[|t ts]|]; [refuse|..|refuse].
  destruct (numeric src "TRUTHSOCIAL_NOTIFICATION_CHECK_INTERVAL" _ _) as [ni|];
    [|refuse].
  destruct (numeric src "TRUTHSOCIAL_SEARCH_CHECK_INTERVAL" _ _) as [si|];
    [|refuse].
  split; [intros _|eauto]. repeat split; eauto.
Qed.


Lemma split_commas_length s : length (split_commas s) = S (commas s).
Proof.
  induction s as [|c rest IH]; [reflexivity|].
  cbn [split_commas commas]. destruct (c =? 44).
  - cbn. by rewrite IH.
  - destruct (split_commas rest) as [|field fields]; [discriminate|].
    cbn in *. exact IH.
Qed.

Lemma split_commas_fields s :
  Forall (Forall (fun c => c <> 44)) (split_commas s).
Proof.
  induction s as [|c rest IH]; [repeat constructor|].
  cbn [split_commas]. destruct (Z.eqb_spec c 44).
  - constructor; [constructor|exact IH].
  - destruct (split_commas rest) as [|field fields]; [repeat constructor; done|].
    inversion IH; subst. constructor; [constructor; assumption|assumption].
Qed.

Lemma trim_start_Forall (P : Z -> Prop) s : Forall P s -> Forall P (trim_start s).
Proof.
  induction 1 as [|c rest Hc Hrest IH]; [constructor|].
  cbn [trim_start]. destruct (is_ws c); [exact IH|by constructor].
Qed.

Lemma trim_end_Forall (P : Z -> Prop) s : Forall P s -> Forall P (trim_end s).
Proof.
  induction 1 as [|c rest Hc Hrest IH]; [constructor|].
  rewrite trim_end_cons. destruct (trim_end rest).
  - destruct (is_ws c); repeat constructor; done.
  - by constructor.
Qed.

Lemma join_split_commas s : join_commas (split_commas s) = s.
Proof.
  induction s as [|c rest IH]; [reflexivity|].
  cbn [split_commas]. destruct (c =? 44) eqn:Hc.
  - apply Z.eqb_eq in Hc. subst c.
    destruct (split_commas rest) as [|field fields] eqn:Hs.
    + pose proof (split_commas_length rest) as Hl. by rewrite Hs in Hl.
    + cbn [join_commas app]. cbn [join_commas] in IH. by rewrite IH.
  - destruct (split_commas rest) as [|field fields] eqn:Hs.
    + pose proof (split_commas_length rest) as Hl. by rewrite Hs in Hl.
    + destruct fields as [|field' fields'].
      * cbn [join_commas] in *. by rewrite IH.
      * cbn [join_commas] in *. cbn [app]. by rewrite IH.
Qed.

(** The target users of a validated configuration are the fields of the
    given value, trimmed: the value is not empty and is its fields joined
    by commas, there is one field more than it has commas, no field holds a
    comma, and the users are the fields in order, each with the white space
    at its two ends removed; a user may be the empty string. *)
Theorem validated_target_users_are_trimmed src cfg :
  validateTruthSocialConfig src = Returned cfg ->
  exists value fields,
    given src "TRUTHSOCIAL_TARGET_USERS" = Some value /\
    value <> [] /\
    join_commas fields = value /\
    length fields = S (commas value) /\
    Forall (Forall (fun c => c <> 44)) fields /\
    TRUTHSOCIAL_TARGET_USERS cfg = trim <$> fields /\
    Forall (fun u => trim u = u /\ Forall (fun c => c <> 44) u)
           (TRUTHSOCIAL_TARGET_USERS cfg).
Proof.
  unfold validateTruthSocialConfig, given. cbv zeta.
  destruct (setting src "TRUTHSOCIAL_USERNAME" "TRUTHSOCIAL_USERNAME")
    as [u|]; [|discriminate].
  destruct (setting src "TRUTHSOCIAL_PASSWORD" "TRUTHSOCIAL_PASSWORD")
    as [p|]; [|discriminate].
  destruct (numeric src "TRUTHSOCIAL_RETRY_LIMIT" _ _) as [rl|]; [|discriminate].
  destruct (numeric src "TRUTHSOCIAL_POST_INTERVAL_MIN" _ _) as [imin|]; [|discriminate].
  destruct (numeric src "TRUTHSOCIAL_POST_INTERVAL_MAX" _ _) as [imax|]; [|discriminate].
  destruct (numeric src "TRUTHSOCIAL_MAX_POST_LENGTH" _ _) as [ml|]; [|discriminate].
  destruct (setting src "TRUTHSOCIAL_TARGET_USERS" "TRUTHSOCIAL_TARGET_USERS")
    as [[|t ts]|]; [discriminate|..|discriminate].
  destruct (numeric src "TRUTHSOCIAL_NOTIFICATION_CHECK_INTERVAL" _ _) as [ni|];
    [|discriminate].
  destruct (numeric src "TRUTHSOCIAL_SEARCH_CHECK_INTERVAL" _ _) as [si|];
    [|discriminate].
  intros H.
  assert (Hu : TRUTHSOCIAL_TARGET_USERS cfg = trim <$> split_commas (t :: ts))
    by (by injection H as <-).
  rewrite Hu. clear H Hu.
  exists (t :: ts), (split_commas (t :: ts)).
  split; [reflexivity|]. split; [discriminate|].
  split; [apply join_split_commas|].
  split; [apply split_commas_length|].
  split; [apply split_commas_fields|].
  split; [reflexivity|].
  apply Forall_fmap. eapply Forall_impl; [apply split_commas_fields|].
  cbn. intros field Hfield. split; [apply trim_idem|].
  unfold trim. by apply trim_end_Forall, trim_start_Forall.
Qed.

End ConfigLaws.

(** ** Runs of the further properties *)

Section SessionRuns.
Import Base Session.

Lemma init_backoff_any_limit_witness :
  exists s',
    init (env_refused 5) 5 fresh_session =
      (Thrown (Error "Truth Social login failed after maximum retries"), s')
    /\ logins s' = 5%nat
    /\ events s' =
         [EvCacheRead; EvLogin; EvSleep 2000; EvLogin; EvSleep 4000; EvLogin;
          EvSleep 8000; EvLogin; EvSleep 16000; EvLogin].
Proof.
  apply (init_backoff_any_limit (env_refused 5) fresh_session 5 4).
  - reflexivity.
  - vm_compute. discriminate.
  - reflexivity.
  - reflexivity.
  - intros i Hi. reflexivity.
  - lia.
Defined.

Lemma init_without_attempts_witness :
  exists s',
    init (env_refused 0) 0 fresh_session = (Returned tt, s')
    /\ logins s' = 0%nat
    /\ clients s' = ∅
    /\ authToken s' = None.
Proof.
  apply (init_without_attempts (env_refused 0) fresh_session 0).
  - cbn. lia.
  - reflexivity.
  - reflexivity.
Defined.

Lemma no_request_after_cleanup_witness :
  makeAuthenticatedRequest env_two_401 1 a_request (snd (cleanup true registered))
  = (Thrown (Error "Not authenticated - failed to obtain auth token"),
     snd (cleanup true registered)).
Proof.
  apply (no_request_after_cleanup env_two_401 0 a_request registered).
  cbn. set_solver.
Defined.

Lemma init_returns_authenticated_witness :
  "agent" ∈ clients (snd (init env_two_401 1 fresh_session)) /\
  truthy_opt (authToken (snd (init env_two_401 1 fresh_session))) = true.
Proof.
  apply (init_returns_authenticated env_two_401 1 fresh_session).
  - reflexivity.
  - reflexivity.
  - reflexivity.
Defined.

Lemma inherited_name_is_never_authenticated_witness :
  init env_constructor 3 fresh_session = (Returned tt, fresh_session) /\
  makeAuthenticatedRequest env_constructor 4 a_request fresh_session =
    (Thrown (Error "Not authenticated - failed to obtain auth token"),
     fresh_session).
Proof.
  apply (inherited_name_is_never_authenticated
           env_constructor 3 a_request fresh_session).
  - unfold Object_prototype. cbn. set_solver.
  - reflexivity.
Defined.

Lemma env_group_404_plain : plain_failures env_group_404.
Proof.
  split.
  - intros k req tok e H. discriminate H.
  - intros k e t H. discriminate H.
Defined.

Lemma request_errors_are_not_group_errors_witness :
  err_response (request_failed env_group_404 404 "GROUP_NOT_FOUND") = None /\
  Monitor.isGroupError (request_failed env_group_404 404 "GROUP_NOT_FOUND")
    = false.
Proof.
  apply (request_errors_are_not_group_errors env_group_404 env_group_404_plain
           1 a_request active_session
           (request_failed env_group_404 404 "GROUP_NOT_FOUND")
           (emit (EvFetch a_request)
              (mkSession (Some "stale") ∅ 0 0 0 1 []))).
  reflexivity.
Defined.

Lemma persistent_401_never_settles_witness :
  fst (makeAuthenticatedRequest env_always_401 7 a_request active_session)
  = OutOfFuel.
Proof.
  apply (persistent_401_never_settles env_always_401 a_request).
  - intros k tok. reflexivity.
  - intros k. exists "fresh". split; reflexivity.
  - reflexivity.
Defined.

End SessionRuns.

Section ExecutorRuns.
Import Monitor Ledger Guard Examples.

Lemma env_reblog_refused_plain : plain_requests env_reblog_refused.
Proof.
  intros k c e H. destruct c; try discriminate H.
  injection H as <-. reflexivity.
Defined.

Lemma env_reblog_refused_answering : answering env_reblog_refused.
Proof. intros k c. destruct c; discriminate. Defined.

Lemma search_gate_never_fires_witness :
  exists new,
    trace (snd (Search.handlePostActions env_reblog_refused a_post
                  all_actions idle)) = trace idle ++ new /\
    (quote all_actions = true ->
     EvGenerateContent "QUOTE" (post_id a_post) ∈ new) /\
    (reply all_actions = true ->
     EvGenerateContent "REPLY" (post_id a_post) ∈ new).
Proof.
  apply (search_gate_never_fires env_reblog_refused a_post all_actions idle).
  - exact env_reblog_refused_plain.
  - exact env_reblog_refused_answering.
Defined.

Lemma base_gate_never_fires_witness :
  exists new,
    trace (snd (BaseActions.handlePostActions env_reblog_refused a_post
                  all_actions idle)) = trace idle ++ new /\
    (quote all_actions = true ->
     EvGenerateContent "QUOTE" (post_id a_post) ∈ new) /\
    (reply all_actions = true ->
     EvGenerateContent "REPLY" (post_id a_post) ∈ new).
Proof.
  apply (base_gate_never_fires env_reblog_refused a_post all_actions idle).
  - exact env_reblog_refused_plain.
  - exact env_reblog_refused_answering.
Defined.

End ExecutorRuns.

Section FeedRuns.
Import Monitor Ledger Examples Store.

Lemma env_mentions_answering : answering env_mentions.
Proof. intros k c. destruct c; discriminate. Defined.

Lemma env_mentions_deciding : deciding env_mentions.
Proof. intros k item. exists all_actions. reflexivity. Defined.




Lemma bare_notification_leaves_no_memory_witness :
  exists s',
    Notifications.checkNotification env_mentions bare_follow idle
      = (Returned tt, s') /\
    executed (trace s') = executed (trace idle) ++ ["f1"] /\
    memories s' = memories idle /\
    processedItems s' = {["f1"]} ∪ processedItems idle.
Proof.
  apply (bare_notification_leaves_no_memory env_mentions bare_follow idle).
  - apply env_mentions_answering.
  - apply env_mentions_deciding.
  - reflexivity.
  - split; cbn; set_solver.
Defined.

End FeedRuns.

Section OutboxRuns.
Import Post PostExamples Outbox.

Lemma firing_sends_the_oldest_entry_witness :
  exists head rest,
    postQueue (posting [a_status]) ++ [drafted_entry "fresh"] = head :: rest /\
    attempted (trace (snd (onPostInterval env_post_down (posting [a_status]))))
      = attempted (trace (posting [a_status])) ++ [head] /\
    match created env_post_down (creations (posting [a_status])) head with
    | Returned _ =>
        postQueue (snd (onPostInterval env_post_down (posting [a_status])))
        = rest
    | Thrown _ =>
        postQueue (snd (onPostInterval env_post_down (posting [a_status])))
        = head :: rest
    | OutOfFuel => True
    end.
Proof.
  apply (firing_sends_the_oldest_entry env_post_down (posting [a_status])
           "fresh"); reflexivity.
Defined.

Lemma outbox_never_shrinks_witness :
  (length (postQueue (posting [a_status]))
   <= length (postQueue (snd (firings env_post_down 3 (posting [a_status])))))%nat
  /\
  ((forall k o, created env_post_down k o = Returned tt) ->
   length (postQueue (snd (firings env_post_down 3 (posting [a_status]))))
   = length (postQueue (posting [a_status]))).
Proof.
  apply (outbox_never_shrinks env_post_down 3).
  - intros k. exists "fresh". reflexivity.
  - intros k o. discriminate.
  - reflexivity.
Defined.

Lemma immediate_post_is_the_oldest_entry_witness :
  exists head rest,
    postQueue stopped ++ [drafted_entry "fresh"] = head :: rest /\
    isPosting (snd (startPostingLoop env_post_now stopped)) = true /\
    attempted (trace (snd (startPostingLoop env_post_now stopped)))
      = attempted (trace stopped) ++ [head] /\
    match created env_post_now (creations stopped) head with
    | Returned _ =>
        postQueue (snd (startPostingLoop env_post_now stopped)) = rest
    | Thrown _ =>
        postQueue (snd (startPostingLoop env_post_now stopped)) = head :: rest
    | OutOfFuel => True
    end.
Proof.
  apply (immediate_post_is_the_oldest_entry env_post_now stopped "fresh");
    reflexivity.
Defined.

Lemma onPostInterval_keeps_period_witness :
  postInterval (snd (onPostInterval env_post_down (posting [a_status])))
    = postInterval (posting [a_status])
  /\ filter is_timer
       (trace (snd (onPostInterval env_post_down (posting [a_status]))))
     = filter is_timer (trace (posting [a_status])).
Proof.
  apply (onPostInterval_keeps_period env_post_down (posting [a_status])).
  discriminate.
Defined.

End OutboxRuns.

Section CipherRuns.
Import Encryption Strings.

Lemma decrypt_encrypt_any_string_witness :
  exists encrypted,
    @encrypt toy_cipher (Some a_key) an_iv [0xD800; 97] = Returned encrypted /\
    @decrypt toy_cipher (Some a_key) encrypted
      = Returned (toWellFormed [0xD800; 97]).
Proof.
  apply (@decrypt_encrypt_any_string toy_cipher a_key an_iv [0xD800; 97]).
  repeat constructor; lia.
Defined.

Lemma decrypt_returns_well_formed_witness : well_formed [0xFFFD] = true.
Proof.
  apply (@decrypt_returns_well_formed toy_cipher a_key a_stored_value [0xFFFD]).
  reflexivity.
Defined.

Lemma decrypt_needs_three_fields_witness :
  exists e, @decrypt toy_cipher (Some a_key) a_short_value = Thrown e.
Proof.
  apply (@decrypt_needs_three_fields toy_cipher a_key a_short_value).
  cbn. lia.
Defined.

End CipherRuns.

Section ContentRuns.
Import Encryption Content Tidy.

Lemma cleaned_content_is_single_spaced_witness :
  single_spaced false (str "Hello world! Bye") = true /\
  trim (str "Hello world! Bye") = str "Hello world! Bye" /\
  Forall (fun c => c <> 10) (str "Hello world! Bye").
Proof.
  apply (cleaned_content_is_single_spaced a_paragraph (str "Hello world! Bye")).
  reflexivity.
Defined.

Lemma processContent_result_witness :
  exists text flag,
    processContent (Returned tt) (Thrown (Error "model is down")) a_paragraph
      = Returned (text, flag) /\
    (text = [] \/ blank text = false) /\
    (flag = false -> text = [] \/ cleanPostContent a_paragraph = Returned text) /\
    (flag = true ->
       text <> [] /\
       exists cleaned, cleanPostContent a_paragraph = Returned cleaned
                       /\ (MAX_POST_LENGTH < length cleaned)%nat).
Proof.
  apply (processContent_result (Returned tt) (Thrown (Error "model is down"))
           a_paragraph); discriminate.
Defined.

Lemma failed_summary_is_flagged_summarized_witness :
  processContent (Returned tt) (Thrown (Error "model is down")) a_long_text
  = Returned (a_long_text, true).
Proof.
  apply (failed_summary_is_flagged_summarized (Thrown (Error "model is down"))
           a_long_text a_long_text).
  - vm_compute. reflexivity.
  - vm_compute. reflexivity.
  - unfold a_long_text, MAX_POST_LENGTH. rewrite repeat_length. lia.
  - left. eexists. reflexivity.
Defined.

End ContentRuns.

Section ConfigRuns.
Import Encryption Content Environment Acceptance.

Lemma validated_target_users_are_trimmed_witness :
  exists value fields,
    given some_settings "TRUTHSOCIAL_TARGET_USERS" = Some value /\
    value <> [] /\
    join_commas fields = value /\
    length fields = S (commas value) /\
    Forall (Forall (fun c => c <> 44)) fields /\
    TRUTHSOCIAL_TARGET_USERS the_config = trim <$> fields /\
    Forall (fun u => trim u = u /\ Forall (fun c => c <> 44) u)
           (TRUTHSOCIAL_TARGET_USERS the_config).
Proof.
  apply (validated_target_users_are_trimmed some_settings the_config).
  vm_compute. reflexivity.
Defined.

End ConfigRuns.
